(** * Dataset-preparation scripts: frame extraction, subsampling, merging,
      label counting and batching

    A shallow embedding of the Python scripts of the repository
    ([vid_folder_cut_frame.py], [merge_folder.py], [count_id_in_lbls.py],
    [shuffle_datasets.py], [random_select_imgandlbl.py],
    [cutframe_from_vid_folder.py], [excel_write_fname.py]) together with
    the properties their specification states about them and further
    properties of the code.

    Python integers are unbounded and are modelled by [Z]; Python [str] is
    modelled by [string], read as ASCII text (case folding, white space and
    digits are the ASCII ones); a directory is a finite map from entry names
    to contents, or its listing where only the listing is used; Python
    floats are IEEE-754 binary64 values, modelled with the standard
    library's [spec_float]. *)

From Stdlib Require Import ZArith Ascii String.
From Corelib Require Import SpecFloat.
From stdpp Require Import gmap strings list fin_maps pretty sorting.

Local Open Scope string_scope.
Local Open Scope list_scope.
Local Open Scope Z_scope.

(** ** Python-level helpers *)

(** Exceptions that the modelled code can raise. *)
Inductive exn :=
  | ZeroDivisionError
  | ValueError
  | OverflowError.

(** Outcome of a computation that may raise. *)
Inductive result (A : Type) :=
  | Ok (a : A)
  | Raise (e : exn).
Arguments Ok {A} a.
Arguments Raise {A} e.

Global Instance result_ret : MRet result := λ A a, Ok a.
Global Instance result_fmap : FMap result := λ A B f r,
  match r with
  | Ok a => Ok (f a)
  | Raise e => Raise e
  end.
Global Instance result_bind : MBind result := λ A B k r,
  match r with
  | Ok a => k a
  | Raise e => Raise e
  end.

Module Py.

(** [str.lower()] on ASCII letters. *)
Definition lower_char (c : ascii) : ascii :=
  let n := nat_of_ascii c in
  if (Nat.leb 65 n && Nat.leb n 90)%bool then ascii_of_nat (n + 32) else c.

Fixpoint lower (s : string) : string :=
  match s with
  | EmptyString => EmptyString
  | String c s' => String (lower_char c) (lower s')
  end.

(** [s.endswith(suffix)]. *)
Definition endswith (s suffix : string) : bool :=
  (Nat.leb (String.length suffix) (String.length s)
   && String.eqb (substring (String.length s - String.length suffix)
                            (String.length suffix) s) suffix)%bool.

(** [s.endswith((suf1, suf2, ...))]. *)
Definition endswith_any (s : string) (suffixes : list string) : bool :=
  existsb (endswith s) suffixes.

(** [s.rfind(c)]: index of the last occurrence of [c], or [-1]. *)
Fixpoint rfind_from (c : ascii) (s : string) (i : Z) (best : Z) : Z :=
  match s with
  | EmptyString => best
  | String d s' => rfind_from c s' (i + 1) (if Ascii.eqb d c then i else best)
  end.

Definition rfind (c : ascii) (s : string) : Z := rfind_from c s 0 (-1).

(** [os.path.splitext(p)] (POSIX): the extension starts at the last dot
    of the last path component, leading dots of that component not
    counting. *)
Definition splitext (p : string) : string * string :=
  let sepIndex := rfind "/"%char p in
  let dotIndex := rfind "."%char p in
  if (sepIndex <? dotIndex) then
    let lead := substring (Z.to_nat (sepIndex + 1))
                          (Z.to_nat (dotIndex - (sepIndex + 1))) p in
    if existsb (λ c, negb (Ascii.eqb c "."%char)) (list_ascii_of_string lead)
    then (substring 0 (Z.to_nat dotIndex) p,
          substring (Z.to_nat dotIndex) (String.length p - Z.to_nat dotIndex) p)
    else (p, "")
  else (p, "").

(** [os.path.join(a, b)] (POSIX). *)
Definition path_join (a b : string) : string :=
  if String.prefix "/" b then b
  else if String.eqb a "" then b
  else if endswith a "/" then a +:+ b
  else a +:+ "/" +:+ b.

(** [str(n)] for an integer. *)
Definition str_int (n : Z) : string := pretty n.

Fixpoint zeros (n : nat) : string :=
  match n with
  | O => ""
  | S n' => String "0"%char (zeros n')
  end.

(** [format(n, "05d")]: sign-aware zero padding to a minimum width 5. *)
Definition format_05d (n : Z) : string :=
  if n <? 0 then
    let digits := pretty (Z.abs n) in
    "-" +:+ zeros (4 - String.length digits) +:+ digits
  else
    let digits := pretty n in
    zeros (5 - String.length digits) +:+ digits.

(** White space in the sense of [str.isspace], for ASCII characters. *)
Definition is_space (c : ascii) : bool :=
  let n := nat_of_ascii c in
  ((Nat.leb 9 n && Nat.leb n 13) || (Nat.leb 28 n && Nat.leb n 32))%bool.

(** [s.split()]: the maximal runs of characters that are not white space. *)
Fixpoint split_from (s : string) (cur : string) : list string :=
  match s with
  | EmptyString => if String.eqb cur "" then [] else [cur]
  | String c s' =>
      if is_space c then
        if String.eqb cur "" then split_from s' "" else cur :: split_from s' ""
      else split_from s' (cur +:+ String c "")
  end.

Definition split (s : string) : list string := split_from s "".

Definition digit_value (c : ascii) : option Z :=
  let n := nat_of_ascii c in
  if (Nat.leb 48 n && Nat.leb n 57)%bool then Some (Z.of_nat n - 48) else None.

(** The digits of an integer literal: single underscores may separate
    digits. [after_digit] tells whether the previous character was a
    digit. *)
Fixpoint parse_digits (s : string) (acc : Z) (after_digit : bool) : option Z :=
  match s with
  | EmptyString => if after_digit then Some acc else None
  | String c s' =>
      if Ascii.eqb c "_"%char then
        if after_digit then parse_digits s' acc false else None
      else
        match digit_value c with
        | Some d => parse_digits s' (10 * acc + d) true
        | None => None
        end
  end.

(** [int(s)] for a string without surrounding white space; [None] is
    [ValueError]. *)
Definition int_of_str (s : string) : option Z :=
  match s with
  | String "+"%char s' => parse_digits s' 0 false
  | String "-"%char s' => Z.opp <$> parse_digits s' 0 false
  | _ => parse_digits s 0 false
  end.

End Py.


(** ** Python floats: IEEE-754 binary64 *)

Module Float.

Definition prec : Z := 53.
Definition emax : Z := 1024.

(** [float(n)] for an integer, as in [n * x] and [n / m]: the nearest
    binary64 value, ties to even; an integer too large for a float raises
    [OverflowError]. *)
Definition of_int (n : Z) : result spec_float :=
  match binary_normalize prec emax n 0 false with
  | S754_infinity _ => Raise OverflowError
  | f => Ok f
  end.

Definition mul (x y : spec_float) : spec_float := SFmul prec emax x y.
Definition div (x y : spec_float) : spec_float := SFdiv prec emax x y.

(** [n * x] for an integer [n] and a float [x]. *)
Definition int_mul (n : Z) (x : spec_float) : result spec_float :=
  y ← of_int n; Ok (mul y x).

(** [a / b] for integers: true division. The quotient of the two
    conversions is the correctly rounded quotient as long as both
    operands are below [2^53] in absolute value, where the conversions
    are exact. *)
Definition int_true_div (a b : Z) : result spec_float :=
  if b =? 0 then Raise ZeroDivisionError
  else x ← of_int a; y ← of_int b; Ok (div x y).

(** [int(x)]: truncation toward zero. *)
Definition to_int (x : spec_float) : result Z :=
  match x with
  | S754_nan => Raise ValueError
  | S754_infinity _ => Raise OverflowError
  | S754_zero _ => Ok 0
  | S754_finite s m e =>
      Ok (cond_Zopp s (if 0 <=? e then Z.pos m * 2 ^ e else Z.pos m / 2 ^ (- e)))
  end.

(** [math.ceil(x)]. *)
Definition ceil (x : spec_float) : result Z :=
  match x with
  | S754_nan => Raise ValueError
  | S754_infinity _ => Raise OverflowError
  | S754_zero _ => Ok 0
  | S754_finite s m e =>
      if 0 <=? e then Ok (cond_Zopp s (Z.pos m * 2 ^ e))
      else if s then Ok (- (Z.pos m / 2 ^ (- e)))
      else Ok ((Z.pos m + 2 ^ (- e) - 1) / 2 ^ (- e))
  end.

(** The float that a decimal literal [num/den] denotes (for small
    [num] and [den]): the nearest binary64 value. *)
Definition of_ratio (num den : Z) : spec_float :=
  match int_true_div num den with
  | Ok x => x
  | Raise _ => S754_nan
  end.

(** [0 <= x <= 1] for a float. *)
Definition in_unit_interval (x : spec_float) : bool :=
  match x with
  | S754_zero _ => true
  | S754_finite false m e => (e <=? 0) && (Z.pos m <=? 2 ^ (- e))
  | _ => false
  end.

(** [1 < x] for a float (infinity included). *)
Definition above_one (x : spec_float) : bool :=
  match x with
  | S754_infinity false => true
  | S754_finite false m e => if 0 <=? e then 1 <? Z.pos m * 2 ^ e else 2 ^ (- e) <? Z.pos m
  | _ => false
  end.

(** [floor(n * x)] for the exact product of an integer and a
    non-negative finite float. *)
Definition exact_floor_mul (n : Z) (x : spec_float) : Z :=
  match x with
  | S754_finite false m e =>
      if 0 <=? e then n * Z.pos m * 2 ^ e else (n * Z.pos m) / 2 ^ (- e)
  | _ => 0
  end.

End Float.

(** ** [vid_folder_cut_frame.py]: run statistics *)

(** One entry of [video_stats]: the dictionary [{'frames': _, 'extracted': _}]. *)
Record video_stat := { frames : Z; extracted : Z }.

(** The value a [defaultdict] creates for a missing key. *)
Definition default_stat : video_stat := {| frames := 0; extracted := 0 |}.

Record ProcessingStats := {
  total_videos : Z;
  processed_videos : Z;
  total_frames : Z;
  extracted_frames : Z;
  video_stats : gmap string video_stat
}.

(** [ProcessingStats.__init__]. *)
Definition ProcessingStats_init : ProcessingStats :=
  {| total_videos := 0; processed_videos := 0; total_frames := 0;
     extracted_frames := 0; video_stats := ∅ |}.

(** Reading [d[k]] on a [defaultdict] inserts the default when [k] is
    missing. *)
Definition defaultdict_touch (k : string) (d : gmap string video_stat)
  : gmap string video_stat :=
  match d !! k with
  | Some _ => d
  | None => <[k := default_stat]> d
  end.

(** [d[k]['frames'] = v] and [d[k]['extracted'] = v]. *)
Definition set_frames (k : string) (v : Z) (d : gmap string video_stat)
  : gmap string video_stat :=
  alter (λ s, {| frames := v; extracted := extracted s |}) k (defaultdict_touch k d).

Definition set_extracted (k : string) (v : Z) (d : gmap string video_stat)
  : gmap string video_stat :=
  alter (λ s, {| frames := frames s; extracted := v |}) k (defaultdict_touch k d).

Definition update_video_stats (self : ProcessingStats) (video_name : string)
    (total_frames' extracted_frames' : Z) : ProcessingStats :=
  let d := set_frames video_name total_frames' (video_stats self) in
  let d := set_extracted video_name extracted_frames' d in
  {| total_videos := total_videos self;
     processed_videos := processed_videos self + 1;
     total_frames := total_frames self + total_frames';
     extracted_frames := extracted_frames self + extracted_frames';
     video_stats := d |}.

(** A sequence of [update_video_stats] calls on one statistics object. *)
Definition update_all (self : ProcessingStats) (calls : list (string * Z * Z))
  : ProcessingStats :=
  foldl (λ s '(name, t, e), update_video_stats s name t e) self calls.

(** Sums over the per-video table. *)
Definition sum_frames (d : gmap string video_stat) : Z :=
  map_fold (λ _ s acc, frames s + acc) 0 d.
Definition sum_extracted (d : gmap string video_stat) : Z :=
  map_fold (λ _ s acc, extracted s + acc) 0 d.

(** ** [vid_folder_cut_frame.py]: frame extraction *)

(** A decoded image, as its raw sample values. *)
Definition Frame : Type := list N.

(** What [cv2.VideoCapture(path)] gives: whether the decoder opened the
    file, the answer of [int(cap.get(cv2.CAP_PROP_FRAME_COUNT))], and the
    frames that [read()] will decode, in order. The frame count is the
    library's answer whatever it is: it need not be the number of frames
    that can be decoded, and a capture that is not open has one too (0 or
    -1, by the version of the library). *)
Record VideoCapture := {
  isOpened : bool;
  CAP_PROP_FRAME_COUNT : Z;
  stream : list Frame
}.

(** Line 131, [int(cap.get(cv2.CAP_PROP_FRAME_COUNT))]: asked of every
    capture, open or not. *)
Definition get_frame_count (cap : VideoCapture) : Z := CAP_PROP_FRAME_COUNT cap.

(** The name under which a frame is saved. *)
Definition frame_filename (video_output_folder video_name : string)
    (saved_frame_count : Z) : string :=
  let video_name_without_ext := (Py.splitext video_name).1 in
  Py.path_join video_output_folder
    (video_name_without_ext +:+ "_frame_" +:+ Py.format_05d saved_frame_count +:+ ".jpg").

(** State of the decode loop: the two counters and the [cv2.imwrite]
    calls made so far, oldest first. *)
Record loop_state := {
  frame_count : Z;
  saved_frame_count : Z;
  imwrites : list (string * Frame)
}.

(** The body of [while cap.isOpened(): ...] over the frames still to be
    decoded: [read()] hands out the head of the stream, and an empty
    stream is [ret = False], which leaves the loop. *)
Fixpoint decode_loop (n : Z) (video_output_folder video_name : string)
    (remaining : list Frame) (st : loop_state) : result loop_state :=
  match remaining with
  | [] => Ok st
  | frame :: rest =>
      if n =? 0 then Raise ZeroDivisionError
      else
        let st' :=
          if frame_count st mod n =? 0 then
            {| frame_count := frame_count st;
               saved_frame_count := saved_frame_count st + 1;
               imwrites := imwrites st ++
                 [(frame_filename video_output_folder video_name (saved_frame_count st), frame)] |}
          else st in
        decode_loop n video_output_folder video_name rest
          {| frame_count := frame_count st' + 1;
             saved_frame_count := saved_frame_count st';
             imwrites := imwrites st' |}
  end.

(** Lines 128-151 for one capture: a capture that is not open never
    enters the loop. *)
Definition extract_from_capture (n : Z) (video_output_folder video_name : string)
    (cap : VideoCapture) : result loop_state :=
  let st0 := {| frame_count := 0; saved_frame_count := 0; imwrites := [] |} in
  if isOpened cap then decode_loop n video_output_folder video_name (stream cap) st0
  else Ok st0.

(** What the run shows on the console. *)
Inductive output :=
  | ProgressBar (desc : string) (total : Z) (updates : Z)
  | Summary (s : ProcessingStats)
  | Line (text : string).

(** The part of the world the extraction acts on: existing directories,
    image files by path, and the console. *)
Record World := {
  dirs : gset string;
  files : gmap string Frame;
  console : list output
}.

Definition makedirs_if_missing (path : string) (w : World) : World :=
  {| dirs := {[path]} ∪ dirs w; files := files w; console := console w |}.

Definition imwrite_all (writes : list (string * Frame)) (w : World) : World :=
  {| dirs := dirs w;
     files := foldl (λ fs '(path, frame), <[path := frame]> fs) (files w) writes;
     console := console w |}.

Definition emit (o : output) (w : World) : World :=
  {| dirs := dirs w; files := files w; console := console w ++ [o] |}.

(** An entry of the input folder. *)
Record DirEntry := {
  entry_name : string;
  entry_isfile : bool;
  entry_capture : VideoCapture
}.

Definition VIDEO_SUFFIXES : list string := [".mp4"; ".avi"; ".mov"; ".mkv"; ".dav"].

Definition is_video_file (e : DirEntry) : bool :=
  entry_isfile e && Py.endswith_any (Py.lower (entry_name e)) VIDEO_SUFFIXES.

(** One iteration of [for video_name in video_files]. *)
Definition extract_video (output_folder : string) (n : Z)
    (acc : World * ProcessingStats) (e : DirEntry) : result (World * ProcessingStats) :=
  let '(w, stats) := acc in
  let video_name := entry_name e in
  let video_output_folder := Py.path_join output_folder (Py.splitext video_name).1 in
  let w := makedirs_if_missing video_output_folder w in
  let cap := entry_capture e in
  let total_frames' := get_frame_count cap in
  st ← extract_from_capture n video_output_folder video_name cap;
  let w := imwrite_all (imwrites st) w in
  let w := emit (ProgressBar ("Processing " +:+ video_name) total_frames' (frame_count st)) w in
  Ok (w, update_video_stats stats video_name total_frames' (saved_frame_count st)).

Fixpoint extract_videos (output_folder : string) (n : Z)
    (acc : World * ProcessingStats) (video_files : list DirEntry)
  : result (World * ProcessingStats) :=
  match video_files with
  | [] => Ok acc
  | e :: rest =>
      acc' ← extract_video output_folder n acc e;
      extract_videos output_folder n acc' rest
  end.

Definition extract_frames (input_folder : list DirEntry) (output_folder : string)
    (n : Z) (w : World) (stats : ProcessingStats) : result (World * ProcessingStats) :=
  let w := makedirs_if_missing output_folder w in
  let video_files := filter (λ e, is_video_file e = true) input_folder in
  let stats := {| total_videos := Z.of_nat (length video_files);
                  processed_videos := processed_videos stats;
                  total_frames := total_frames stats;
                  extracted_frames := extracted_frames stats;
                  video_stats := video_stats stats |} in
  '(w, stats) ← extract_videos output_folder n (w, stats) video_files;
  let w := emit (Summary stats) w in
  let w := emit (Line ("Frames have been extracted and saved to " +:+ output_folder)) w in
  Ok (w, stats).

(** The aggregate-consistency invariant of [ProcessingStats]. *)
Definition stats_consistent (s : ProcessingStats) : Prop :=
  total_frames s = sum_frames (video_stats s)
  ∧ extracted_frames s = sum_extracted (video_stats s)
  ∧ processed_videos s = Z.of_nat (size (video_stats s)).

(** [ceil(a / b)] on integers, for [b > 0]. *)
Definition ceil_div (a b : Z) : Z := (a + b - 1) / b.

(** The frames [read()] decodes successfully from a capture. *)
Definition decoded (cap : VideoCapture) : list Frame :=
  if isOpened cap then stream cap else [].

(** The loop invariant: after the frames [seen] have been decoded, the
    counters and the [imwrite] calls are those of [seen]. *)
Definition loop_inv (n : Z) (folder name : string) (seen : list Frame)
    (st : loop_state) : Prop :=
  frame_count st = Z.of_nat (length seen)
  ∧ saved_frame_count st = ceil_div (Z.of_nat (length seen)) n
  ∧ Z.of_nat (length (imwrites st)) = saved_frame_count st
  ∧ ∀ k : nat, Z.of_nat k < saved_frame_count st →
      ∃ f, seen !! (k * Z.to_nat n)%nat = Some f
           ∧ imwrites st !! k = Some (frame_filename folder name (Z.of_nat k), f).


(** [<video-base>_frame_<counter>.jpg] in the video's folder, for a given
    rendering [counter] of the save counter. *)
Definition frame_path_with (video_output_folder video_name counter : string) : string :=
  Py.path_join video_output_folder
    ((Py.splitext video_name).1 +:+ "_frame_" +:+ counter +:+ ".jpg").

(** The decimal digits of [k], left-padded with zeros up to five characters. *)
Definition zero_padded (k : Z) : string :=
  Py.zeros (5 - String.length (pretty k)) +:+ pretty k.

(** A capture that decodes [len] (empty) frames. *)
Definition blank_video (len : Z) : VideoCapture :=
  {| isOpened := true; CAP_PROP_FRAME_COUNT := len;
     stream := replicate (Z.to_nat len) [] |}.

(** A capture whose [i]-th frame holds the single sample [i]. *)
Definition numbered_video (len : nat) : VideoCapture :=
  {| isOpened := true; CAP_PROP_FRAME_COUNT := Z.of_nat len;
     stream := (λ i, [N.of_nat i]) <$> seq 0 len |}.






(** ** [merge_folder.py]: combining sub-folders *)

(** The bytes of a file. *)
Definition Content : Type := list N.

(** An entry of the root folder: its name, whether it is a directory, and
    what [os.listdir] gives for it, each file with its bytes. *)
Record RootEntry := {
  folder : string;
  isdir : bool;
  listing : list (string * Content)
}.

(** One [shutil.copy(src_path, dest_path)] call: the source path, the
    image's own name, its bytes, and the name it gets in the output
    folder. *)
Record copy_call := {
  src_path : string;
  image : string;
  payload : Content;
  dest : string
}.

Definition is_jpg (file : string) : bool := Py.endswith (Py.lower file) ".jpg".

(** [f"{name}_{counter}{ext}"] with [name, ext = os.path.splitext(image)]. *)
Definition candidate (image : string) (counter : Z) : string :=
  let '(name, ext) := Py.splitext image in
  name +:+ "_" +:+ Py.str_int counter +:+ ext.

(** The loop [while os.path.exists(dest_path): ...]. The output folder is
    a finite map from file names to bytes, so [os.path.exists] of a path
    in it is a lookup. The loop is bounded by [fuel]; [None] stands for
    running out of it. *)
Fixpoint unique_dest_loop (output : gmap string Content) (image dest_path : string)
    (counter : Z) (fuel : nat) : option string :=
  match output !! dest_path with
  | None => Some dest_path
  | Some _ =>
      match fuel with
      | O => None
      | S fuel' =>
          unique_dest_loop output image (candidate image counter) (counter + 1) fuel'
      end
  end.

(** Lines 22-29: one more iteration than the output folder has files is
    always enough (see [unique_dest_total]). *)
Definition unique_dest (output : gmap string Content) (image : string) : option string :=
  unique_dest_loop output image image 1 (S (size output)).

(** The body of [for image in images]. *)
Definition copy_image (subfolder : string)
    (acc : gmap string Content * list copy_call) (file : string * Content)
  : option (gmap string Content * list copy_call) :=
  let '(output, log) := acc in
  let '(image, bytes) := file in
  dest_path ← unique_dest output image;
  Some (<[dest_path := bytes]> output,
        log ++ [{| src_path := Py.path_join subfolder image; image := image;
                   payload := bytes; dest := dest_path |}]).

Fixpoint copy_images (subfolder : string)
    (acc : gmap string Content * list copy_call) (images : list (string * Content))
  : option (gmap string Content * list copy_call) :=
  match images with
  | [] => Some acc
  | file :: rest =>
      acc' ← copy_image subfolder acc file;
      copy_images subfolder acc' rest
  end.

Definition jpg_images (e : RootEntry) : list (string * Content) :=
  filter (λ file, is_jpg file.1 = true) (listing e).

Fixpoint copy_subfolders (root_folder : string)
    (acc : gmap string Content * list copy_call) (subfolders : list RootEntry)
  : option (gmap string Content * list copy_call) :=
  match subfolders with
  | [] => Some acc
  | e :: rest =>
      acc' ← copy_images (Py.path_join root_folder (folder e)) acc (jpg_images e);
      copy_subfolders root_folder acc' rest
  end.

(** [combine_folders(root_folder, output_folder)]: [root] is the listing of
    the root folder and [output] the files already in the output folder,
    which is taken not to be one of the listed sub-folders. The result is
    the output folder afterwards and the copies made, in order. *)
Definition combine_folders (root_folder : string) (root : list RootEntry)
    (output : gmap string Content) : option (gmap string Content * list copy_call) :=
  let subfolders := filter (λ e, isdir e = true) root in
  copy_subfolders root_folder (output, []) subfolders.

(** Every image file of every immediate child sub-folder, in the order
    the loops visit them. *)
Definition all_images (root : list RootEntry) : list (string * Content) :=
  filter (λ e, isdir e = true) root ≫= jpg_images.

(** Two sub-folders that each hold a file [a.jpg]. *)
Definition two_folders (c1 c2 : Content) : list RootEntry :=
  [ {| folder := "x"; isdir := true; listing := [("a.jpg", c1)] |};
    {| folder := "y"; isdir := true; listing := [("a.jpg", c2)] |} ].

(** What holds of the output folder [cur] and of the copies [log] made so
    far, for an output folder that started as [output]. *)
Record merge_inv (output cur : gmap string Content) (log : list copy_call) : Prop := {
  inv_nodup : NoDup (dest <$> log);
  inv_fresh : ∀ c, c ∈ log → output !! dest c = None;
  inv_content : ∀ c, c ∈ log → cur !! dest c = Some (payload c);
  inv_kept : ∀ k b, output !! k = Some b → cur !! k = Some b;
  inv_dom : dom cur = dom output ∪ list_to_set (dest <$> log);
  inv_naming : ∀ c, c ∈ log →
    dest c = image c
    ∨ ∃ n, 1 ≤ n ∧ dest c = candidate (image c) n
           ∧ is_Some (cur !! image c)
           ∧ ∀ j, 1 ≤ j < n → is_Some (cur !! candidate (image c) j)
}.

(** ** [count_id_in_lbls.py]: counting class identifiers *)

(** A [Counter] keeps its keys in insertion order; [counter[k] += 1]
    increments in place or appends [k] with count 1. *)
Fixpoint increment (class_id : string) (class_counts : list (string * Z))
  : list (string * Z) :=
  match class_counts with
  | [] => [(class_id, 1)]
  | (k, v) :: rest =>
      if String.eqb k class_id then (k, v + 1) :: rest
      else (k, v) :: increment class_id rest
  end.

(** [counter[k]], which is 0 for a missing key. *)
Fixpoint counter_get (class_id : string) (class_counts : list (string * Z)) : Z :=
  match class_counts with
  | [] => 0
  | (k, v) :: rest => if String.eqb k class_id then v else counter_get class_id rest
  end.

(** The body of [for line in file]. *)
Definition count_line (class_counts : list (string * Z)) (line : string)
  : list (string * Z) :=
  match Py.split line with
  | [] => class_counts
  | class_id :: _ => increment class_id class_counts
  end.

(** A label file is the list of its lines, as iterating over the open
    file yields them; reading is taken to succeed. *)
Definition count_file (class_counts : list (string * Z)) (file : string * list string)
  : list (string * Z) :=
  foldl count_line class_counts file.2.

Definition txt_files (folder_path : list (string * list string))
  : list (string * list string) :=
  filter (λ f, Py.endswith f.1 ".txt" = true) folder_path.

Definition class_counts_of (files : list (string * list string)) : list (string * Z) :=
  foldl count_file [] files.

(** Stable insertion of an item into a list sorted by key. *)
Fixpoint insert_by_key (x : Z * (string * Z)) (l : list (Z * (string * Z)))
  : list (Z * (string * Z)) :=
  match l with
  | [] => [x]
  | y :: l' => if x.1 <=? y.1 then x :: y :: l' else y :: insert_by_key x l'
  end.

(** A stable sort by key, as [sorted] is. *)
Definition stable_sort (l : list (Z * (string * Z))) : list (Z * (string * Z)) :=
  foldr insert_by_key [] l.

(** [key=lambda x: int(x[0])], computed for every item before sorting. *)
Fixpoint with_int_keys (items : list (string * Z)) : result (list (Z * (string * Z))) :=
  match items with
  | [] => Ok []
  | item :: rest =>
      match Py.int_of_str item.1 with
      | None => Raise ValueError
      | Some k => keyed ← with_int_keys rest; Ok ((k, item) :: keyed)
      end
  end.

(** [sorted(class_counts.items(), key=lambda x: int(x[0]))]. *)
Definition sorted_items (class_counts : list (string * Z)) : result (list (string * Z)) :=
  keyed ← with_int_keys class_counts;
  Ok (snd <$> stable_sort keyed).

Definition row_text (row : string * Z) : string :=
  "Class ID " +:+ row.1 +:+ ": " +:+ Py.str_int row.2 +:+ " occurrences".

(** [count_class_ids(folder_path)]: the lines printed, or the exception
    that [sorted] raises on a class id that is not an integer literal. *)
Definition count_class_ids (folder_path : list (string * list string))
  : result (list string) :=
  match txt_files folder_path with
  | [] => Ok ["No .txt files found in the specified folder."]
  | files =>
      rows ← sorted_items (class_counts_of files);
      Ok (["" ; "Class ID Counts:"] ++ (row_text <$> rows))
  end.

(** The class identifier of a line: its first token, if it has one. *)
Definition first_token (line : string) : option string := head (Py.split line).

(** The number of lines, over all the files, whose first token is
    [class_id]. *)
Definition lines_of_class (class_id : string) (files : list (string * list string)) : Z :=
  Z.of_nat (length (filter (λ line, first_token line = Some class_id) (files ≫= snd))).

(** The key by which a class identifier is ordered; identifiers that are
    not integer literals never reach the printed table. *)
Definition numeric_id (row : string * Z) : Z := default 0 (Py.int_of_str row.1).

(** Strings made of white space only, and strings without white space. *)
Definition all_space (s : string) : Prop :=
  Forall (λ a, Py.is_space a = true) (list_ascii_of_string s).
Definition no_space (s : string) : Prop :=
  Forall (λ a, Py.is_space a = false) (list_ascii_of_string s).

(** A string that is empty or starts with a white-space character. *)
Definition at_boundary (s : string) : Prop :=
  match s with
  | EmptyString => True
  | String a _ => Py.is_space a = true
  end.

(** The label files of the example of the specification, with a file
    that is not a label file. *)
Definition label_folder : list (string * list string) :=
  [ ("a.txt", ["3 0.1 0.2 0.3 0.4"; "10 0.5 0.5 0.1 0.1"; ""; "3 0.2 0.2 0.1 0.1"]);
    ("readme.md", ["3 is not counted here"]);
    ("b.txt", ["  3 0.1 0.2 0.3 0.4"; "0 0.9 0.9 0.1 0.1"]) ].

(** ** [vid_folder_cut_frame.py]: random subsampling of a folder *)

(** A folder of frames is a finite map from file names to bytes; a path
    inside the folder is identified with the file's name. [os.listdir]
    gives the names in some order, each once. *)
Definition listdir (folder_path : gmap string Content) : list string :=
  (map_to_list folder_path).*1.

(** [os.remove(path)]: [None] is the exception raised for a file that is
    not there. *)
Definition os_remove (path : string) (folder_path : gmap string Content)
  : option (gmap string Content) :=
  match folder_path !! path with
  | Some _ => Some (delete path folder_path)
  | None => None
  end.

(** [remove_frame((frame_path, should_remove))]: the folder afterwards and
    the returned flag; a failed removal is reported and gives [False]. *)
Definition remove_frame (folder_path : gmap string Content) (args : string * bool)
  : gmap string Content * bool :=
  let '(frame_path, should_remove) := args in
  if should_remove then
    match os_remove frame_path folder_path with
    | Some folder' => (folder', true)
    | None => (folder_path, false)
    end
  else (folder_path, false).

(** [pool.imap(remove_frame, remove_tasks)]: the tasks act on different
    files, so the order in which the workers run them does not matter;
    they are run here in task order, and the flags come back in task
    order. *)
Fixpoint pool_imap_remove (folder_path : gmap string Content)
    (remove_tasks : list (string * bool)) : gmap string Content * list bool :=
  match remove_tasks with
  | [] => (folder_path, [])
  | task :: rest =>
      let '(folder', flag) := remove_frame folder_path task in
      let '(folder'', flags) := pool_imap_remove folder' rest in
      (folder'', flag :: flags)
  end.

(** [sum(results)] for a list of booleans. *)
Definition sum_flags (results : list bool) : Z :=
  foldr (λ (b : bool) acc, (if b then 1 else 0) + acc) 0 results.

(** [random.sample(population, k)]: [choose] stands for the random
    choice; a sample larger than the population, or negative, raises
    [ValueError]. *)
Definition random_sample (choose : list string → nat → list string)
    (population : list string) (k : Z) : result (list string) :=
  if (k <? 0) || (Z.of_nat (length population) <? k) then Raise ValueError
  else Ok (choose population (Z.to_nat k)).

(** What [random.sample] guarantees of its choice: [k] different elements
    of the population. *)
Definition samples_without_replacement (choose : list string → nat → list string) : Prop :=
  ∀ population k, NoDup population → (k ≤ length population)%nat →
    length (choose population k) = k
    ∧ NoDup (choose population k)
    ∧ ∀ x, x ∈ choose population k → x ∈ population.

(** The [.jpg] files of a folder. *)
Definition jpg_frames (folder_path : gmap string Content) : list string :=
  filter (λ f, is_jpg f = true) (listdir folder_path).

(** [int(total_frames * keep_percentage)]. *)
Definition frames_to_keep_of (total_frames' : Z) (keep_percentage : spec_float) : result Z :=
  x ← Float.int_mul total_frames' keep_percentage; Float.to_int x.

(** [process_folder(folder_path, keep_percentage)]: the folder afterwards,
    and the returned triple or the exception raised. *)
Definition process_folder (choose : list string → nat → list string)
    (folder_path : gmap string Content) (keep_percentage : spec_float)
  : gmap string Content * result (Z * Z * Z) :=
  let all_frames := jpg_frames folder_path in
  let total_frames' := Z.of_nat (length all_frames) in
  if total_frames' =? 0 then (folder_path, Ok (0, 0, 0))
  else
    match frames_to_keep_of total_frames' keep_percentage with
    | Raise e => (folder_path, Raise e)
    | Ok frames_to_keep =>
        match random_sample choose all_frames frames_to_keep with
        | Raise e => (folder_path, Raise e)
        | Ok frames_to_keep_list =>
            let remove_tasks :=
              (λ frame, (frame, bool_decide (frame ∉ frames_to_keep_list))) <$> all_frames in
            let '(folder', results) := pool_imap_remove folder_path remove_tasks in
            let removed_count := sum_flags results in
            (folder', Ok (total_frames', frames_to_keep, removed_count))
        end
    end.

(** The number of [.jpg] files in a folder. *)
Definition jpg_count (folder_path : gmap string Content) : Z :=
  Z.of_nat (length (jpg_frames folder_path)).

(** A choice function for examples: the first [k] names. *)
Definition choose_first (population : list string) (k : nat) : list string :=
  take k population.

(** A folder of [n] empty frames [f0.jpg], [f1.jpg], ... and a text file. *)
Definition frames_folder (n : nat) : gmap string Content :=
  list_to_map (("notes.txt", []) ::
               ((λ i, ("f" +:+ pretty i +:+ ".jpg", [])) <$> seq 0 n)).

(** A folder that holds the single frame [a.jpg]. *)
Definition one_frame_folder : gmap string Content := {[ "a.jpg" := [] ]}.

(** ** [shuffle_datasets.py]: batching image-label pairs *)

Definition BATCH_SIZE : Z := 500.

(** [l[start:end]] for [0 <= start]. *)
Definition slice {A} (l : list A) (start_index end_index : Z) : list A :=
  take (Z.to_nat (end_index - start_index)) (drop (Z.to_nat start_index) l).

(** [shuffle_and_split_pairs(pairs)]: [shuffle] stands for the
    permutation that [random.shuffle] applies in place. The number of
    batches is [math.ceil(total_pairs / BATCH_SIZE)], a float division. *)
Definition shuffle_and_split_pairs (shuffle : list (string * string) → list (string * string))
    (pairs : list (string * string)) : result (list (list (string * string))) :=
  let pairs := shuffle pairs in
  let total_pairs := Z.of_nat (length pairs) in
  quotient ← Float.int_true_div total_pairs BATCH_SIZE;
  total_batches ← Float.ceil quotient;
  Ok ((λ i,
         let start_index := i * BATCH_SIZE in
         let end_index := Z.min (start_index + BATCH_SIZE) total_pairs in
         slice pairs start_index end_index) <$> seqZ 0 total_batches).

(** [n] numbered image-label pairs. *)
Definition numbered_pairs (n : nat) : list (string * string) :=
  (λ i, ("images/" +:+ pretty i +:+ ".jpg", "labels/" +:+ pretty i +:+ ".txt")) <$> seq 0 n.

(** ** [vid_folder_cut_frame.py]: a whole run of [extract_frames] *)





Definition sum_Z (l : list Z) : Z := foldr Z.add 0 l.


(** ** [vid_folder_cut_frame.py]: subsampling every folder of a tree *)

(** The folders of a directory tree by path, each with the files it holds;
    folders of different paths are different directories (no symbolic
    links). *)
Abbreviation Tree := (gmap string (gmap string Content)).

(** The dictionary [total_stats] of [random_select_frames]. *)
Module TotalStats.
Record t := { total_frames : Z; frames_kept : Z; frames_removed : Z }.
End TotalStats.

(** Lines 221-224: the root folder, then every directory named in the
    [(root, dirs, files)] triples that [os.walk] yields. *)
Definition all_folders_of (output_folder : string)
    (walk : list (string * list string * list string)) : list string :=
  output_folder :: (walk ≫= λ '(root, dirs, _), Py.path_join root <$> dirs).

(** Lines 233-240, the loop [for folder in all_folders]. Each folder
    draws its own random sample, [choose folder]. [None] stands for the
    failure of [os.listdir] on a folder that does not exist; a
    [process_folder] call that raises ends the run. *)
Fixpoint select_folders (choose : string → list string → nat → list string)
    (keep_percentage : spec_float) (tree : Tree) (total_stats : TotalStats.t)
    (all_folders : list string) : option (Tree * result TotalStats.t) :=
  match all_folders with
  | [] => Some (tree, Ok total_stats)
  | folder :: rest =>
      match tree !! folder with
      | None => None
      | Some content =>
          match process_folder (choose folder) content keep_percentage with
          | (content', Raise e) => Some (<[folder := content']> tree, Raise e)
          | (content', Ok (total_frames', frames_kept', frames_removed')) =>
              let total_stats :=
                if 0 <? total_frames' then
                  {| TotalStats.total_frames :=
                       TotalStats.total_frames total_stats + total_frames';
                     TotalStats.frames_kept :=
                       TotalStats.frames_kept total_stats + frames_kept';
                     TotalStats.frames_removed :=
                       TotalStats.frames_removed total_stats + frames_removed' |}
                else total_stats in
              select_folders choose keep_percentage (<[folder := content']> tree)
                total_stats rest
          end
      end
  end.

(** [random_select_frames(output_folder, keep_percentage)]: the tree
    afterwards and the totals that the final summary prints. *)
Definition random_select_frames (choose : string → list string → nat → list string)
    (output_folder : string) (walk : list (string * list string * list string))
    (keep_percentage : spec_float) (tree : Tree) : option (Tree * result TotalStats.t) :=
  select_folders choose keep_percentage tree
    {| TotalStats.total_frames := 0; TotalStats.frames_kept := 0;
       TotalStats.frames_removed := 0 |}
    (all_folders_of output_folder walk).

(** The number of [.jpg] files of the folder at a path. *)
Definition jpg_count_at (tree : Tree) (folder : string) : Z :=
  jpg_count (tree !!! folder).


(** A tree of two frame folders under [out]. *)
Definition small_tree : Tree :=
  {[ "out" := ∅; "out/a" := frames_folder 10; "out/b" := frames_folder 5 ]}.
Definition small_walk : list (string * list string * list string) :=
  [("out", ["a"; "b"], []); ("out/a", [], []); ("out/b", [], [])].

(** ** [count_id_in_lbls.py]: the order of the rows *)

(** The class identifiers of the label lines, in reading order. *)
Definition first_tokens (files : list (string * list string)) : list string :=
  omap first_token (files ≫= snd).

(** The tokens in order of first appearance, skipping those in [seen]. *)
Fixpoint first_occurrences (seen : list string) (tokens : list string) : list string :=
  match tokens with
  | [] => []
  | t :: rest =>
      if decide (t ∈ seen) then first_occurrences seen rest
      else t :: first_occurrences (t :: seen) rest
  end.

(** A folder whose labels write class 3 in two ways. *)
Definition padded_ids_folder : list (string * list string) :=
  [("a.txt", ["03 0.5 0.5 0.1 0.1"; "1 0.2 0.2 0.1 0.1"]);
   ("b.txt", ["3 0.4 0.4 0.1 0.1"; ""; "03 0.1 0.1 0.1 0.1"])].

(** ** [shuffle_datasets.py]: collecting the pairs and copying the batches *)

Definition IMAGES_FOLDER_NAME : string := "images".
Definition LABELS_FOLDER_NAME : string := "labels".

Definition IMAGE_EXTENSIONS : gset string :=
  {[ ".jpg"; ".jpeg"; ".png"; ".bmp"; ".tif"; ".tiff" ]}.
Definition LABEL_EXTENSIONS : gset string :=
  {[ ".txt"; ".json"; ".xml"; ".csv" ]}.

(** Lines 91-96 and 105-110: the dictionary from base names to paths,
    filled in listing order; a later file of the same base name replaces
    an earlier one. *)
Definition build_mapping (dir : string) (extensions : gset string)
    (files : list string) : gmap string string :=
  foldl (λ mapping file,
           let '(base, ext) := Py.splitext file in
           if decide (Py.lower ext ∈ extensions)
           then <[base := Py.path_join dir file]> mapping
           else mapping)
        ∅ files.

(** [collect_image_label_pairs(root_input_dir)]. [images] and [labels]
    are what [os.listdir] gives for the two directories, [None] for a
    directory that does not exist or cannot be listed: the function then
    logs an error and returns no pair. What is logged goes to the console
    and, within [main], to the log file (see [append_log]). Python does
    not specify the order in which a set is iterated; the pairs come here
    in the order of [elements]. The two look-ups are by keys of both
    dictionaries. *)
Definition collect_image_label_pairs (root_input_dir : string)
    (images labels : option (list string)) : list (string * string) :=
  let images_dir := Py.path_join root_input_dir IMAGES_FOLDER_NAME in
  let labels_dir := Py.path_join root_input_dir LABELS_FOLDER_NAME in
  match images, labels with
  | Some image_files, Some label_files =>
      let image_mapping := build_mapping images_dir IMAGE_EXTENSIONS image_files in
      let label_mapping := build_mapping labels_dir LABEL_EXTENSIONS label_files in
      let common_bases := dom image_mapping ∩ dom label_mapping in
      (λ base, (image_mapping !!! base, label_mapping !!! base))
        <$> elements common_bases
  | _, _ => []
  end.

(** [os.path.basename(p)] (POSIX): what follows the last slash. *)
Definition basename (p : string) : string :=
  let i := Z.to_nat (Py.rfind "/"%char p + 1) in
  substring i (String.length p - i) p.

(** [shutil.copy2(src, dst)] on files identified with their paths:
    [None] is the exception raised for a source that is not there, or
    when source and destination are the same file. *)
Definition copy2 (src dst : string) (files : gmap string Content)
  : option (gmap string Content) :=
  match files !! src with
  | Some bytes => if decide (src = dst) then None else Some (<[dst := bytes]> files)
  | None => None
  end.





(** The map [files] holds the regular files by path; a folder is never a
    key, and exists where a file lies below it or where it has been
    created, which leaves no trace in the map. *)












(** A file counts for a dictionary when its extension, in lower case, is
    one of the set. *)
Definition eligible (extensions : gset string) (file : string) : bool :=
  bool_decide (Py.lower (Py.splitext file).2 ∈ extensions).

(** The last file of a listing that counts and has a given base name. *)
Definition last_with_base (extensions : gset string) (base : string)
    (files : list string) : option string :=
  last (filter (λ file, eligible extensions file = true ∧ (Py.splitext file).1 = base)
          files).

(** The base names of the files of a listing that count. *)
Definition bases_of (extensions : gset string) (files : list string) : gset string :=
  list_to_set ((λ file, (Py.splitext file).1) <$> filter (λ file, eligible extensions file = true) files).









(** ** [vid_folder_cut_frame.py]: the parallel [combine_folders] *)

Definition all_slashes (s : string) : bool :=
  forallb (Ascii.eqb "/"%char) (list_ascii_of_string s).

(** [s.rstrip('/')]. *)
Fixpoint rstrip_slash (s : string) : string :=
  match s with
  | EmptyString => EmptyString
  | String c s' =>
      let r := rstrip_slash s' in
      if String.eqb r "" && Ascii.eqb c "/"%char then EmptyString else String c r
  end.

(** [os.path.dirname(p)] (POSIX). *)
Definition dirname (p : string) : string :=
  let i := Z.to_nat (Py.rfind "/"%char p + 1) in
  let head := substring 0 i p in
  if negb (String.eqb head "") && negb (all_slashes head) then rstrip_slash head
  else head.

(** Lines 93-100: the copy tasks, one per image of every sub-folder, each
    a source path and the destination path of the image's own name. *)
Definition copy_tasks (root_folder output_folder : string) (root : list RootEntry)
  : list (string * string) :=
  filter (λ e, isdir e = true) root ≫= λ e,
    (λ file, (Py.path_join (Py.path_join root_folder (folder e)) file.1,
              Py.path_join output_folder file.1)) <$> jpg_images e.

(** Where a [copy_file] call stands: not yet handed to a worker; about to
    test [os.path.exists(dest_path)]; about to run [shutil.copy]; returned;
    or ended by the exception of the copy. *)
Inductive task_state :=
  | NotStarted (args : string * string)
  | Checking (src_path dest_path : string) (counter : Z)
  | Copying (src_path dest_path : string)
  | Finished
  | Failed.

Definition active (t : task_state) : bool :=
  match t with
  | Checking _ _ _ | Copying _ _ => true
  | _ => false
  end.

Definition started (t : task_state) : bool :=
  match t with
  | NotStarted _ => false
  | _ => true
  end.

(** One step of a running [copy_file] (lines 73-82) on the files by
    path: one evaluation of the loop condition with the loop body when it
    holds, or the copy. *)
Definition copy_file_step (files : gmap string Content) (t : task_state)
  : gmap string Content * task_state :=
  match t with
  | Checking src_path dest_path counter =>
      match files !! dest_path with
      | Some _ =>
          let '(name, ext) := Py.splitext (basename src_path) in
          (files,
           Checking src_path
             (Py.path_join (dirname dest_path)
                (name +:+ "_" +:+ Py.str_int counter +:+ ext))
             (counter + 1))
      | None => (files, Copying src_path dest_path)
      end
  | Copying src_path dest_path =>
      match copy2 src_path dest_path files with
      | Some files' => (files', Finished)
      | None => (files, Failed)
      end
  | _ => (files, t)
  end.

(** The pool of [num_processes] workers running [pool.imap(copy_file,
    copy_tasks)]: the next task in order is handed to a worker when one is
    free, and any running task may take its next step. *)
Inductive pool_step (num_processes : nat)
  : gmap string Content * list task_state → gmap string Content * list task_state → Prop :=
  | pool_start files tasks i src_path dest_path :
      tasks !! i = Some (NotStarted (src_path, dest_path)) →
      Forall (λ t, started t = true) (take i tasks) →
      (length (filter (λ t, active t = true) tasks) < num_processes)%nat →
      pool_step num_processes (files, tasks)
        (files, <[i := Checking src_path dest_path 1]> tasks)
  | pool_run files tasks i t files' t' :
      tasks !! i = Some t → active t = true →
      copy_file_step files t = (files', t') →
      pool_step num_processes (files, tasks) (files', <[i := t']> tasks).

(** The files of two sub-folders [x] and [y] of [root], each with an
    [a.jpg]. *)
Definition two_folders_files (c1 c2 : Content) : gmap string Content :=
  {[ "root/x/a.jpg" := c1; "root/y/a.jpg" := c2 ]}.

(** ** [excel_write_fname.py]: the label of a file name *)

(** [s.split(sep)] for a one-character separator; [cur] is the part
    being read. *)
Fixpoint split_on (sep : ascii) (s : string) (cur : string) : list string :=
  match s with
  | EmptyString => [cur]
  | String c s' =>
      if Ascii.eqb c sep then cur :: split_on sep s' ""
      else split_on sep s' (cur +:+ String c "")
  end.

(** [extract_label(filename)]. *)
Definition extract_label (filename : string) : string :=
  let base_name := (Py.splitext filename).1 in
  let parts := split_on "_"%char base_name "" in
  if (1 <? length parts)%nat then default "" (last parts) else "".

(** A string without a given character. *)
Definition without (sep : ascii) (s : string) : bool :=
  forallb (λ c, negb (Ascii.eqb c sep)) (list_ascii_of_string s).

(** ** [random_select_imgandlbl.py]: picking a share of the pairs *)

(** [l[:stop]]: a negative [stop] counts from the end. *)
Definition prefix_slice {A} (l : list A) (stop : Z) : list A :=
  if stop <? 0 then take (Z.to_nat (Z.of_nat (length l) + stop)) l
  else take (Z.to_nat stop) l.

(** The output folders [images] and [labels] and the count of copies. *)
Record pick_state := {
  output_images : gmap string Content;
  output_labels : gmap string Content;
  copied_count : Z
}.

(** The name of the label of an image. *)
Definition label_of (file : string) : string := (Py.splitext file).1 +:+ ".txt".

(** Lines 27-34, the body of [for file in selected_files]. The two input
    folders and the two output folders are four different directories,
    each a finite map from file names to bytes. *)
Definition pick_file (images_folder labels_folder : gmap string Content)
    (st : pick_state) (file : string) : pick_state :=
  match images_folder !! file, labels_folder !! label_of file with
  | Some image, Some label =>
      {| output_images := <[file := image]> (output_images st);
         output_labels := <[label_of file := label]> (output_labels st);
         copied_count := copied_count st + 1 |}
  | _, _ => st
  end.

(** [random_pick_images_and_labels(images_folder, labels_folder,
    output_folder, ratio)]: [shuffle] stands for the permutation that
    [random.shuffle] applies, [output_images0] and [output_labels0] for
    what [output_folder/images] and [output_folder/labels] hold before
    the call. The result carries the returned [copied_count]. *)
Definition random_pick_images_and_labels
    (shuffle : list string → list string)
    (images_folder labels_folder : gmap string Content)
    (output_images0 output_labels0 : gmap string Content)
    (ratio : spec_float) : result pick_state :=
  let image_files := jpg_frames images_folder in
  let total_files := Z.of_nat (length image_files) in
  num_to_pick ← (x ← Float.int_mul total_files ratio; Float.to_int x);
  let image_files := shuffle image_files in
  let selected_files := prefix_slice image_files num_to_pick in
  Ok (foldl (pick_file images_folder labels_folder)
        {| output_images := output_images0; output_labels := output_labels0;
           copied_count := 0 |}
        selected_files).

(** An image whose label file exists. *)
Definition has_label (labels_folder : gmap string Content) (file : string) : bool :=
  bool_decide (is_Some (labels_folder !! label_of file)).

(** What a call that selected the files [selected_files] leaves and
    returns: the count of the selected files that have a label; each of
    them in [images] with its label in [labels]; every other file of the
    two output folders as it was. *)
Definition picked (images_folder labels_folder output_images0 output_labels0
    : gmap string Content) (selected_files : list string) (st : pick_state) : Prop :=
  copied_count st
  = Z.of_nat (length (filter (λ f, has_label labels_folder f = true) selected_files))
  ∧ (∀ file, file ∈ selected_files → has_label labels_folder file = true →
       output_images st !! file = images_folder !! file
       ∧ output_labels st !! label_of file = labels_folder !! label_of file)
  ∧ (∀ name, ¬ (name ∈ selected_files ∧ has_label labels_folder name = true) →
       output_images st !! name = output_images0 !! name)
  ∧ (∀ name,
       (∀ file, file ∈ selected_files → has_label labels_folder file = true →
          label_of file ≠ name) →
       output_labels st !! name = output_labels0 !! name).

(** Four images, three of them with a label. *)
Definition pick_images : gmap string Content :=
  {[ "a.jpg" := [1%N]; "b.jpg" := [2%N]; "c.jpg" := [3%N]; "d.JPG" := [4%N] ]}.
Definition pick_labels : gmap string Content :=
  {[ "a.txt" := [10%N]; "b.txt" := [20%N]; "d.txt" := [40%N] ]}.

(** ** [cutframe_from_vid_folder.py]: frames in folders of 500 *)

(** State of the extraction: the three variables that outlive a video
    and the [cv2.imwrite] calls made so far, oldest first. *)
Record batch_state := {
  total_frames_saved : Z;
  folder_count : Z;
  current_output_folder : string;
  batch_imwrites : list (string * Frame)
}.

Definition batch_folder (output_folder : string) (folder_count' : Z) : string :=
  Py.path_join output_folder ("batch_" +:+ Py.str_int folder_count').

(** Lines 33-47 for one decoded frame of index [current_frame]. *)
Definition save_frame (output_folder video_name : string) (n : Z)
    (current_frame : Z) (frame : Frame) (st : batch_state) : result batch_state :=
  if n =? 0 then Raise ZeroDivisionError
  else if current_frame mod n =? 0 then
    let st :=
      if 500 <=? total_frames_saved st then
        {| total_frames_saved := 0;
           folder_count := folder_count st + 1;
           current_output_folder := batch_folder output_folder (folder_count st + 1);
           batch_imwrites := batch_imwrites st |}
      else st in
    let frame_filename :=
      video_name +:+ "_frame_" +:+ Py.str_int current_frame +:+ ".jpg" in
    let frame_path := Py.path_join (current_output_folder st) frame_filename in
    Ok {| total_frames_saved := total_frames_saved st + 1;
          folder_count := folder_count st;
          current_output_folder := current_output_folder st;
          batch_imwrites := batch_imwrites st ++ [(frame_path, frame)] |}
  else Ok st.

(** The loop [while cap.isOpened(): ...] over the frames still to be
    decoded. *)
Fixpoint batch_loop (output_folder video_name : string) (n : Z)
    (remaining : list Frame) (current_frame : Z) (st : batch_state) : result batch_state :=
  match remaining with
  | [] => Ok st
  | frame :: rest =>
      st' ← save_frame output_folder video_name n current_frame frame st;
      batch_loop output_folder video_name n rest (current_frame + 1) st'
  end.

(** Lines 15-50 for one entry of the input folder. *)
Definition batch_video (output_folder : string) (n : Z) (st : batch_state)
    (entry : string * VideoCapture) : result batch_state :=
  let '(filename, cap) := entry in
  if Py.endswith_any filename [".avi"; ".mp4"] then
    let video_name := (Py.splitext filename).1 in
    if isOpened cap then batch_loop output_folder video_name n (stream cap) 0 st
    else Ok st
  else Ok st.

Fixpoint batch_videos (output_folder : string) (n : Z) (st : batch_state)
    (input_folder : list (string * VideoCapture)) : result batch_state :=
  match input_folder with
  | [] => Ok st
  | entry :: rest =>
      st' ← batch_video output_folder n st entry;
      batch_videos output_folder n st' rest
  end.

(** [extract_frames(input_folder, output_folder, n)] of
    [cutframe_from_vid_folder.py]: the [imwrite] calls, in order. *)
Definition extract_frames_in_batches (input_folder : list (string * VideoCapture))
    (output_folder : string) (n : Z) : result (list (string * Frame)) :=
  st ← batch_videos output_folder n
         {| total_frames_saved := 0; folder_count := 1;
            current_output_folder := batch_folder output_folder 1;
            batch_imwrites := [] |}
         input_folder;
  Ok (batch_imwrites st).

(** The frames of a video that are saved at interval [n], each with its
    index. *)
Definition selected_frames (n : Z) (cap : VideoCapture) : list (Z * Frame) :=
  filter (λ p, p.1 mod n = 0) (zip (seqZ 0 (Z.of_nat (length (decoded cap)))) (decoded cap)).

(** The frames saved from a whole folder, each with the base name of its
    video and its index. *)
Definition selected_of_folder (n : Z) (input_folder : list (string * VideoCapture))
  : list (string * Z * Frame) :=
  filter (λ e, Py.endswith_any e.1 [".avi"; ".mp4"] = true) input_folder ≫= λ e,
    (λ p, ((Py.splitext e.1).1, p.1, p.2)) <$> selected_frames n e.2.

(** Where the saved frames go: the [j]-th frame saved by a run (counted
    from 0) goes to the folder [batch_<j // 500 + 1>], under the name
    [<video>_frame_<index>.jpg]. *)
Fixpoint placed (output_folder : string) (j : Z) (sel : list (string * Z * Frame))
  : list (string * Frame) :=
  match sel with
  | [] => []
  | (video_name, index, frame) :: rest =>
      (Py.path_join (batch_folder output_folder (j / 500 + 1))
         (video_name +:+ "_frame_" +:+ Py.str_int index +:+ ".jpg"), frame)
      :: placed output_folder (j + 1) rest
  end.

(** The frames of index [c], [c + 1], ... that are saved at interval [n],
    with the base name of their video. *)
Definition selected_from (n : Z) (video_name : string) (c : Z) (frames' : list Frame)
  : list (string * Z * Frame) :=
  (λ p, (video_name, p.1, p.2))
    <$> filter (λ p, p.1 mod n = 0) (zip (seqZ c (Z.of_nat (length frames'))) frames').

(** What the three variables are after [S] frames have been saved. *)
Definition batch_inv (output_folder : string) (S : Z) (st : batch_state) : Prop :=
  folder_count st = (if S =? 0 then 1 else (S - 1) / 500 + 1)
  ∧ total_frames_saved st = S - 500 * (folder_count st - 1)
  ∧ current_output_folder st = batch_folder output_folder (folder_count st).

(** A video of 1201 empty frames. *)
Definition long_video : VideoCapture := blank_video 1201.
(** * Properties *)

(** ** Sanity checks of the Python helpers *)

Example splitext_video : Py.splitext "clip.01.MP4" = ("clip.01", ".MP4").
Proof. reflexivity. Qed.
Example splitext_hidden : Py.splitext ".jpg" = (".jpg", "").
Proof. reflexivity. Qed.
Example format_05d_small : Py.format_05d 42 = "00042".
Proof. reflexivity. Qed.
Example format_05d_large : Py.format_05d 123456 = "123456".
Proof. reflexivity. Qed.

Example float_of_ratio_7_10 :
  Float.of_ratio 7 10 = S754_finite false 6305039478318694 (-53).
Proof. vm_compute. reflexivity. Qed.
Example float_10_times_0_7 :
  (x ← Float.int_mul 10 (Float.of_ratio 7 10); Float.to_int x) = Ok 7.
Proof. vm_compute. reflexivity. Qed.
Example float_100_times_0_29 :
  (x ← Float.int_mul 100 (Float.of_ratio 29 100); Float.to_int x) = Ok 28.
Proof. vm_compute. reflexivity. Qed.
Example float_ceil_1001_over_500 :
  (x ← Float.int_true_div 1001 500; Float.ceil x) = Ok 3.
Proof. vm_compute. reflexivity. Qed.

(** ** Facts about strings and decimal rendering *)

Section strings.
Implicit Types (s t u : string) (c : ascii).

Lemma str_app_nil_l s : "" +:+ s = s.
Proof. reflexivity. Qed.

Lemma str_app_cons c s t : String c s +:+ t = String c (s +:+ t).
Proof. reflexivity. Qed.

Lemma str_app_assoc s t u : (s +:+ t) +:+ u = s +:+ (t +:+ u).
Proof.
  induction s as [|c s IH]; [done|].
  rewrite !str_app_cons. by rewrite IH.
Qed.

Lemma str_length_app s t :
  String.length (s +:+ t) = (String.length s + String.length t)%nat.
Proof.
  induction s as [|c s IH]; [done|].
  rewrite str_app_cons. simpl. by rewrite IH.
Qed.

(** Right cancellation of concatenation. *)
Lemma str_app_inj_r s t u : s +:+ u = t +:+ u → s = t.
Proof.
  revert t. induction s as [|c s IH]; intros [|d t] H.
  - done.
  - apply (f_equal String.length) in H.
    rewrite str_app_cons, str_app_nil_l in H. simpl in H.
    rewrite str_length_app in H. lia.
  - apply (f_equal String.length) in H.
    rewrite str_app_cons, str_app_nil_l in H. simpl in H.
    rewrite str_length_app in H. lia.
  - rewrite !str_app_cons in H. injection H as -> H. f_equal. by apply IH.
Qed.

Lemma str_app_nil_r s : s +:+ "" = s.
Proof. induction s as [|c s IH]; [done|]. by rewrite str_app_cons, IH. Qed.


Lemma substring_all s : substring 0 (String.length s) s = s.
Proof. induction s as [|c s IH]; [done|]. simpl. by rewrite IH. Qed.

Lemma substring_app_drop s t :
  substring (String.length s) (String.length t) (s +:+ t) = t.
Proof. induction s as [|c s IH]; [apply substring_all|]. simpl. exact IH. Qed.

Lemma substring_split s : ∀ n : nat,
  (n ≤ String.length s)%nat →
  s = substring 0 n s +:+ substring n (String.length s - n) s.
Proof.
  induction s as [|c s IH]; intros [|n] Hn; simpl in *; try lia.
  - done.
  - rewrite str_app_nil_l. by rewrite substring_all.
  - rewrite str_app_cons. f_equal. apply IH. lia.
Qed.

(** [s.endswith(suffix)] holds exactly for the strings [stem + suffix]. *)
Lemma endswith_iff s suffix :
  Py.endswith s suffix = true ↔ ∃ stem, s = stem +:+ suffix.
Proof.
  unfold Py.endswith. rewrite andb_true_iff, Nat.leb_le, String.eqb_eq. split.
  - intros [Hlen Hsub].
    exists (substring 0 (String.length s - String.length suffix) s).
    pose proof (substring_split s (String.length s - String.length suffix)
                  ltac:(lia)) as Hsplit.
    replace (String.length s - (String.length s - String.length suffix))%nat
      with (String.length suffix) in Hsplit by lia.
    by rewrite Hsub in Hsplit.
  - intros [stem ->]. rewrite str_length_app. split; [lia|].
    replace (String.length stem + String.length suffix - String.length suffix)%nat
      with (String.length stem) by lia.
    apply substring_app_drop.
Qed.

Lemma zeros_length n : String.length (Py.zeros n) = n.
Proof. induction n as [|n IH]; [done|]. simpl. by rewrite IH. Qed.

Lemma pretty_N_go_length_le (m : nat) : ∀ (x : N) s,
  (x < 10 ^ N.of_nat m)%N →
  (String.length (pretty_N_go x s) ≤ String.length s + m)%nat.
Proof.
  induction m as [|m IH]; intros x s Hx.
  - assert (x = 0%N) as -> by (simpl in Hx; lia).
    rewrite pretty_N_go_0. lia.
  - destruct (decide (x = 0%N)) as [->|Hx0].
    { rewrite pretty_N_go_0. lia. }
    rewrite pretty_N_go_step by lia.
    etrans; [apply IH|simpl; lia].
    apply N.Div0.div_lt_upper_bound.
    rewrite Nat2N.inj_succ, N.pow_succ_r' in Hx. lia.
Qed.

Lemma pretty_Z_length_le (m : nat) (k : Z) :
  0 ≤ k < 10 ^ Z.of_nat m → (1 ≤ m)%nat →
  (String.length (pretty k) ≤ m)%nat.
Proof.
  intros [Hk0 Hk] Hm. destruct k as [|p|p]; [simpl; lia| |lia].
  change (pretty (Z.pos p)) with (pretty_N_go (N.pos p) "").
  etrans; [apply (pretty_N_go_length_le m)|simpl; lia].
  apply N2Z.inj_lt. rewrite N2Z.inj_pow, nat_N_Z. simpl. lia.
Qed.






End strings.

(** ** Rounding to binary64: what [binary_round_aux] computes *)

Section rounding.

Lemma fexp_spec e : fexp Float.prec Float.emax e = Z.max (e - 53) (-1074).
Proof. reflexivity. Qed.

Lemma digits2_pos_log2 p : Z.pos (digits2_pos p) = Z.log2 (Z.pos p) + 1.
Proof.
  induction p as [p IH|p IH|]; simpl digits2_pos; [| |done].
  - rewrite Pos2Z.inj_succ, IH. change (Z.pos p~1) with (2 * Z.pos p + 1).
    rewrite (Z.log2_succ_double (Z.pos p)) by lia. done.
  - rewrite Pos2Z.inj_succ, IH. change (Z.pos p~0) with (2 * Z.pos p).
    rewrite (Z.log2_double (Z.pos p)) by lia. done.
Qed.

Lemma Zdigits2_log2 m : 0 < m → Zdigits2 m = Z.log2 m + 1.
Proof. destruct m as [|p|p]; [lia| |lia]. intros _. apply digits2_pos_log2. Qed.

Lemma Zdigits2_bounds m : 0 < m → 2 ^ (Zdigits2 m - 1) ≤ m < 2 ^ Zdigits2 m.
Proof.
  intros Hm. rewrite Zdigits2_log2 by done.
  replace (Z.log2 m + 1 - 1) with (Z.log2 m) by lia.
  replace (Z.log2 m + 1) with (Z.succ (Z.log2 m)) by lia.
  by apply Z.log2_spec.
Qed.

Lemma Zdigits2_nonneg m : 0 ≤ m → 0 ≤ Zdigits2 m.
Proof. destruct m; simpl; lia. Qed.

Lemma Zdigits2_mono a b : 0 ≤ a ≤ b → Zdigits2 a ≤ Zdigits2 b.
Proof.
  intros [Ha Hab]. destruct (decide (a = 0)) as [->|Hne].
  - by apply Zdigits2_nonneg.
  - rewrite !Zdigits2_log2 by lia. pose proof (Z.log2_le_mono a b Hab). lia.
Qed.

(** A record [mrs] stands for the fraction [N / D] when its mantissa and
    round bit are the integer part of [2N / D] and its sticky bit tells
    whether anything is left. *)
Definition stands_for (N D : Z) (mrs : shr_record) : Prop :=
  0 < D ∧ 0 ≤ N
  ∧ 2 * N / D = 2 * shr_m mrs + Z.b2z (shr_r mrs)
  ∧ shr_s mrs = negb (2 * N mod D =? 0).

Lemma stands_for_mantissa N D mrs :
  stands_for N D mrs → shr_m mrs = N / D ∧ 0 ≤ shr_m mrs.
Proof.
  intros (HD & HN & Hq & _).
  assert (2 * N / D / 2 = N / D) as H2.
  { rewrite Z.div_div by lia. rewrite (Z.mul_comm D 2).
    rewrite Z.div_mul_cancel_l by lia. done. }
  assert (shr_m mrs = N / D) as ->.
  { rewrite <- H2, Hq. apply (Z.div_unique _ 2 _ (Z.b2z (shr_r mrs))); [|lia].
    destruct (shr_r mrs); simpl; lia. }
  split; [done|]. apply Z.div_pos; lia.
Qed.

Lemma shr_1_fields mrs :
  0 ≤ shr_m mrs →
  shr_m mrs = 2 * shr_m (shr_1 mrs) + Z.b2z (shr_r (shr_1 mrs))
  ∧ shr_s (shr_1 mrs) = shr_r mrs || shr_s mrs.
Proof.
  destruct mrs as [m r s]. simpl. intros Hm.
  destruct m as [|[p|p|]|p]; simpl; try lia; split; done.
Qed.

Lemma shr_1_stands_for N D mrs :
  stands_for N D mrs → stands_for N (2 * D) (shr_1 mrs).
Proof.
  intros Hrep. pose proof (stands_for_mantissa _ _ _ Hrep) as [Hm Hm0].
  destruct Hrep as (HD & HN & Hq & Hs).
  destruct (shr_1_fields mrs Hm0) as [Hm2 Hs2].
  split; [lia|]. split; [done|].
  split.
  - rewrite Z.div_mul_cancel_l by lia. lia.
  - rewrite Hs2, Hs. rewrite Z.mul_mod_distr_l by lia.
    pose proof (Z.div_mod (2 * N) D ltac:(lia)) as E2.
    pose proof (Z.div_mod N D ltac:(lia)) as E1.
    pose proof (Z.mod_pos_bound (2 * N) D HD) as B2.
    pose proof (Z.mod_pos_bound N D HD) as B1.
    rewrite Hq in E2. rewrite <- Hm in E1.
    assert (2 * (N `mod` D) = D * Z.b2z (shr_r mrs) + (2 * N) `mod` D) as E by lia.
    destruct (shr_r mrs); simpl in *.
    + destruct (Z.eqb_spec (2 * (N `mod` D)) 0); [lia|done].
    + destruct (Z.eqb_spec ((2 * N) `mod` D) 0), (Z.eqb_spec (2 * (N `mod` D)) 0);
        simpl; try done; lia.
Qed.

Lemma iter_shr_1_stands_for (n : positive) : ∀ N D mrs,
  stands_for N D mrs → stands_for N (2 ^ Z.pos n * D) (SpecFloat.iter_pos shr_1 n mrs).
Proof.
  induction n as [n IH|n IH|]; intros N D mrs Hrep; simpl SpecFloat.iter_pos.
  - apply shr_1_stands_for, IH, IH in Hrep.
    replace (2 ^ Z.pos n~1 * D) with (2 ^ Z.pos n * (2 ^ Z.pos n * (2 * D))); [done|].
    change (Z.pos n~1) with (2 * Z.pos n + 1).
    rewrite Z.pow_add_r, Z.pow_mul_r by lia.
    replace (2 ^ 2) with 4 by done. rewrite Z.pow_1_r.
    replace (4 ^ Z.pos n) with (2 ^ Z.pos n * 2 ^ Z.pos n); [lia|].
    rewrite <- Z.pow_mul_l. done.
  - apply IH, IH in Hrep.
    replace (2 ^ Z.pos n~0 * D) with (2 ^ Z.pos n * (2 ^ Z.pos n * D)); [done|].
    change (Z.pos n~0) with (2 * Z.pos n).
    rewrite Z.pow_mul_r by lia. replace (2 ^ 2) with 4 by done.
    replace (4 ^ Z.pos n) with (2 ^ Z.pos n * 2 ^ Z.pos n); [lia|].
    rewrite <- Z.pow_mul_l. done.
  - apply shr_1_stands_for in Hrep. by rewrite Z.pow_1_r.
Qed.

(** [shr] by [n] divides by [2 ^ max n 0] and moves the exponent. *)
Lemma shr_stands_for N D mrs e n :
  stands_for N D mrs →
  stands_for N (2 ^ Z.max n 0 * D) (shr mrs e n).1
  ∧ (shr mrs e n).2 = e + Z.max n 0.
Proof.
  intros Hrep. destruct n as [|n|n]; simpl.
  - rewrite Z.max_id, Z.pow_0_r, Z.mul_1_l. split; [done|lia].
  - rewrite Z.max_l by lia. split; [|done]. by apply iter_shr_1_stands_for.
  - rewrite Z.max_r by lia. rewrite Z.pow_0_r, Z.mul_1_l. split; [done|lia].
Qed.

(** Rounding the record to nearest, ties to even, gives the integer part
    or the next integer, and the integer part itself when nothing is
    left. *)
Lemma round_nearest_even_stands_for N D mrs :
  stands_for N D mrs →
  let m1 := round_nearest_even (shr_m mrs) (loc_of_shr_record mrs) in
  N / D ≤ m1 ≤ N / D + 1 ∧ (N mod D = 0 → m1 = N / D).
Proof.
  intros Hrep. pose proof (stands_for_mantissa _ _ _ Hrep) as [Hm Hm0].
  destruct Hrep as (HD & HN & Hq & Hs). simpl. rewrite <- Hm.
  split.
  - destruct mrs as [m [] []]; simpl; try destruct (Z.even m); lia.
  - intros Hexact.
    assert ((2 * N) mod D = 0) as H2.
    { rewrite <- Z.mul_mod_idemp_r by lia. rewrite Hexact, Z.mul_0_r.
      by apply Z.mod_0_l; lia. }
    assert (2 * N / D = 2 * (N / D)) as H3.
    { pose proof (Z.div_mod (2 * N) D ltac:(lia)).
      pose proof (Z.div_mod N D ltac:(lia)).
      assert (D * (2 * N / D) = D * (2 * (N / D))) by lia.
      by apply (Z.mul_reg_l _ _ D); [lia|]. }
    rewrite H2 in Hs. rewrite H3, <- Hm in Hq.
    destruct mrs as [m r s]; simpl in *. subst s.
    destruct r; simpl in *; [lia|done].
Qed.

Lemma Zdigits2_pow2 d : 0 ≤ d → Zdigits2 (2 ^ d) = d + 1.
Proof.
  intros Hd. rewrite Zdigits2_log2 by (apply Z.pow_pos_nonneg; lia).
  by rewrite Z.log2_pow2.
Qed.

Lemma Zdigits2_le_pow2 m d : 0 ≤ m ≤ 2 ^ d → 0 ≤ d → Zdigits2 m ≤ d + 1.
Proof.
  intros Hm Hd. rewrite <- (Zdigits2_pow2 d) by done. by apply Zdigits2_mono.
Qed.

Lemma Zdigits2_lt_pow2 m d : 0 ≤ m < 2 ^ d → 0 ≤ d → Zdigits2 m ≤ d.
Proof.
  intros [Hm0 Hm] Hd. destruct (decide (m = 0)) as [->|Hne]; [done|].
  rewrite Zdigits2_log2 by lia.
  assert (Z.log2 m < d); [|lia]. apply Z.log2_lt_pow2; lia.
Qed.

Lemma Zdigits2_shift m n :
  0 ≤ m → 0 ≤ n → Zdigits2 (m / 2 ^ n) ≤ Z.max 0 (Zdigits2 m - n).
Proof.
  intros Hm Hn. destruct (decide (m / 2 ^ n = 0)) as [->|Hq]; [simpl; lia|].
  assert (0 < m / 2 ^ n) as Hpos.
  { pose proof (Z.div_pos m (2 ^ n) Hm ltac:(apply Z.pow_pos_nonneg; lia)). lia. }
  assert (0 < m) as Hm'.
  { destruct (decide (m = 0)) as [->|]; [|lia]. by rewrite Z.div_0_l in Hq by lia. }
  assert (n ≤ Z.log2 m) as Hlog.
  { apply Z.log2_le_pow2; [done|].
    destruct (Z_lt_le_dec m (2 ^ n)) as [Hlt|]; [|done].
    rewrite Z.div_small in Hq by lia. done. }
  rewrite (Zdigits2_log2 (m / 2 ^ n)), (Zdigits2_log2 m) by done.
  rewrite <- Z.shiftr_div_pow2 by done. rewrite Z.log2_shiftr by done. lia.
Qed.

(** Once a mantissa fits its exponent, the second shift of
    [binary_round_aux] (after rounding may have carried into the next
    power of two) keeps the value. *)
Lemma shr_fexp_after_rounding q g m1 :
  0 ≤ q → fexp Float.prec Float.emax (Zdigits2 q + g) ≤ g → q ≤ m1 ≤ q + 1 →
  let r := shr_fexp Float.prec Float.emax m1 g loc_Exact in
  g ≤ r.2 ∧ shr_m r.1 * 2 ^ (r.2 - g) = m1.
Proof.
  intros Hq Hcanon Hm1. unfold shr_fexp. simpl shr_record_of_loc.
  pose proof (Zdigits2_bounds q) as Hqb.
  pose proof (Zdigits2_nonneg q Hq) as Hdq.
  assert (m1 ≤ 2 ^ Zdigits2 q) as Hle.
  { destruct (decide (q = 0)) as [->|]; [simpl; lia|lia]. }
  pose proof (Zdigits2_le_pow2 m1 (Zdigits2 q) ltac:(lia) Hdq) as Hd1.
  rewrite !fexp_spec in *.
  destruct (Z_le_gt_dec (Z.max (Zdigits2 m1 + g - 53) (-1074) - g) 0) as [Hn|Hn].
  - destruct (Z.max (Zdigits2 m1 + g - 53) (-1074) - g) as [|n|n] eqn:En;
      simpl; try lia; rewrite Z.sub_diag; lia.
  - assert (Zdigits2 m1 = Zdigits2 q + 1) as Hd by lia.
    assert (Z.max (Zdigits2 m1 + g - 53) (-1074) - g = 1) as -> by lia.
    assert (1 ≤ Zdigits2 q) as Hdq1 by lia.
    assert (2 ^ Zdigits2 q ≤ m1) as Hge.
    { assert (0 < m1) as Hm1pos.
      { destruct (decide (m1 = 0)) as [->|]; [simpl in Hd; lia|lia]. }
      pose proof (Zdigits2_bounds m1 Hm1pos) as Hb. rewrite Hd in Hb.
      replace (Zdigits2 q + 1 - 1) with (Zdigits2 q) in Hb by lia. lia. }
    assert (m1 = 2 * 2 ^ (Zdigits2 q - 1)) as Hm1eq.
    { rewrite <- Z.pow_succ_r by lia. replace (Z.succ (Zdigits2 q - 1)) with (Zdigits2 q) by lia.
      lia. }
    set (mrs := {| shr_m := m1; shr_r := false; shr_s := false |}).
    change (shr mrs g 1) with (shr_1 mrs, g + 1). cbn [fst snd].
    split; [lia|].
    replace (g + 1 - g) with 1 by lia. rewrite Z.pow_1_r.
    destruct (shr_1_fields mrs) as [Hf _]; [simpl; lia|].
    change (shr_m mrs) with m1 in Hf.
    destruct (shr_r (shr_1 mrs)); simpl Z.b2z in Hf; lia.
Qed.

Lemma shr_record_of_loc_exact m : 0 ≤ m → stands_for m 1 (shr_record_of_loc m loc_Exact).
Proof.
  intros Hm. unfold stands_for. simpl.
  rewrite Z.div_1_r, Z.mod_1_r. repeat split; try lia; done.
Qed.

(** What [binary_round_aux] returns for a mantissa and location that
    stand for the fraction [N / D] at exponent [ex]: with [g] the exponent
    the value is rounded at, a mantissa [m1] that is the integer part of
    [N / D] at that exponent, or the next integer. *)
Lemma binary_round_aux_spec N D sx mx ex lx :
  stands_for N D (shr_record_of_loc mx lx) →
  let n := Z.max (fexp Float.prec Float.emax (Zdigits2 mx + ex) - ex) 0 in
  let g := ex + n in
  ∃ m1, N / (2 ^ n * D) ≤ m1 ≤ N / (2 ^ n * D) + 1
    ∧ (N mod (2 ^ n * D) = 0 → m1 = N / (2 ^ n * D))
    ∧ match binary_round_aux Float.prec Float.emax sx mx ex lx with
      | S754_zero s => s = sx ∧ m1 = 0
      | S754_finite s m e => s = sx ∧ g ≤ e ≤ 971 ∧ Z.pos m * 2 ^ (e - g) = m1
      | S754_infinity s => s = sx ∧ ∃ m e, 971 < e ∧ g ≤ e ∧ Z.pos m * 2 ^ (e - g) = m1
      | S754_nan => False
      end.
Proof.
  intros Hrep n g.
  pose proof (stands_for_mantissa _ _ _ Hrep) as [Hmx Hmx0].
  assert (shr_m (shr_record_of_loc mx lx) = mx) as Hmxeq by (by destruct lx as [|[]]).
  rewrite Hmxeq in Hmx, Hmx0.
  unfold binary_round_aux, shr_fexp.
  destruct (shr_stands_for N D (shr_record_of_loc mx lx) ex
              (fexp Float.prec Float.emax (Zdigits2 mx + ex) - ex) Hrep) as [Hrep1 He1].
  fold n in Hrep1, He1. fold g in He1.
  destruct (shr (shr_record_of_loc mx lx) ex
              (fexp Float.prec Float.emax (Zdigits2 mx + ex) - ex)) as [mrs1 e1].
  simpl in Hrep1, He1. subst e1.
  pose proof (stands_for_mantissa _ _ _ Hrep1) as [Hq Hq0].
  pose proof (round_nearest_even_stands_for _ _ _ Hrep1) as [Hm1 Hexact]. simpl in Hm1, Hexact.
  set (m1 := round_nearest_even (shr_m mrs1) (loc_of_shr_record mrs1)) in *.
  exists m1. split; [done|]. split; [done|].
  assert (Hcanon : fexp Float.prec Float.emax (Zdigits2 (shr_m mrs1) + g) ≤ g).
  { rewrite Hq. destruct Hrep as (HD & HN & _).
    assert (N / (2 ^ n * D) = mx / 2 ^ n) as ->.
    { rewrite Hmx, Z.mul_comm, Z.div_div; [done|lia|]. apply Z.pow_pos_nonneg; lia. }
    pose proof (Zdigits2_shift mx n Hmx0 ltac:(lia)) as Hsh.
    unfold g, n in *. rewrite !fexp_spec in *. lia. }
  destruct (shr_fexp_after_rounding (shr_m mrs1) g m1 Hq0 Hcanon ltac:(lia)) as [He2 Hval].
  unfold shr_fexp in He2, Hval.
  destruct (shr (shr_record_of_loc m1 loc_Exact) g
              (fexp Float.prec Float.emax (Zdigits2 m1 + g) - g)) as [mrs2 e2].
  simpl in He2, Hval.
  assert (0 < 2 ^ (e2 - g)) as Hpow by (apply Z.pow_pos_nonneg; lia).
  destruct (shr_m mrs2) as [|m|m] eqn:Em.
  - split; [done|lia].
  - destruct (Z.leb_spec e2 (Float.emax - Float.prec)) as [Hle|Hgt].
    + unfold Float.emax, Float.prec in Hle. repeat split; try done; lia.
    + unfold Float.emax, Float.prec in Hgt. split; [done|]. exists m, e2.
      repeat split; try done; lia.
  - lia.
Qed.

(** A mantissa that already fits its exponent is returned as it is. *)
Lemma binary_round_aux_canonical sx (mz : positive) ez :
  fexp Float.prec Float.emax (Zdigits2 (Z.pos mz) + ez) = ez → ez ≤ 971 →
  binary_round_aux Float.prec Float.emax sx (Z.pos mz) ez loc_Exact = S754_finite sx mz ez.
Proof.
  intros Hcanon He. unfold binary_round_aux, shr_fexp.
  rewrite Hcanon, Z.sub_diag. simpl shr. cbn [shr_m loc_of_shr_record round_nearest_even].
  rewrite Hcanon, Z.sub_diag. simpl.
  destruct (Z.leb_spec ez (Float.emax - Float.prec)) as [|Hgt]; [done|].
  unfold Float.emax, Float.prec in Hgt. lia.
Qed.

Lemma pos_iter_xO (mx d : positive) : Z.pos (Pos.iter xO mx d) = Z.pos mx * 2 ^ Z.pos d.
Proof.
  induction d as [|d IH] using Pos.peano_ind.
  - simpl. lia.
  - rewrite Pos.iter_succ, Pos2Z.inj_xO, IH, Pos2Z.inj_succ, Z.pow_succ_r by lia. lia.
Qed.

(** [float(F)] is exact for a positive integer below [2^53]: its mantissa
    has 53 bits and its exponent is not positive. *)
Lemma of_int_exact (F : Z) :
  1 ≤ F < 2 ^ 53 →
  ∃ mz ez, Float.of_int F = Ok (S754_finite false mz ez)
           ∧ ez = Zdigits2 F - 53 ∧ ez ≤ 0
           ∧ Z.pos mz = F * 2 ^ (- ez)
           ∧ Zdigits2 (Z.pos mz) = 53.
Proof.
  intros [HF1 HF2]. destruct F as [|p|p]; [lia| |lia].
  pose proof (Zdigits2_bounds (Z.pos p) ltac:(lia)) as Hb.
  pose proof (Zdigits2_lt_pow2 (Z.pos p) 53 ltac:(lia) ltac:(lia)) as Hd.
  assert (1 ≤ Zdigits2 (Z.pos p)) as Hd1 by (simpl; lia).
  unfold Float.of_int, binary_normalize, binary_round.
  change (Z.pos (digits2_pos p)) with (Zdigits2 (Z.pos p)).
  rewrite Z.add_0_r, fexp_spec.
  assert (Z.max (Zdigits2 (Z.pos p) - 53) (-1074) = Zdigits2 (Z.pos p) - 53) as -> by lia.
  remember (Zdigits2 (Z.pos p) - 53) as ez eqn:Hez.
  assert (∃ mz, shl_align p 0 ez = (mz, ez) ∧ Z.pos mz = Z.pos p * 2 ^ (- ez))
    as (mz & -> & Hmz).
  { unfold shl_align. rewrite Z.sub_0_r. destruct ez as [|d|d].
    - exists p. split; [done|]. simpl. lia.
    - lia.
    - exists (Pos.iter xO p d). split; [done|]. apply pos_iter_xO. }
  assert (Zdigits2 (Z.pos mz) = 53) as Hdz.
  { rewrite Hmz. rewrite Zdigits2_log2 by (apply Z.mul_pos_pos; [lia|apply Z.pow_pos_nonneg; lia]).
    rewrite Z.log2_mul_pow2 by lia. rewrite Zdigits2_log2 in * by lia. lia. }
  rewrite binary_round_aux_canonical.
  - exists mz, ez. repeat split; try done. lia.
  - rewrite Hdz, fexp_spec. lia.
  - lia.
Qed.

(** Rounding never crosses a point of the grid it rounds to. *)
Lemma rounded_ge_grid N D' m1 J :
  0 < D' → N / D' ≤ m1 → J * D' ≤ N → J ≤ m1.
Proof.
  intros HD Hm1 HJ. etrans; [|exact Hm1].
  apply Z.div_le_lower_bound; lia.
Qed.

Lemma rounded_le_grid N D' m1 J :
  0 < D' → m1 ≤ N / D' + 1 → (N mod D' = 0 → m1 = N / D') → N ≤ J * D' → m1 ≤ J.
Proof.
  intros HD Hm1 Hexact HJ.
  destruct (decide (N mod D' = 0)) as [Hmod|Hmod].
  - rewrite (Hexact Hmod). apply Z.div_le_upper_bound; lia.
  - assert (N ≠ J * D') as Hne.
    { intros ->. by rewrite Z.mod_mul in Hmod by lia. }
    assert (N / D' < J); [|lia].
    apply Z.div_lt_upper_bound; lia.
Qed.

(** [int(x)] of a finite positive float whose mantissa is [m1] at the
    exponent [g <= 0]. *)
Lemma to_int_scaled (m : positive) e g m1 :
  g ≤ e → g ≤ 0 → Z.pos m * 2 ^ (e - g) = m1 →
  (if 0 <=? e then Z.pos m * 2 ^ e else Z.pos m / 2 ^ (- e)) = m1 / 2 ^ (- g).
Proof.
  intros Hge Hg <-. destruct (Z.leb_spec 0 e) as [He|He].
  - replace (e - g) with (e + - g) by lia. rewrite Z.pow_add_r by lia.
    rewrite Z.mul_assoc, Z.div_mul; [done|]. apply Z.pow_nonzero; lia.
  - replace (- g) with (- e + (e - g)) by lia. rewrite Z.pow_add_r by lia.
    rewrite Z.div_mul_cancel_r; [done| |]; apply Z.pow_nonzero; lia.
Qed.

(** [int(F * k)] for a keep-fraction [k] between 0 and 1: the product is
    rounded to binary64 and truncated; the result is the floor of the
    exact product or one more, and never exceeds [F]. *)
Lemma int_mul_unit_interval (F : Z) (k : spec_float) :
  1 ≤ F < 2 ^ 53 → Float.in_unit_interval k = true →
  ∃ m, (x ← Float.int_mul F k; Float.to_int x) = Ok m
       ∧ Float.exact_floor_mul F k ≤ m ≤ Float.exact_floor_mul F k + 1
       ∧ 0 ≤ m ≤ F.
Proof.
  intros HF Hk.
  destruct (of_int_exact F HF) as (mz & ez & Hof & Hez & Hez0 & Hmz & Hdz).
  unfold Float.int_mul. rewrite Hof. cbn [mbind result_bind].
  destruct k as [s| | |[] mk ek]; try done.
  { exists 0. simpl. split; [done|]. lia. }
  simpl in Hk. apply andb_true_iff in Hk as [Hek Hmk]. apply Z.leb_le in Hek, Hmk.
  unfold Float.mul, SFmul. cbn [xorb].
  set (M := Z.pos (mz * mk)). set (E := ez + ek).
  destruct (binary_round_aux_spec M 1 false M E loc_Exact) as (m1 & Hm1 & Hexact & Hres).
  { apply shr_record_of_loc_exact. lia. }
  rewrite !Z.mul_1_r in *.
  remember (Z.max (fexp Float.prec Float.emax (Zdigits2 M + E) - E) 0) as n eqn:Hn.
  remember (E + n) as g eqn:Hg.
  set (A := 2 ^ (- ez)) in *. set (B := 2 ^ (- ek)) in *.
  assert (0 < A) as HA by (apply Z.pow_pos_nonneg; lia).
  assert (0 < B) as HB by (apply Z.pow_pos_nonneg; lia).
  assert (2 ^ (- E) = A * B) as HAB.
  { unfold A, B, E. rewrite <- Z.pow_add_r by lia. f_equal. lia. }
  assert (M = F * A * Z.pos mk) as HM.
  { unfold M. rewrite Pos2Z.inj_mul, Hmz. done. }
  assert (M < 2 ^ (53 - E)) as HMlt.
  { replace (53 - E) with (53 + - E) by (unfold E; lia).
    rewrite Z.pow_add_r by (unfold E; lia). rewrite HAB, HM.
    assert (F * A * Z.pos mk ≤ F * A * B) by (apply Z.mul_le_mono_nonneg_l; lia).
    assert (F * A * B < 2 ^ 53 * (A * B)); [|lia].
    rewrite <- Z.mul_assoc. apply Z.mul_lt_mono_pos_r; lia. }
  pose proof (Zdigits2_lt_pow2 M (53 - E) ltac:(unfold M in *; lia) ltac:(unfold E; lia)) as HdM.
  rewrite fexp_spec in Hn.
  assert (g ≤ 0 ∧ 0 ≤ n ∧ n - g = - E) as (Hg0 & Hn0 & Hng) by (unfold E in *; lia).
  set (G := 2 ^ (- g)).
  assert (0 < G) as HG by (apply Z.pow_pos_nonneg; lia).
  assert (0 < 2 ^ n) as H2n by (apply Z.pow_pos_nonneg; lia).
  assert (G * 2 ^ n = A * B) as HGn.
  { unfold G. rewrite <- Z.pow_add_r, <- HAB by lia. f_equal. lia. }
  set (fl := Float.exact_floor_mul F (S754_finite false mk ek)).
  assert (fl = F * Z.pos mk / B) as Hfl.
  { unfold fl, Float.exact_floor_mul. destruct (Z.leb_spec 0 ek); [|done].
    assert (ek = 0) as Hek0 by lia. unfold B. rewrite Hek0. simpl.
    rewrite Z.div_1_r. lia. }
  assert (0 ≤ fl) as Hfl0 by (rewrite Hfl; apply Z.div_pos; lia).
  pose proof (Z.mul_div_le (F * Z.pos mk) B HB) as Hfl1.
  pose proof (Z.mul_succ_div_gt (F * Z.pos mk) B HB) as Hfl2.
  rewrite <- Hfl in Hfl1, Hfl2.
  assert (fl * G ≤ m1) as Hlo.
  { apply (rounded_ge_grid M (2 ^ n)); [done|lia|].
    rewrite <- Z.mul_assoc, HGn, HM. nia. }
  assert (m1 ≤ (fl + 1) * G) as Hhi.
  { apply (rounded_le_grid M (2 ^ n)); [done|lia|done|].
    rewrite <- Z.mul_assoc, HGn, HM. nia. }
  assert (m1 ≤ F * G) as HhiF.
  { apply (rounded_le_grid M (2 ^ n)); [done|lia|done|].
    rewrite <- Z.mul_assoc, HGn, HM. nia. }
  destruct (binary_round_aux Float.prec Float.emax false M E loc_Exact)
    as [s| s| |s m e]; simpl.
  - destruct Hres as [_ Hz]. exists 0. split; [done|]. nia.
  - exfalso. destruct Hres as [_ (m & e & He & Hge & Hval)].
    assert (2 ^ 53 * G ≤ Z.pos m * 2 ^ (e - g)); [|nia].
    replace (e - g) with (e + - g) by lia. rewrite Z.pow_add_r by lia. fold G.
    assert (2 ^ 53 ≤ 2 ^ e) by (apply Z.pow_le_mono_r; lia).
    assert (2 ^ e ≤ Z.pos m * 2 ^ e) by nia. nia.
  - done.
  - destruct Hres as (-> & [Hge He] & Hval).
    rewrite (to_int_scaled m e g m1) by done. fold G. cbn [cond_Zopp].
    exists (m1 / G). split; [done|]. split; [split|split].
    + apply Z.div_le_lower_bound; lia.
    + apply Z.div_le_upper_bound; lia.
    + apply Z.div_pos; lia.
    + apply Z.div_le_upper_bound; lia.
Qed.

Lemma Zdigits2_ge_pow2 m t : 0 ≤ t → 2 ^ t ≤ m → t + 1 ≤ Zdigits2 m.
Proof.
  intros Ht Hm. rewrite <- (Zdigits2_pow2 t) by done.
  apply Zdigits2_mono. split; [|done]. apply Z.pow_nonneg. lia.
Qed.

(** [int(F * k)] for a keep-fraction [k] above 1: the conversion raises
    [OverflowError] when the product is infinite, and gives at least [F]
    otherwise. *)
Lemma int_mul_above_one (F : Z) (k : spec_float) :
  1 ≤ F < 2 ^ 53 → Float.above_one k = true →
  match x ← Float.int_mul F k; Float.to_int x with
  | Ok m => F ≤ m
  | Raise e => e = OverflowError
  end.
Proof.
  intros HF Hk.
  destruct (of_int_exact F HF) as (mz & ez & Hof & Hez & Hez0 & Hmz & Hdz).
  unfold Float.int_mul. rewrite Hof. cbn [mbind result_bind].
  destruct k as [s|[]| |[] mk ek]; try done.
  simpl in Hk. unfold Float.mul, SFmul. cbn [xorb].
  set (M := Z.pos (mz * mk)). set (E := ez + ek).
  destruct (binary_round_aux_spec M 1 false M E loc_Exact) as (m1 & Hm1 & Hexact & Hres).
  { apply shr_record_of_loc_exact. lia. }
  rewrite !Z.mul_1_r in *.
  remember (Z.max (fexp Float.prec Float.emax (Zdigits2 M + E) - E) 0) as n eqn:Hn.
  remember (E + n) as g eqn:Hg.
  set (A := 2 ^ (- ez)) in *.
  assert (0 < A) as HA by (apply Z.pow_pos_nonneg; lia).
  assert (M = F * A * Z.pos mk) as HM.
  { unfold M. rewrite Pos2Z.inj_mul, Hmz. done. }
  assert (1 ≤ M) as HM1 by (unfold M; lia).
  (* the product is at least [F]: [F * 2^-E <= M] when [E <= 0] *)
  assert (HxF : E ≤ 0 → F * 2 ^ (- E) ≤ M).
  { intros HE. rewrite HM, <- Z.mul_assoc. apply Z.mul_le_mono_nonneg_l; [lia|].
    destruct (Z.leb_spec 0 ek) as [Hek|Hek].
    - assert (2 ^ (- E) ≤ A) by (apply Z.pow_le_mono_r; unfold E; lia). nia.
    - apply Z.ltb_lt in Hk. unfold E. replace (- (ez + ek)) with (- ez + - ek) by lia.
      rewrite Z.pow_add_r by lia. fold A. nia. }
  pose proof (Zdigits2_bounds M ltac:(lia)) as HdMb.
  assert (1 ≤ Zdigits2 M) as HdM1 by (unfold M; simpl; lia).
  assert (HdME : - E + 1 ≤ Zdigits2 M).
  { destruct (Z_le_gt_dec E 0) as [HE|HE]; [|lia].
    apply Zdigits2_ge_pow2; [lia|]. specialize (HxF HE).
    assert (2 ^ (- E) ≤ F * 2 ^ (- E)); [|lia].
    assert (0 < 2 ^ (- E)) by (apply Z.pow_pos_nonneg; lia). nia. }
  rewrite fexp_spec in Hn.
  assert (0 ≤ n ≤ Zdigits2 M - 1) as Hn0 by lia.
  assert (0 < 2 ^ n) as H2n by (apply Z.pow_pos_nonneg; lia).
  assert (2 ^ n ≤ M) as H2nM.
  { etrans; [|apply HdMb]. apply Z.pow_le_mono_r; lia. }
  assert (1 ≤ m1) as Hm1pos.
  { assert (1 ≤ M / 2 ^ n); [|lia]. apply Z.div_le_lower_bound; lia. }
  destruct (binary_round_aux Float.prec Float.emax false M E loc_Exact)
    as [s| s| |s m e]; simpl.
  - destruct Hres as [_ Hz]. lia.
  - done.
  - done.
  - destruct Hres as (-> & [Hge He] & Hval). cbn [cond_Zopp].
    destruct (Z_le_gt_dec g 0) as [Hg0|Hg0].
    + rewrite (to_int_scaled m e g m1) by done.
      set (G := 2 ^ (- g)).
      assert (0 < G) as HG by (apply Z.pow_pos_nonneg; lia).
      assert (G * 2 ^ n = 2 ^ (- E)) as HGn.
      { unfold G. rewrite <- Z.pow_add_r by lia. f_equal. lia. }
      apply Z.div_le_lower_bound; [done|].
      rewrite Z.mul_comm.
      apply (rounded_ge_grid M (2 ^ n)); [done|lia|].
      rewrite <- Z.mul_assoc, HGn. apply HxF. lia.
    + destruct (Z.leb_spec 0 e) as [_|]; [|lia].
      assert (Z.pos m * 2 ^ e = m1 * 2 ^ g) as ->.
      { rewrite <- Hval, <- Z.mul_assoc, <- Z.pow_add_r by lia. do 2 f_equal. lia. }
      destruct (decide (n = 0)) as [Hn00|Hn00].
      * rewrite Hn00, Z.pow_0_r, Z.div_1_r in Hm1.
        assert (F ≤ M) by (rewrite HM; nia).
        assert (0 < 2 ^ g) by (apply Z.pow_pos_nonneg; lia). nia.
      * assert (n = Zdigits2 M - 53 ∧ 2 ≤ 2 ^ g) as [Hn53 Hg2].
        { split; [lia|]. change 2 with (2 ^ 1) at 1. apply Z.pow_le_mono_r; lia. }
        assert (2 ^ 52 ≤ M / 2 ^ n) as Hq.
        { apply Z.div_le_lower_bound; [done|].
          rewrite <- Z.pow_add_r by lia.
          replace (n + 52) with (Zdigits2 M - 1) by lia. apply HdMb. }
        assert (2 ^ 53 ≤ m1 * 2 ^ g); [|lia].
        change (2 ^ 53) with (2 ^ 52 * 2). nia.
Qed.

(** *** Division *)

Lemma div_eucl_div_mod a b : Z.div_eucl a b = (a / b, a mod b).
Proof. unfold Z.div, Z.modulo. by destruct (Z.div_eucl a b). Qed.

Lemma new_location_remainder D r :
  0 < D → 0 ≤ r < D →
  new_location D r = if r =? 0 then loc_Exact else loc_Inexact (2 * r ?= D).
Proof.
  intros HD Hr. unfold new_location, new_location_even, new_location_odd.
  change (IntDef.Z.even D) with (Z.even D).
  destruct (Z.even D) eqn:Hev; cbv beta; [done|].
  destruct (Z.eqb_spec r 0) as [->|Hr0]; [done|].
  assert (Z.odd D = true) as Hodd by (by rewrite <- Z.negb_even, Hev).
  apply Z.odd_spec in Hodd as [c Hc]. f_equal.
  destruct (Z.compare_spec (2 * r + 1) D), (Z.compare_spec (2 * r) D); try done; lia.
Qed.

Lemma div_mod_unique a b q r : 0 ≤ r < b → a = b * q + r → a / b = q ∧ a mod b = r.
Proof.
  intros Hr Ha. split; symmetry.
  - by apply (Z.div_unique a b q r); [left|].
  - by apply (Z.mod_unique a b q r); [left|].
Qed.

(** The quotient and the location that [SFdiv_core_binary] computes stand
    for the exact quotient. *)
Lemma new_location_stands_for N D :
  0 < D → 0 ≤ N →
  stands_for N D (shr_record_of_loc (N / D) (new_location D (N mod D))).
Proof.
  intros HD HN.
  pose proof (Z.mod_pos_bound N D HD) as Hr.
  pose proof (Z.div_mod N D ltac:(lia)) as Hdm.
  rewrite new_location_remainder by done.
  set (q := N / D) in *. set (r := N mod D) in *.
  split; [done|]. split; [done|].
  destruct (Z.eqb_spec r 0) as [Hr0|Hr0].
  - simpl. rewrite Z.add_0_r.
    assert (2 * N = D * (2 * q) + 0) as H2 by lia.
    edestruct (div_mod_unique (2 * N) D) as [-> ->]; [|exact H2|]; [lia|]. done.
  - destruct (Z.compare_spec (2 * r) D) as [Heq|Hlt|Hgt]; simpl.
    + assert (2 * N = D * (2 * q + 1) + 0) as H2 by lia.
      edestruct (div_mod_unique (2 * N) D) as [-> ->]; [|exact H2|]; [lia|]. done.
    + assert (2 * N = D * (2 * q) + 2 * r) as H2 by lia.
      edestruct (div_mod_unique (2 * N) D) as [-> ->]; [|exact H2|]; [lia|].
      split; [lia|]. destruct (Z.eqb_spec (2 * r) 0); [lia|done].
    + assert (2 * N = D * (2 * q + 1) + (2 * r - D)) as H2 by lia.
      edestruct (div_mod_unique (2 * N) D) as [-> ->]; [|exact H2|]; [lia|].
      split; [done|]. destruct (Z.eqb_spec (2 * r - D) 0); [lia|done].
Qed.

(** [math.ceil(x)] of a finite positive float whose mantissa is [m1] at
    the exponent [g <= 0]. *)
Lemma ceil_scaled (m : positive) e g m1 :
  g ≤ e → g ≤ 0 → Z.pos m * 2 ^ (e - g) = m1 →
  Float.ceil (S754_finite false m e) = Ok ((m1 + 2 ^ (- g) - 1) / 2 ^ (- g)).
Proof.
  intros Hge Hg <-. unfold Float.ceil. destruct (Z.leb_spec 0 e) as [He|He].
  - cbn [cond_Zopp]. f_equal.
    replace (e - g) with (e + - g) by lia. rewrite Z.pow_add_r by lia.
    assert (0 < 2 ^ (- g)) as HG by (apply Z.pow_pos_nonneg; lia).
    apply (Z.div_unique _ _ _ (2 ^ (- g) - 1)); lia.
  - f_equal.
    replace (- g) with (- e + (e - g)) by lia. rewrite Z.pow_add_r by lia.
    set (a := 2 ^ (- e)). set (c := 2 ^ (e - g)).
    assert (0 < a) as Ha by (apply Z.pow_pos_nonneg; lia).
    assert (0 < c) as Hc by (apply Z.pow_pos_nonneg; lia).
    set (t := (Z.pos m + a - 1) / a).
    pose proof (Z.mul_div_le (Z.pos m + a - 1) a Ha) as H1.
    pose proof (Z.mul_succ_div_gt (Z.pos m + a - 1) a Ha) as H2.
    fold t in H1, H2.
    apply (Z.div_unique _ _ _ (Z.pos m * c + a * c - 1 - a * c * t)); nia.
Qed.

(** [math.ceil(P / 500)], computed through the binary64 quotient, is the
    exact [ceil(P / 500)] for every length below [2^52]. *)
Lemma ceil_true_div_500 (P : Z) :
  0 ≤ P < 2 ^ 52 →
  (x ← Float.int_true_div P 500; Float.ceil x) = Ok (ceil_div P 500).
Proof.
  intros [HP0 HP]. destruct (decide (P = 0)) as [->|HPne]; [by vm_compute|].
  destruct (of_int_exact P) as (mP & eP & Hof & HeP & HeP0 & HmP & HdP); [lia|].
  pose proof (Zdigits2_lt_pow2 P 52 ltac:(lia) ltac:(lia)) as HdP52.
  pose proof (Zdigits2_bounds (Z.pos mP) ltac:(lia)) as HmPb. rewrite HdP in HmPb.
  assert (1 ≤ Zdigits2 P) as HdP1 by (destruct P; simpl; lia).
  unfold Float.int_true_div. change (500 =? 0) with false. cbv iota.
  rewrite Hof. cbn [mbind result_bind].
  change (Float.of_int 500) with (Ok (S754_finite false 8796093022208000 (-44))).
  cbn [mbind result_bind]. unfold Float.div, SFdiv. cbn [xorb].
  set (D := 8796093022208000).
  set (N := Z.pos mP * 2 ^ 53).
  assert (Hcore : SFdiv_core_binary Float.prec Float.emax (Z.pos mP) eP D (-44)
                  = (N / D, eP - 9, new_location D (N mod D))).
  { unfold SFdiv_core_binary. cbv zeta. rewrite HdP.
    change (Zdigits2 D) with 53. rewrite fexp_spec.
    replace (Z.min (Z.max (53 + eP - (53 + -44) - 53) (-1074)) (eP - -44)) with (eP - 9) by lia.
    replace (eP - -44 - (eP - 9)) with 53 by lia. cbv iota.
    rewrite Z.shiftl_mul_pow2 by lia. fold N.
    by rewrite div_eucl_div_mod. }
  rewrite Hcore. clear Hcore.
  assert (0 < D) as HD by done.
  assert (0 ≤ N) as HN by (unfold N; lia).
  destruct (binary_round_aux_spec N D false (N / D) (eP - 9) (new_location D (N mod D)))
    as (m1 & Hm1 & Hexact & Hres).
  { by apply new_location_stands_for. }
  remember (Z.max (fexp Float.prec Float.emax (Zdigits2 (N / D) + (eP - 9)) - (eP - 9)) 0)
    as n eqn:Hn.
  remember (eP - 9 + n) as g eqn:Hg.
  (* the quotient has 53 or 54 bits *)
  assert (2 ^ 52 ≤ N / D < 2 ^ 54) as Hq.
  { split.
    - apply Z.div_le_lower_bound; [done|]. unfold N, D. lia.
    - apply Z.div_lt_upper_bound; [done|]. unfold N, D. lia. }
  assert (53 ≤ Zdigits2 (N / D) ≤ 54) as Hdq.
  { split.
    - apply (Zdigits2_ge_pow2 _ 52); lia.
    - apply Zdigits2_lt_pow2; lia. }
  rewrite fexp_spec in Hn.
  assert (0 ≤ n ≤ 1 ∧ g ≤ -9) as [Hn01 Hg9] by lia.
  set (G := 2 ^ (- g)) in *.
  assert (512 ≤ G) as HG.
  { unfold G. change 512 with (2 ^ 9). apply Z.pow_le_mono_r; lia. }
  set (D' := 2 ^ n * D) in *.
  assert (0 < D') as HD'.
  { unfold D'. apply Z.mul_pos_pos; [apply Z.pow_pos_nonneg; lia|done]. }
  (* the quotient is [P / 500], scaled by [G] *)
  assert (500 * N = P * (G * D')) as Hscale.
  { unfold N, G, D', D. rewrite HmP.
    change 8796093022208000 with (500 * 2 ^ 44).
    replace (P * (2 ^ (- g) * (2 ^ n * (500 * 2 ^ 44))))
      with (500 * (P * (2 ^ (- g) * 2 ^ n * 2 ^ 44))) by lia.
    rewrite <- !Z.pow_add_r by lia.
    replace (500 * (P * 2 ^ (- eP) * 2 ^ 53)) with (500 * (P * (2 ^ (- eP) * 2 ^ 53))) by lia.
    rewrite <- !Z.pow_add_r by lia. do 3 f_equal. lia. }
  pose proof (Z.div_mod P 500 ltac:(lia)) as HPdm.
  pose proof (Z.mod_pos_bound P 500 ltac:(lia)) as Hrho.
  set (J := P / 500) in *. set (rho := P mod 500) in *.
  assert (ceil_div P 500 = if decide (rho = 0) then J else J + 1) as ->.
  { unfold ceil_div. case_decide.
    - symmetry. apply (Z.div_unique _ _ _ 499); lia.
    - symmetry. apply (Z.div_unique _ _ _ (rho - 1)); lia. }
  assert (Hm1val : m1 = J * G ∧ rho = 0 ∨ (J * G + 1 ≤ m1 ≤ J * G + G - 1 ∧ rho ≠ 0)).
  { destruct (decide (rho = 0)) as [Hrho0|Hrho0].
    - left. split; [|done].
      assert (N = J * G * D') as HNeq by nia.
      rewrite Hexact by (rewrite HNeq; apply Z.mod_mul; lia).
      rewrite HNeq. apply Z.div_mul. lia.
    - right.
      assert (500 * N = 500 * (J * (G * D')) + rho * (G * D')) as HN2.
      { rewrite Hscale. rewrite HPdm at 1. ring. }
      assert (512 * D' ≤ G * D') as HX1 by (apply Z.mul_le_mono_nonneg_r; lia).
      assert (G * D' ≤ rho * (G * D')) as HX2 by nia.
      assert (rho * (G * D') ≤ 499 * (G * D')) as HX3 by nia.
      split; [split|done].
      + apply (rounded_ge_grid N D'); [done|apply Hm1|].
        replace ((J * G + 1) * D') with (J * (G * D') + D') by ring. lia.
      + apply (rounded_le_grid N D'); [done|apply Hm1|done|].
        replace ((J * G + G - 1) * D') with (J * (G * D') + G * D' - D') by ring. lia. }
  destruct (binary_round_aux Float.prec Float.emax false (N / D) (eP - 9)
              (new_location D (N mod D))) as [s| s| |s m e].
  - destruct Hres as [_ Hz]. assert (0 ≤ J) by (apply Z.div_pos; lia). nia.
  - exfalso. destruct Hres as [_ (m & e & He & Hge & Hval)].
    assert (2 ^ 55 ≤ 2 ^ (e - g)) by (apply Z.pow_le_mono_r; lia).
    assert (N / D' ≤ N / D) as Hle.
    { apply Z.div_le_compat_l; [done|]. split; [done|]. unfold D'.
      assert (1 ≤ 2 ^ n) by (apply (Z.pow_le_mono_r 2 0 n); lia). nia. }
    assert (m1 ≤ 2 ^ 54) by lia.
    assert (2 ^ 55 ≤ m1); [|lia]. rewrite <- Hval. nia.
  - done.
  - destruct Hres as (-> & [Hge He] & Hval).
    rewrite (ceil_scaled m e g m1) by (done || lia). fold G. f_equal.
    destruct Hm1val as [[-> Hrho0]|[Hm1b Hrho0]].
    + rewrite decide_True by done. symmetry. apply (Z.div_unique _ _ _ (G - 1)); lia.
    + rewrite decide_False by done. symmetry.
      apply (Z.div_unique _ _ _ (m1 - 1 - J * G)); lia.
Qed.

End rounding.

(** ** [ProcessingStats]: aggregate consistency *)

Section stats.
Implicit Types (s : ProcessingStats) (d : gmap string video_stat).

Lemma set_fields_fresh d k t e :
  d !! k = None →
  set_extracted k e (set_frames k t d) = <[k := {| frames := t; extracted := e |}]> d.
Proof.
  intros Hk. unfold set_extracted, set_frames, defaultdict_touch.
  rewrite Hk. rewrite lookup_alter_eq, lookup_insert_eq. simpl.
  apply map_eq. intros j. destruct (decide (j = k)) as [->|Hne].
  - rewrite lookup_alter_eq, lookup_alter_eq, !lookup_insert_eq. reflexivity.
  - rewrite !lookup_alter_ne, !lookup_insert_ne by congruence. reflexivity.
Qed.

Lemma set_fields (d : gmap string video_stat) k t x :
  set_extracted k x (set_frames k t d) = <[k := {| frames := t; extracted := x |}]> d.
Proof.
  destruct (d !! k) as [old|] eqn:Hk; [|by apply set_fields_fresh].
  unfold set_extracted, set_frames, defaultdict_touch.
  rewrite Hk. rewrite lookup_alter_eq, Hk. simpl.
  apply map_eq. intros j. destruct (decide (j = k)) as [->|Hne].
  - rewrite !lookup_alter_eq, Hk, lookup_insert_eq. done.
  - rewrite !lookup_alter_ne, lookup_insert_ne by congruence. done.
Qed.

Lemma sum_frames_insert d k v :
  d !! k = None → sum_frames (<[k := v]> d) = frames v + sum_frames d.
Proof.
  intros Hk. unfold sum_frames.
  rewrite map_fold_insert_L; [reflexivity| |exact Hk].
  intros. lia.
Qed.

Lemma sum_extracted_insert d k v :
  d !! k = None → sum_extracted (<[k := v]> d) = extracted v + sum_extracted d.
Proof.
  intros Hk. unfold sum_extracted.
  rewrite map_fold_insert_L; [reflexivity| |exact Hk].
  intros. lia.
Qed.

Lemma update_video_stats_fresh s k t e :
  video_stats s !! k = None →
  video_stats (update_video_stats s k t e)
  = <[k := {| frames := t; extracted := e |}]> (video_stats s).
Proof. intros Hk. simpl. by apply set_fields_fresh. Qed.

Lemma update_video_stats_consistent s k t e :
  video_stats s !! k = None →
  stats_consistent s → stats_consistent (update_video_stats s k t e).
Proof.
  intros Hk (Hf & He & Hp). unfold stats_consistent.
  rewrite update_video_stats_fresh by done.
  rewrite sum_frames_insert, sum_extracted_insert by done.
  rewrite map_size_insert_None by done. simpl. lia.
Qed.

Lemma update_all_consistent calls : ∀ s,
  stats_consistent s →
  NoDup (calls.*1.*1) →
  (∀ k, k ∈ calls.*1.*1 → video_stats s !! k = None) →
  stats_consistent (update_all s calls).
Proof.
  induction calls as [|[[k t] e] calls IH]; intros s Hs Hnd Hfresh; [done|].
  simpl in Hnd. apply NoDup_cons in Hnd as [Hk Hnd].
  unfold update_all. simpl. apply IH; [|done|].
  - apply update_video_stats_consistent; [|done].
    apply Hfresh. simpl. left.
  - intros j Hj. rewrite update_video_stats_fresh by (apply Hfresh; simpl; left).
    rewrite lookup_insert_ne; [apply Hfresh; simpl; by right|].
    intros ->. done.
Qed.

End stats.

(** C9. Starting from a fresh [ProcessingStats], after any sequence of
    [update_video_stats] calls that never repeats a video name,
    [total_frames] is the sum of the per-video ['frames'] entries,
    [extracted_frames] the sum of the per-video ['extracted'] entries, and
    [processed_videos] the number of per-video entries. *)
Theorem stats_aggregate_consistency (calls : list (string * Z * Z)) :
  NoDup (calls.*1.*1) →
  let s := update_all ProcessingStats_init calls in
  total_frames s = sum_frames (video_stats s)
  ∧ extracted_frames s = sum_extracted (video_stats s)
  ∧ processed_videos s = Z.of_nat (size (video_stats s)).
Proof.
  intros Hnd. apply update_all_consistent; [|done|].
  - unfold stats_consistent, sum_frames, sum_extracted. simpl.
    rewrite !map_fold_empty, map_size_empty. done.
  - intros k _. apply lookup_empty.
Qed.

Lemma stats_aggregate_consistency_witness :
  let calls := [("a.mp4", 101, 11); ("b.avi", 30, 3)] in
  NoDup (calls.*1.*1)
  ∧ total_frames (update_all ProcessingStats_init calls) = 131
  ∧ sum_frames (video_stats (update_all ProcessingStats_init calls)) = 131.
Proof.
  assert (Hnd : NoDup ([("a.mp4", 101, 11); ("b.avi", 30, 3)].*1.*1)).
  { apply (bool_decide_unpack _). vm_compute. exact I. }
  split; [exact Hnd|].
  pose proof (stats_aggregate_consistency _ Hnd) as (H1 & _ & _).
  split; [reflexivity|]. rewrite <- H1. reflexivity.
Defined.

(** ** Frame extraction: which frames are saved, and under which names *)

Section ceil_div.

Lemma ceil_div_0 n : 1 ≤ n → ceil_div 0 n = 0.
Proof. intros. unfold ceil_div. apply Z.div_small. lia. Qed.

Lemma ceil_div_multiple c n :
  1 ≤ n → 0 ≤ c → c mod n = 0 → c = ceil_div c n * n.
Proof.
  intros Hn Hc Hm. unfold ceil_div.
  pose proof (Z.div_mod c n ltac:(lia)) as Hdm. rewrite Hm in Hdm.
  replace (c + n - 1) with ((n - 1) + (c / n) * n) by lia.
  rewrite Z.div_add by lia. rewrite (Z.div_small (n - 1) n) by lia. lia.
Qed.

Lemma ceil_div_succ_multiple c n :
  1 ≤ n → 0 ≤ c → c mod n = 0 → ceil_div (c + 1) n = ceil_div c n + 1.
Proof.
  intros Hn Hc Hm. unfold ceil_div.
  pose proof (Z.div_mod c n ltac:(lia)) as Hdm. rewrite Hm in Hdm.
  replace (c + 1 + n - 1) with (0 + (c / n + 1) * n) by lia.
  replace (c + n - 1) with ((n - 1) + (c / n) * n) by lia.
  rewrite !Z.div_add by lia.
  rewrite (Z.div_small (n - 1) n), (Z.div_small 0 n) by lia. lia.
Qed.

Lemma ceil_div_succ_other c n :
  1 ≤ n → 0 ≤ c → c mod n ≠ 0 → ceil_div (c + 1) n = ceil_div c n.
Proof.
  intros Hn Hc Hm. unfold ceil_div.
  pose proof (Z.div_mod c n ltac:(lia)) as Hdm.
  pose proof (Z.mod_pos_bound c n ltac:(lia)) as Hb.
  replace (c + 1 + n - 1) with (c mod n + (c / n + 1) * n) by lia.
  replace (c + n - 1) with ((c mod n - 1) + (c / n + 1) * n) by lia.
  rewrite !Z.div_add by lia.
  rewrite (Z.div_small (c mod n) n), (Z.div_small (c mod n - 1) n) by lia. lia.
Qed.

Lemma ceil_div_nonneg c n : 1 ≤ n → 0 ≤ c → 0 ≤ ceil_div c n.
Proof. intros. unfold ceil_div. apply Z.div_pos; lia. Qed.

Lemma ceil_div_index_lt c n k :
  1 ≤ n → 0 ≤ c → 0 ≤ k < ceil_div c n → k * n < c.
Proof.
  intros Hn Hc [Hk0 Hk]. unfold ceil_div in Hk.
  destruct (decide (k * n < c)) as [|Hge]; [done|]. exfalso.
  assert (c + n - 1 < n * (k + 1)) as Hlt by nia.
  apply Z.div_lt_upper_bound in Hlt; lia.
Qed.

End ceil_div.

Lemma loop_inv_init n folder name :
  1 ≤ n →
  loop_inv n folder name [] {| frame_count := 0; saved_frame_count := 0; imwrites := [] |}.
Proof.
  intros Hn. unfold loop_inv. simpl. rewrite ceil_div_0 by done.
  repeat split; try done. intros k Hk. lia.
Qed.

Lemma decode_loop_inv n folder name rest : ∀ seen st,
  1 ≤ n →
  loop_inv n folder name seen st →
  ∃ st', decode_loop n folder name rest st = Ok st'
         ∧ loop_inv n folder name (seen ++ rest) st'.
Proof.
  induction rest as [|frame rest IH]; intros seen st Hn Hinv.
  - exists st. rewrite app_nil_r. done.
  - simpl. destruct (Z.eqb_spec n 0) as [?|_]; [lia|].
    destruct Hinv as (Hc & Hs & Hlen & Hw).
    replace (seen ++ frame :: rest) with ((seen ++ [frame]) ++ rest)
      by (by rewrite <- app_assoc).
    apply IH; [done|].
    assert (0 ≤ Z.of_nat (length seen)) as Hpos by lia.
    unfold loop_inv. rewrite length_app. simpl length.
    replace (Z.of_nat (length seen + 1)) with (Z.of_nat (length seen) + 1) by lia.
    destruct (Z.eqb_spec (frame_count st mod n) 0) as [Hm|Hm]; simpl;
      rewrite Hc in Hm.
    + rewrite ceil_div_succ_multiple by done.
      rewrite length_app. simpl length.
      repeat split; [lia..|].
      intros k Hk.
      destruct (decide (Z.of_nat k < saved_frame_count st)) as [Hlt|Hge].
      * destruct (Hw k Hlt) as (f & Hf & Hwk). exists f. split.
        -- by apply lookup_app_l_Some.
        -- by apply lookup_app_l_Some.
      * assert (Z.of_nat k = saved_frame_count st) as Hkeq by lia.
        exists frame. split.
        -- pose proof (ceil_div_multiple _ n Hn Hpos Hm) as Hmul.
           rewrite <- Hs, <- Hkeq in Hmul.
           assert ((k * Z.to_nat n)%nat = length seen) as -> by nia.
           rewrite lookup_app_r by lia.
           by rewrite Nat.sub_diag.
        -- assert (k = length (imwrites st)) as -> by lia.
           rewrite lookup_app_r by lia. rewrite Nat.sub_diag. simpl.
           do 3 f_equal. lia.
    + rewrite ceil_div_succ_other by done.
      repeat split; [lia|done..|].
      intros k Hk. destruct (Hw k Hk) as (f & Hf & Hwk). exists f.
      split; [by apply lookup_app_l_Some|done].
Qed.

(** The general statement about one capture, shared by the theorems
    below. *)
Lemma extract_from_capture_spec n folder name cap :
  1 ≤ n →
  ∃ st, extract_from_capture n folder name cap = Ok st
        ∧ loop_inv n folder name (decoded cap) st.
Proof.
  intros Hn. unfold extract_from_capture, decoded.
  destruct (isOpened cap).
  - apply (decode_loop_inv n folder name (stream cap) []); [done|].
    by apply loop_inv_init.
  - eexists. split; [done|]. by apply loop_inv_init.
Qed.

Lemma frame_filename_counter folder name (k : Z) :
  0 ≤ k → frame_filename folder name k = frame_path_with folder name (zero_padded k).
Proof.
  intros Hk. unfold frame_filename, frame_path_with, Py.format_05d, zero_padded.
  destruct (Z.ltb_spec k 0); [lia|done].
Qed.

Lemma zero_padded_length_ge (k : Z) : (5 ≤ String.length (zero_padded k))%nat.
Proof. unfold zero_padded. rewrite str_length_app, zeros_length. lia. Qed.

Lemma zero_padded_length_5 (k : Z) :
  0 ≤ k < 100000 → String.length (zero_padded k) = 5%nat.
Proof.
  intros Hk. unfold zero_padded. rewrite str_length_app, zeros_length.
  pose proof (pretty_Z_length_le 5 k ltac:(simpl; lia) ltac:(lia)). lia.
Qed.








(** The scenario of the specification: 101 frames and [n = 10] save the
    11 frames of index 0, 10, ..., 100. *)
Example extract_101_frames_every_10 :
  (λ st, (imwrites st).*2) <$> extract_from_capture 10 "out/v" "v.mp4" (numbered_video 101)
  = Ok ((λ i, [N.of_nat (10 * i)]) <$> seq 0 11).
Proof. vm_compute. reflexivity. Qed.

(** C5, as the code has it. Every saved frame is written under the name
    [<video-base>_frame_<counter>.jpg] in the video's folder, where
    [<counter>] is the decimal save counter left-padded with zeros to at
    least five characters (exactly five below 100000); the counter of the
    [k]-th saved frame is [k] (counting from 0), while its ordinal index in
    the video is [k * n]. *)
Theorem saved_frame_names (n : Z) (folder name : string) (cap : VideoCapture) :
  1 ≤ n →
  ∃ st, extract_from_capture n folder name cap = Ok st
    ∧ ∀ (k : nat) path f, imwrites st !! k = Some (path, f) →
        path = frame_path_with folder name (zero_padded (Z.of_nat k))
        ∧ (5 ≤ String.length (zero_padded (Z.of_nat k)))%nat
        ∧ (Z.of_nat k < 100000 → String.length (zero_padded (Z.of_nat k)) = 5%nat)
        ∧ decoded cap !! (k * Z.to_nat n)%nat = Some f.
Proof.
  intros Hn.
  destruct (extract_from_capture_spec n folder name cap Hn)
    as (st & Hrun & Hc & Hs & Hlen & Hw).
  exists st. split; [done|]. intros k path f Hk.
  pose proof (lookup_lt_Some _ _ _ Hk) as Hlt.
  destruct (Hw k ltac:(lia)) as (f' & Hf' & Hwk).
  rewrite Hk in Hwk. injection Hwk as -> ->.
  split; [apply frame_filename_counter; lia|].
  split; [apply zero_padded_length_ge|].
  split; [intros; apply zero_padded_length_5; lia|done].
Qed.

Lemma saved_frame_names_witness :
  1 ≤ 2 ∧
  ∃ st, extract_from_capture 2 "out/v" "v.mp4" (numbered_video 5) = Ok st
        ∧ (imwrites st).*1 = ["out/v/v_frame_00000.jpg"; "out/v/v_frame_00001.jpg";
                              "out/v/v_frame_00002.jpg"].
Proof.
  split; [lia|].
  destruct (saved_frame_names 2 "out/v" "v.mp4" (numbered_video 5)) as (st & Hrun & _);
    [lia|].
  exists st. split; [exact Hrun|].
  vm_compute in Hrun. injection Hrun as <-. reflexivity.
Defined.

(** C5 as stated fails for long videos: with [n = 1], the 100001st frame
    of a video is saved under a six-digit counter, so its name is not
    [<video-base>_frame_<five characters>.jpg]. *)
Lemma five_digit_counter_counterexample :
  ∃ st f,
    extract_from_capture 1 "out/v" "v.mp4" (blank_video 100001) = Ok st
    ∧ imwrites st !! Z.to_nat 100000 = Some ("out/v/v_frame_100000.jpg", f)
    ∧ ¬ ∃ counter, String.length counter = 5%nat
                   ∧ "out/v/v_frame_100000.jpg" = frame_path_with "out/v" "v.mp4" counter.
Proof.
  destruct (extract_from_capture_spec 1 "out/v" "v.mp4" (blank_video 100001) ltac:(lia))
    as (st & Hrun & Hc & Hs & Hlen & Hw).
  assert (Hlen' : length (decoded (blank_video 100001)) = Z.to_nat 100001).
  { unfold decoded, blank_video; simpl isOpened; cbv iota.
    cbv beta iota delta [stream]. apply length_replicate. }
  rewrite Hlen', Z2Nat.id in Hs by lia.
  change (ceil_div 100001 1) with 100001 in Hs.
  destruct (Hw (Z.to_nat 100000)) as (f & _ & Hwk).
  { rewrite Hs, Z2Nat.id; lia. }
  rewrite Z2Nat.id in Hwk by lia.
  exists st, f. split; [exact Hrun|]. split; [exact Hwk|].
  intros (counter & Hlen5 & Hpath).
  change ("out/v/v_frame_100000.jpg")
    with ("out/v/v_frame_" +:+ "100000.jpg") in Hpath.
  change (frame_path_with "out/v" "v.mp4" counter)
    with ("out/v/v_frame_" +:+ (counter +:+ ".jpg")) in Hpath.
  apply (inj (String.app _)) in Hpath.
  apply (f_equal String.length) in Hpath.
  rewrite str_length_app, Hlen5 in Hpath. simpl in Hpath. lia.
Qed.

(** ** Videos that cannot be opened *)





(** ** Combining folders: no file is overwritten *)

Section merge.
Implicit Types (output cur : gmap string Content) (log : list copy_call).

Global Instance candidate_inj image : Inj (=) (=) (candidate image).
Proof.
  intros c1 c2. unfold candidate, Py.str_int.
  destruct (Py.splitext image) as [name ext]. intros H.
  apply (inj (String.app name)) in H. apply (inj (String.app "_")) in H.
  apply str_app_inj_r in H. by apply (inj pretty) in H.
Qed.

Lemma unique_dest_loop_total output image (fuel : nat) : ∀ (c : Z) (S : gset string),
  (size S ≤ fuel)%nat →
  (∀ j, c ≤ j → is_Some (output !! candidate image j) → candidate image j ∈ S) →
  ∃ n, c ≤ n
       ∧ unique_dest_loop output image (candidate image c) (c + 1) fuel
         = Some (candidate image n)
       ∧ output !! candidate image n = None
       ∧ ∀ j, c ≤ j < n → is_Some (output !! candidate image j).
Proof.
  induction fuel as [|fuel IH]; intros c S HS Hcover.
  - exists c. simpl.
    destruct (output !! candidate image c) as [b|] eqn:Hc.
    + assert (candidate image c ∈ S) as Hin by (apply Hcover; [lia|by rewrite Hc]).
      assert (size S = 0%nat) as Hz by lia.
      apply size_empty_inv in Hz. set_solver.
    + repeat split; first [done | lia | intros; lia].
  - simpl. destruct (output !! candidate image c) as [b|] eqn:Hc.
    + assert (candidate image c ∈ S) as Hin by (apply Hcover; [lia|by rewrite Hc]).
      destruct (IH (c + 1) (S ∖ {[candidate image c]})) as (n & Hn & Hrun & Hfree & Hbusy).
      * pose proof (size_difference S {[candidate image c]} ltac:(set_solver)) as Hsz.
        rewrite size_singleton in Hsz.
        assert (size S ≠ 0%nat); [|lia].
        intros Hz. apply size_empty_inv in Hz. set_solver.
      * intros j Hj Hsome. apply elem_of_difference. split; [apply Hcover; [lia|done]|].
        rewrite elem_of_singleton. intros Heq. apply (inj _) in Heq. lia.
      * exists n. repeat split; try done; try lia.
        intros j Hj. destruct (decide (j = c)) as [->|Hne]; [by rewrite Hc|].
        apply Hbusy. lia.
    + exists c. repeat split; first [done | lia | intros; lia].
Qed.

(** The renaming loop always ends, on a name that is free. *)
Lemma unique_dest_total output image :
  ∃ d, unique_dest output image = Some d
       ∧ output !! d = None
       ∧ (d = image
          ∨ ∃ n, 1 ≤ n ∧ d = candidate image n
                 ∧ is_Some (output !! image)
                 ∧ ∀ j, 1 ≤ j < n → is_Some (output !! candidate image j)).
Proof.
  unfold unique_dest. simpl.
  destruct (output !! image) as [b|] eqn:Himg.
  - destruct (unique_dest_loop_total output image (size output) 1 (dom output))
      as (n & Hn & Hrun & Hfree & Hbusy).
    + by rewrite size_dom.
    + intros j _ Hsome. by apply elem_of_dom.
    + exists (candidate image n). split; [done|]. split; [done|].
      right. exists n. repeat split; eauto.
  - exists image. eauto.
Qed.

Lemma merge_inv_init output : merge_inv output output [].
Proof.
  split; simpl; try done.
  - constructor.
  - intros c Hc. by apply elem_of_nil in Hc.
  - intros c Hc. by apply elem_of_nil in Hc.
  - set_solver.
  - intros c Hc. by apply elem_of_nil in Hc.
Qed.

Lemma copy_image_inv output cur log subfolder file :
  merge_inv output cur log →
  ∃ cur' c, copy_image subfolder (cur, log) file = Some (cur', log ++ [c])
            ∧ image c = file.1 ∧ payload c = file.2
            ∧ merge_inv output cur' (log ++ [c]).
Proof.
  intros Hinv. destruct file as [img bytes]. unfold copy_image.
  destruct (unique_dest_total cur img) as (d & Hd & Hfree & Hname).
  rewrite Hd. simpl. eexists _, _. split; [reflexivity|].
  split; [done|]. split; [done|].
  assert (Hnew : d ∉ dest <$> log).
  { intros (c & Hc & Hin)%list_elem_of_fmap.
    pose proof (inv_content _ _ _ Hinv c Hin) as Hcur. rewrite <- Hc in Hcur. congruence. }
  assert (Hout : output !! d = None).
  { destruct (output !! d) as [b|] eqn:Ho; [|done].
    apply (inv_kept _ _ _ Hinv) in Ho. congruence. }
  split.
  - rewrite fmap_app. simpl. apply NoDup_app. split; [apply Hinv|].
    split; [|apply NoDup_singleton].
    intros x Hx Hx'. apply list_elem_of_singleton in Hx'. by subst.
  - intros c [Hc|Hc]%elem_of_app; [by apply Hinv|].
    apply list_elem_of_singleton in Hc. by subst.
  - intros c [Hc|Hc]%elem_of_app.
    + rewrite lookup_insert_ne; [by apply Hinv|].
      intros ->. apply Hnew. apply list_elem_of_fmap. eauto.
    + apply list_elem_of_singleton in Hc. subst. simpl. by rewrite lookup_insert_eq.
  - intros k b Hk. rewrite lookup_insert_ne; [by apply Hinv|]. congruence.
  - rewrite dom_insert_L, (inv_dom _ _ _ Hinv), fmap_app, list_to_set_app_L. simpl.
    set_solver.
  - assert (Hmono : ∀ k, is_Some (cur !! k) → is_Some (<[d := bytes]> cur !! k)).
    { intros k [b Hb]. destruct (decide (d = k)) as [->|Hne]; [congruence|].
      rewrite lookup_insert_ne by done. eauto. }
    intros c [Hc|Hc]%elem_of_app.
    + destruct (inv_naming _ _ _ Hinv c Hc) as [?|(n & Hn & Hdc & Himg & Hbusy)];
        [by left|right].
      exists n. eauto 10.
    + apply list_elem_of_singleton in Hc. subst. simpl.
      destruct Hname as [?|(n & Hn & Hdc & Himg & Hbusy)]; [by left|right].
      exists n. eauto 10.
Qed.

Lemma copy_images_inv output subfolder images : ∀ cur log,
  merge_inv output cur log →
  ∃ cur' log', copy_images subfolder (cur, log) images = Some (cur', log ++ log')
               ∧ (λ c, (image c, payload c)) <$> log' = images
               ∧ merge_inv output cur' (log ++ log').
Proof.
  induction images as [|file images IH]; intros cur log Hinv.
  - exists cur, []. rewrite app_nil_r. done.
  - destruct (copy_image_inv _ _ _ subfolder file Hinv) as (cur1 & c & Hstep & Hi & Hp & Hinv1).
    destruct (IH _ _ Hinv1) as (cur' & log' & Hrun & Hlog & Hinv').
    rewrite <- app_assoc in Hrun, Hinv'. simpl in Hrun, Hinv'.
    exists cur', (c :: log'). split; [|split; [|done]].
    + cbn [copy_images]. rewrite Hstep. exact Hrun.
    + rewrite fmap_cons, Hlog, Hi, Hp. by destruct file.
Qed.

Lemma copy_subfolders_inv output root_folder subfolders : ∀ cur log,
  merge_inv output cur log →
  ∃ cur' log', copy_subfolders root_folder (cur, log) subfolders = Some (cur', log ++ log')
               ∧ (λ c, (image c, payload c)) <$> log' = subfolders ≫= jpg_images
               ∧ merge_inv output cur' (log ++ log').
Proof.
  induction subfolders as [|e subfolders IH]; intros cur log Hinv.
  - exists cur, []. rewrite app_nil_r. done.
  - destruct (copy_images_inv _ (Py.path_join root_folder (folder e)) (jpg_images e) _ _ Hinv)
      as (cur1 & log1 & Hstep & Hlog1 & Hinv1).
    destruct (IH _ _ Hinv1) as (cur' & log' & Hrun & Hlog & Hinv').
    rewrite <- app_assoc in Hrun, Hinv'.
    exists cur', (log1 ++ log'). split; [|split; [|done]].
    + cbn [copy_subfolders]. rewrite Hstep. exact Hrun.
    + rewrite fmap_app, Hlog1, Hlog. done.
Qed.

End merge.

(** C6. [combine_folders] always completes and never overwrites a file:
    every image of every immediate child sub-folder gets a destination
    name of its own, free in the output folder as it was found, and holds
    its source's bytes there at the end; the files the output folder had
    before are untouched. A destination is the image's own name, or, when
    that is taken, [name_<n><ext>] for the first [n >= 1] that is free.
    Merging two sub-folders that each hold [a.jpg] gives [a.jpg] and
    [a_1.jpg] with the respective bytes. *)
Theorem combine_folders_never_overwrites (root_folder : string)
    (root : list RootEntry) (output : gmap string Content) :
  (∃ output' log,
    combine_folders root_folder root output = Some (output', log)
    ∧ (λ c, (image c, payload c)) <$> log = all_images root
    ∧ NoDup (dest <$> log)
    ∧ (∀ c, c ∈ log →
         output !! dest c = None ∧ output' !! dest c = Some (payload c))
    ∧ (∀ k b, output !! k = Some b → output' !! k = Some b)
    ∧ dom output' = dom output ∪ list_to_set (dest <$> log)
    ∧ (∀ c, c ∈ log →
         dest c = image c
         ∨ ∃ n, 1 ≤ n ∧ dest c = candidate (image c) n
                ∧ is_Some (output' !! image c)
                ∧ ∀ j, 1 ≤ j < n → is_Some (output' !! candidate (image c) j)))
  ∧ (∀ c1 c2 : Content,
       fst <$> combine_folders root_folder (two_folders c1 c2) ∅
       = Some (<["a.jpg" := c1]> (<["a_1.jpg" := c2]> ∅))).
Proof.
  split.
  - unfold combine_folders, all_images.
    destruct (copy_subfolders_inv output root_folder
                (filter (λ e, isdir e = true) root) output [] (merge_inv_init output))
      as (output' & log & Hrun & Hlog & Hinv).
    simpl in Hrun, Hinv. exists output', log.
    split; [done|]. split; [done|].
    split; [apply Hinv|].
    split; [intros c Hc; split; by apply Hinv|].
    split; [apply Hinv|].
    split; apply Hinv.
  - intros c1 c2. reflexivity.
Qed.

(** The scenario with concrete bytes, and with a third copy of the same
    name. *)
Example combine_three_a_jpg :
  fst <$> combine_folders "root"
    [ {| folder := "x"; isdir := true; listing := [("a.jpg", [1%N]); ("notes.txt", [])] |};
      {| folder := "y"; isdir := true; listing := [("a.jpg", [2%N]); ("a_1.jpg", [3%N])] |};
      {| folder := "z.jpg"; isdir := false; listing := [] |};
      {| folder := "w"; isdir := true; listing := [("A.JPG", [4%N]); ("a.jpg", [5%N])] |} ] ∅
  = Some (list_to_map [("a.jpg", [1%N]); ("a_1.jpg", [2%N]); ("a_1_1.jpg", [3%N]);
                       ("A.JPG", [4%N]); ("a_2.jpg", [5%N])]).
Proof. vm_compute. reflexivity. Qed.

(** ** Counting class identifiers *)

Section count.
Implicit Types (l counts : list (string * Z)) (c d : string).

Lemma counter_get_increment c d l :
  counter_get c (increment d l) = counter_get c l + (if decide (d = c) then 1 else 0).
Proof.
  induction l as [|[k v] l IH]; simpl.
  - destruct (String.eqb_spec d c), (decide (d = c)); done.
  - destruct (String.eqb_spec k d) as [->|Hkd]; simpl.
    + destruct (String.eqb_spec d c), (decide (d = c)); try done. lia.
    + destruct (String.eqb_spec k c) as [->|Hkc]; [|done].
      rewrite decide_False by done. lia.
Qed.

Lemma counter_get_count_line c l line :
  counter_get c (count_line l line)
  = counter_get c l + (if decide (first_token line = Some c) then 1 else 0).
Proof.
  unfold count_line, first_token. destruct (Py.split line) as [|d toks]; simpl.
  - lia.
  - rewrite counter_get_increment.
    destruct (decide (d = c)) as [->|Hne].
    + by rewrite decide_True.
    + rewrite decide_False; [done|]. congruence.
Qed.

Lemma counter_get_lines c lines : ∀ l,
  counter_get c (foldl count_line l lines)
  = counter_get c l
    + Z.of_nat (length (filter (λ line, first_token line = Some c) lines)).
Proof.
  induction lines as [|line lines IH]; intros l; simpl; [lia|].
  rewrite IH, counter_get_count_line, filter_cons.
  case_decide; simpl length; lia.
Qed.

Lemma counter_get_files c files : ∀ l,
  counter_get c (foldl count_file l files) = counter_get c l + lines_of_class c files.
Proof.
  unfold lines_of_class.
  induction files as [|file files IH]; intros l; simpl; [lia|].
  rewrite IH. unfold count_file. rewrite counter_get_lines.
  change (list_bind _ _ snd files) with (files ≫= snd).
  rewrite filter_app, length_app. lia.
Qed.

Lemma increment_keys d l :
  (increment d l).*1 = if decide (d ∈ l.*1) then l.*1 else l.*1 ++ [d].
Proof.
  induction l as [|[k v] l IH]; [done|].
  cbn [increment]. destruct (String.eqb_spec k d) as [->|Hkd].
  - rewrite !fmap_cons. cbn [fst]. rewrite decide_True by left. done.
  - rewrite !fmap_cons. cbn [fst]. rewrite IH. destruct (decide (d ∈ l.*1)).
    + rewrite decide_True by (by right). done.
    + rewrite decide_False; [done|]. intros [?|?]%elem_of_cons; congruence.
Qed.

Lemma increment_elem d l c n :
  (c, n) ∈ increment d l → (c, n) ∈ l ∨ n = 1 ∨ (c, n - 1) ∈ l.
Proof.
  induction l as [|[k v] l IH]; simpl.
  - intros Hin%list_elem_of_singleton. injection Hin as -> ->. auto.
  - destruct (String.eqb_spec k d) as [->|Hkd].
    + intros [Heq|Hin]%elem_of_cons.
      * injection Heq as -> ->. right. right.
        replace (v + 1 - 1) with v by lia. left.
      * left. by right.
    + intros [Heq|Hin]%elem_of_cons.
      * left. rewrite Heq. left.
      * destruct (IH Hin) as [?|[?|?]]; [left; by right|auto|right; right; by right].
Qed.

(** A well-formed counter: distinct keys, positive counts. *)
Lemma increment_ok d l :
  NoDup l.*1 ∧ (∀ c n, (c, n) ∈ l → 1 ≤ n) →
  NoDup (increment d l).*1 ∧ (∀ c n, (c, n) ∈ increment d l → 1 ≤ n).
Proof.
  intros [Hnd Hpos]. split.
  - rewrite increment_keys. case_decide as Hin; [done|].
    apply NoDup_app. split; [done|]. split; [|apply NoDup_singleton].
    intros x Hx ->%list_elem_of_singleton. done.
  - intros c n [Hin|[->|Hin]]%increment_elem; [by eapply Hpos|lia|].
    apply Hpos in Hin. lia.
Qed.

Lemma class_counts_ok files : ∀ l,
  NoDup l.*1 ∧ (∀ c n, (c, n) ∈ l → 1 ≤ n) →
  NoDup (foldl count_file l files).*1
  ∧ (∀ c n, (c, n) ∈ foldl count_file l files → 1 ≤ n).
Proof.
  induction files as [|[name lines] files IH]; intros l Hl; [done|].
  simpl. apply IH. unfold count_file. simpl. clear IH.
  revert l Hl. induction lines as [|line lines IH]; intros l Hl; [done|].
  simpl. apply IH. unfold count_line.
  destruct (Py.split line); [done|]. by apply increment_ok.
Qed.

Lemma counter_get_elem l c n : NoDup l.*1 → (c, n) ∈ l → counter_get c l = n.
Proof.
  induction l as [|[k v] l IH]; intros Hnd Hin; [by apply elem_of_nil in Hin|].
  simpl in *. apply NoDup_cons in Hnd as [Hk Hnd].
  apply elem_of_cons in Hin as [Heq|Hin].
  - injection Heq as -> ->. by rewrite String.eqb_refl.
  - destruct (String.eqb_spec k c) as [->|Hne]; [|by apply IH].
    exfalso. apply Hk. apply list_elem_of_fmap. by exists (c, n).
Qed.

Lemma counter_get_missing l c : c ∉ l.*1 → counter_get c l = 0.
Proof.
  induction l as [|[k v] l IH]; intros Hnin; [done|]. simpl in *.
  destruct (String.eqb_spec k c) as [->|Hne].
  - exfalso. apply Hnin. left.
  - apply IH. intros Hin. apply Hnin. by right.
Qed.

Lemma counter_get_found l c :
  NoDup l.*1 → c ∈ l.*1 → (c, counter_get c l) ∈ l.
Proof.
  intros Hnd ([k v] & -> & Hin)%list_elem_of_fmap. simpl.
  by rewrite (counter_get_elem l k v).
Qed.

(** Sorting. *)
Lemma insert_by_key_perm x (l : list (Z * (string * Z))) :
  insert_by_key x l ≡ₚ x :: l.
Proof.
  induction l as [|y l IH]; simpl; [done|].
  destruct (x.1 <=? y.1); [done|]. rewrite IH. apply Permutation_swap.
Qed.

Lemma stable_sort_perm (l : list (Z * (string * Z))) : stable_sort l ≡ₚ l.
Proof.
  induction l as [|x l IH]; simpl; [done|].
  rewrite insert_by_key_perm. by rewrite IH.
Qed.

Lemma insert_by_key_sorted x (l : list (Z * (string * Z))) :
  StronglySorted (λ a b, a.1 ≤ b.1) l →
  StronglySorted (λ a b, a.1 ≤ b.1) (insert_by_key x l).
Proof.
  induction l as [|y l IH]; intros Hs; simpl.
  - repeat constructor.
  - apply StronglySorted_inv in Hs as [Hs Hy].
    destruct (Z.leb_spec x.1 y.1) as [Hle|Hgt].
    + constructor; [by constructor|].
      constructor; [done|]. eapply Forall_impl; [exact Hy|]. simpl. intros; lia.
    + constructor; [by apply IH|].
      rewrite insert_by_key_perm. constructor; [lia|done].
Qed.

Lemma stable_sort_sorted (l : list (Z * (string * Z))) :
  StronglySorted (λ a b, a.1 ≤ b.1) (stable_sort l).
Proof.
  induction l as [|x l IH]; simpl; [constructor|]. by apply insert_by_key_sorted.
Qed.

Lemma with_int_keys_ok l keyed :
  with_int_keys l = Ok keyed →
  keyed.*2 = l ∧ Forall (λ kr, Py.int_of_str kr.2.1 = Some kr.1) keyed.
Proof.
  revert keyed. induction l as [|item l IH]; intros keyed; simpl.
  - intros [= <-]. done.
  - destruct (Py.int_of_str item.1) as [k|] eqn:Hk; [|done].
    destruct (with_int_keys l) as [keyed'|]; [|done]. simpl.
    intros [= <-]. destruct (IH _ eq_refl) as [Hl Hall]. split.
    + rewrite fmap_cons. cbn [snd]. by rewrite Hl.
    + by constructor.
Qed.

Lemma with_int_keys_raise l e :
  with_int_keys l = Raise e →
  e = ValueError ∧ ∃ item, item ∈ l ∧ Py.int_of_str item.1 = None.
Proof.
  induction l as [|item l IH]; simpl; [done|].
  destruct (Py.int_of_str item.1) as [k|] eqn:Hk.
  - destruct (with_int_keys l) as [keyed'|e']; [done|]. simpl.
    intros [= <-]. destruct (IH eq_refl) as [-> (it & Hin & Hnone)].
    split; [done|]. exists it. split; [by right|done].
  - intros [= <-]. split; [done|]. exists item. split; [left|done].
Qed.

End count.

Lemma sorted_rows_of_keyed (keyed : list (Z * (string * Z))) :
  Forall (λ kr, Py.int_of_str kr.2.1 = Some kr.1) keyed →
  StronglySorted (λ a b, a.1 ≤ b.1) keyed →
  StronglySorted (λ r1 r2, numeric_id r1 ≤ numeric_id r2) (snd <$> keyed).
Proof.
  induction keyed as [|kr keyed IH]; intros Hall Hs; [constructor|].
  apply Forall_cons in Hall as [Hkr Hall].
  apply StronglySorted_inv in Hs as [Hs Hle].
  rewrite fmap_cons. constructor; [by apply IH|].
  apply Forall_fmap. apply Forall_forall. intros kr' Hin. simpl.
  rewrite Forall_forall in Hall, Hle.
  unfold numeric_id. rewrite Hkr, (Hall _ Hin). simpl. by apply Hle.
Qed.

Lemma sorted_items_ok counts rows :
  sorted_items counts = Ok rows →
  rows ≡ₚ counts
  ∧ StronglySorted (λ r1 r2, numeric_id r1 ≤ numeric_id r2) rows
  ∧ Forall (λ r, is_Some (Py.int_of_str r.1)) rows.
Proof.
  unfold sorted_items. destruct (with_int_keys counts) as [keyed|] eqn:Hk; [|done].
  simpl. intros [= <-]. apply with_int_keys_ok in Hk as [Hl Hall].
  assert (Hall' : Forall (λ kr, Py.int_of_str kr.2.1 = Some kr.1) (stable_sort keyed)).
  { by rewrite stable_sort_perm. }
  split; [by rewrite stable_sort_perm, Hl|].
  split; [apply sorted_rows_of_keyed; [done|apply stable_sort_sorted]|].
  apply Forall_fmap. eapply Forall_impl; [exact Hall'|].
  intros kr Hkr. simpl. by rewrite Hkr.
Qed.

Lemma counter_get_class_counts files c :
  counter_get c (class_counts_of files) = lines_of_class c files.
Proof. unfold class_counts_of. by rewrite counter_get_files. Qed.

Lemma class_counts_rows files c n :
  (c, n) ∈ class_counts_of files ↔ n = lines_of_class c files ∧ 1 ≤ n.
Proof.
  destruct (class_counts_ok files []) as [Hnd Hpos].
  { split; [constructor|]. intros c' n' Hin. by apply elem_of_nil in Hin. }
  fold (class_counts_of files) in Hnd, Hpos.
  split.
  - intros Hin. split; [|by eapply Hpos].
    by rewrite <- counter_get_class_counts, (counter_get_elem _ _ _ Hnd Hin).
  - intros [-> Hn]. rewrite <- counter_get_class_counts in *.
    apply counter_get_found; [done|].
    destruct (decide (c ∈ (class_counts_of files).*1)) as [|Hnin]; [done|].
    rewrite counter_get_missing in Hn by done. lia.
Qed.

Lemma class_counts_nodup files : NoDup (class_counts_of files).*1.
Proof.
  apply (class_counts_ok files []).
  split; [constructor|]. intros c' n' Hin. by apply elem_of_nil in Hin.
Qed.

Section first_token.
Implicit Types (s cur tok ws rest line : string) (c : string).

Lemma all_space_cons a s :
  all_space (String a s) ↔ Py.is_space a = true ∧ all_space s.
Proof. unfold all_space. cbn [list_ascii_of_string]. by rewrite Forall_cons. Qed.

Lemma no_space_cons a s :
  no_space (String a s) ↔ Py.is_space a = false ∧ no_space s.
Proof. unfold no_space. cbn [list_ascii_of_string]. by rewrite Forall_cons. Qed.

(** While a token is being read: [cur] is what has been read of it. *)
Lemma head_split_from_token s : ∀ cur c,
  cur ≠ "" →
  head (Py.split_from s cur) = Some c
  ↔ ∃ tok rest, s = tok +:+ rest ∧ no_space tok ∧ at_boundary rest ∧ c = cur +:+ tok.
Proof.
  induction s as [|a s IH]; intros cur c Hcur; cbn [Py.split_from].
  - destruct (String.eqb_spec cur "") as [|_]; [done|]. cbn [head]. split.
    + intros [= <-]. exists "", "".
      split; [done|]. split; [constructor|]. split; [done|]. by rewrite str_app_nil_r.
    + intros (tok & rest & Heq & _ & _ & ->).
      destruct tok; [by rewrite str_app_nil_r|]. by rewrite str_app_cons in Heq.
  - destruct (Py.is_space a) eqn:Ha.
    + destruct (String.eqb_spec cur "") as [|_]; [done|]. cbn [head]. split.
      * intros [= <-]. exists "", (String a s).
        split; [done|]. split; [constructor|]. split; [exact Ha|].
        by rewrite str_app_nil_r.
      * intros (tok & rest & Heq & Htok & _ & ->). destruct tok as [|b tok].
        { by rewrite str_app_nil_r. }
        rewrite str_app_cons in Heq. injection Heq as <- _.
        apply no_space_cons in Htok as [Hb _]. congruence.
    + rewrite IH by (by destruct cur). split.
      * intros (tok & rest & -> & Htok & Hrest & ->).
        exists (String a tok), rest.
        split; [done|]. split; [by apply no_space_cons|]. split; [done|].
        by rewrite str_app_assoc.
      * intros (tok & rest & Heq & Htok & Hrest & ->). destruct tok as [|b tok].
        { rewrite str_app_nil_l in Heq. subst rest. cbn in Hrest. congruence. }
        rewrite str_app_cons in Heq. injection Heq as <- ->.
        apply no_space_cons in Htok as [_ Htok].
        exists tok, rest. split; [done|]. split; [done|]. split; [done|].
        by rewrite str_app_assoc.
Qed.

(** The first token of a line: what stands between the leading white
    space and the next white space or the end of the line. *)
Lemma first_token_iff line c :
  first_token line = Some c
  ↔ ∃ ws rest, line = ws +:+ c +:+ rest
               ∧ all_space ws ∧ c ≠ "" ∧ no_space c ∧ at_boundary rest.
Proof.
  unfold first_token, Py.split.
  induction line as [|a s IH]; cbn [Py.split_from].
  - cbn. split; [done|]. intros (ws & rest & Heq & _ & Hc & _).
    destruct ws; [|done]. rewrite str_app_nil_l in Heq. by destruct c.
  - destruct (Py.is_space a) eqn:Ha.
    + cbn [String.eqb]. rewrite IH. split.
      * intros (ws & rest & -> & Hws & Hc & Hns & Hrest).
        exists (String a ws), rest. split; [done|]. split; [by apply all_space_cons|done].
      * intros (ws & rest & Heq & Hws & Hc & Hns & Hrest). destruct ws as [|b ws].
        { rewrite str_app_nil_l in Heq. destruct c as [|b c]; [done|].
          rewrite str_app_cons in Heq. injection Heq as <- _.
          apply no_space_cons in Hns as [Hb _]. congruence. }
        rewrite str_app_cons in Heq. injection Heq as <- ->.
        apply all_space_cons in Hws as [_ Hws]. by exists ws, rest.
    + rewrite str_app_nil_l, head_split_from_token by done. split.
      * intros (tok & rest & -> & Htok & Hrest & ->).
        exists "", rest. rewrite str_app_nil_l, !str_app_cons, str_app_nil_l.
        split; [done|]. split; [constructor|]. split; [done|].
        split; [by apply no_space_cons|done].
      * intros (ws & rest & Heq & Hws & Hc & Hns & Hrest). destruct ws as [|b ws].
        -- rewrite str_app_nil_l in Heq. destruct c as [|b c]; [done|].
           rewrite str_app_cons in Heq. injection Heq as <- ->.
           apply no_space_cons in Hns as [_ Hns].
           exists c, rest. by rewrite str_app_cons, str_app_nil_l.
        -- rewrite str_app_cons in Heq. injection Heq as <- _.
           apply all_space_cons in Hws as [Hb _]. congruence.
Qed.

Lemma elem_of_txt_files (folder_path : list (string * list string)) file :
  file ∈ txt_files folder_path
  ↔ file ∈ folder_path ∧ ∃ stem, file.1 = stem +:+ ".txt".
Proof.
  unfold txt_files. rewrite list_elem_of_filter. cbn beta.
  rewrite endswith_iff. tauto.
Qed.

End first_token.

(** C7, as the code has it. [count_class_ids] reads the files of the
    folder whose name ends in [.txt], in listing order, and takes the
    first white-space-delimited token of each line as the class
    identifier; the count kept for an identifier is the number of lines,
    over all these files, whose first token it is. The table is printed
    only when every identifier that occurs is an integer literal that
    [int] accepts: one row [Class ID <c>: <count> occurrences] per
    identifier, with that count, in ascending order of the identifiers
    read as numbers. Otherwise, exactly when some identifier that occurs
    is no such literal, [sorted] raises [ValueError] and no row is
    printed. The last part runs the example of the specification. *)
Theorem count_class_ids_counts (folder_path : list (string * list string)) :
  txt_files folder_path `sublist_of` folder_path
  ∧ (∀ file, file ∈ txt_files folder_path
             ↔ file ∈ folder_path ∧ ∃ stem, file.1 = stem +:+ ".txt")
  ∧ (∀ line c, first_token line = Some c
               ↔ ∃ ws rest, line = ws +:+ c +:+ rest
                            ∧ all_space ws ∧ c ≠ "" ∧ no_space c ∧ at_boundary rest)
  ∧ (∀ c, counter_get c (class_counts_of (txt_files folder_path))
          = lines_of_class c (txt_files folder_path))
  ∧ match count_class_ids folder_path with
    | Ok printed =>
        (txt_files folder_path = []
         ∧ printed = ["No .txt files found in the specified folder."])
        ∨ ∃ rows,
            printed
            = ["" ; "Class ID Counts:"]
              ++ ((λ row : string * Z,
                     "Class ID " +:+ row.1 +:+ ": " +:+ pretty row.2 +:+ " occurrences")
                    <$> rows)
            ∧ rows ≡ₚ class_counts_of (txt_files folder_path)
            ∧ NoDup rows.*1
            ∧ StronglySorted (λ r1 r2, numeric_id r1 ≤ numeric_id r2) rows
            ∧ Forall (λ r, is_Some (Py.int_of_str r.1)) rows
            ∧ (∀ c n, (c, n) ∈ rows
                      ↔ n = lines_of_class c (txt_files folder_path) ∧ 1 ≤ n)
    | Raise e =>
        e = ValueError
        ∧ ∃ c, 1 ≤ lines_of_class c (txt_files folder_path) ∧ Py.int_of_str c = None
    end
  ∧ (count_class_ids folder_path = Raise ValueError
     ↔ ∃ c, 1 ≤ lines_of_class c (txt_files folder_path) ∧ Py.int_of_str c = None)
  ∧ count_class_ids label_folder
    = Ok [""; "Class ID Counts:"; "Class ID 0: 1 occurrences";
          "Class ID 3: 3 occurrences"; "Class ID 10: 1 occurrences"].
Proof.
  split; [apply sublist_filter|].
  split; [apply elem_of_txt_files|].
  split; [apply first_token_iff|].
  split; [intros c; apply counter_get_class_counts|].
  assert (Hmain :
    match count_class_ids folder_path with
    | Ok printed =>
        (txt_files folder_path = []
         ∧ printed = ["No .txt files found in the specified folder."])
        ∨ ∃ rows,
            printed = ["" ; "Class ID Counts:"] ++ (row_text <$> rows)
            ∧ rows ≡ₚ class_counts_of (txt_files folder_path)
            ∧ NoDup rows.*1
            ∧ StronglySorted (λ r1 r2, numeric_id r1 ≤ numeric_id r2) rows
            ∧ Forall (λ r, is_Some (Py.int_of_str r.1)) rows
            ∧ (∀ c n, (c, n) ∈ rows
                      ↔ n = lines_of_class c (txt_files folder_path) ∧ 1 ≤ n)
    | Raise e =>
        e = ValueError
        ∧ ∃ c, 1 ≤ lines_of_class c (txt_files folder_path) ∧ Py.int_of_str c = None
    end).
  { unfold count_class_ids.
    destruct (txt_files folder_path) as [|file files'] eqn:Hfiles; [left; done|].
    set (files := file :: files').
    destruct (sorted_items (class_counts_of files)) as [rows|e] eqn:Hsort.
    - right. exists rows. apply sorted_items_ok in Hsort as (Hperm & Hsorted & Hints).
      split; [done|]. split; [done|].
      split; [rewrite Hperm; apply class_counts_nodup|]. split; [done|]. split; [done|].
      intros c n. rewrite Hperm. apply class_counts_rows.
    - unfold sorted_items in Hsort.
      destruct (with_int_keys (class_counts_of files)) as [|e'] eqn:Hk; [done|].
      injection Hsort as <-.
      apply with_int_keys_raise in Hk as [-> ([c n] & Hin & Hnone)].
      split; [done|]. exists c. split; [|done].
      apply class_counts_rows in Hin as [Heq Hn]. by rewrite <- Heq. }
  split; [exact Hmain|]. split; [|by vm_compute].
  destruct (count_class_ids folder_path) as [printed|e].
  - split; [done|]. intros (c & Hc & Hnone). exfalso.
    destruct Hmain as [[Hnil _]|(rows & _ & _ & _ & _ & Hints & Hrows)].
    + rewrite Hnil in Hc. unfold lines_of_class in Hc. cbn in Hc. lia.
    + assert ((c, lines_of_class c (txt_files folder_path)) ∈ rows) as Hin
        by (by apply Hrows).
      rewrite Forall_forall in Hints. destruct (Hints _ Hin) as [k Hk].
      cbn in Hk. congruence.
  - destruct Hmain as [-> Hc]. done.
Qed.

(** C7 as stated fails: the table is not always printed. A class
    identifier that [int] does not accept, such as [car] or [1.0], makes
    [sorted] raise [ValueError]: no count is reported, for any class. *)
Lemma class_id_not_a_number_counterexample :
  count_class_ids [("a.txt", ["3 0.1 0.2 0.3 0.4"; "car 0.5 0.5 0.1 0.1"])]
  = Raise ValueError
  ∧ count_class_ids [("a.txt", ["3 0.1 0.2 0.3 0.4"; "1.0 0.5 0.5 0.1 0.1"])]
    = Raise ValueError
  ∧ lines_of_class "3" [("a.txt", ["3 0.1 0.2 0.3 0.4"; "1.0 0.5 0.5 0.1 0.1"])] = 1.
Proof. by vm_compute. Qed.

(** ** Random subsampling: how many files are kept *)

Section subsample.
Implicit Types (folder : gmap string Content) (name : string).

Lemma listdir_nodup folder : NoDup (listdir folder).
Proof. apply NoDup_fst_map_to_list. Qed.

Lemma elem_of_listdir folder name : name ∈ listdir folder ↔ is_Some (folder !! name).
Proof.
  unfold listdir. rewrite list_elem_of_fmap. split.
  - intros ([k v] & -> & Hin). apply elem_of_map_to_list in Hin. by exists v.
  - intros [v Hv]. exists (name, v). split; [done|]. by apply elem_of_map_to_list.
Qed.

Lemma jpg_frames_nodup folder : NoDup (jpg_frames folder).
Proof. apply NoDup_filter, listdir_nodup. Qed.

Lemma elem_of_jpg_frames folder name :
  name ∈ jpg_frames folder ↔ is_jpg name = true ∧ is_Some (folder !! name).
Proof. unfold jpg_frames. by rewrite list_elem_of_filter, elem_of_listdir. Qed.

Lemma pool_imap_remove_spec (tasks : list (string * bool)) : ∀ folder,
  NoDup tasks.*1 →
  (∀ name, name ∈ tasks.*1 → is_Some (folder !! name)) →
  (pool_imap_remove folder tasks).2 = tasks.*2
  ∧ ∀ name, (pool_imap_remove folder tasks).1 !! name
            = if decide ((name, true) ∈ tasks) then None else folder !! name.
Proof.
  induction tasks as [|[frame flag] tasks IH]; intros folder Hnd Hin.
  - split; [done|]. intros name. rewrite decide_False; [done|]. apply not_elem_of_nil.
  - rewrite fmap_cons in Hnd. apply NoDup_cons in Hnd as [Hfresh Hnd].
    cbn [pool_imap_remove].
    assert (∃ folder1, remove_frame folder (frame, flag) = (folder1, flag)
              ∧ ∀ name, folder1 !! name
                        = if decide (name = frame ∧ flag = true) then None else folder !! name)
      as (folder1 & -> & Hf1).
    { unfold remove_frame, os_remove. destruct flag.
      - destruct (Hin frame) as [v Hv]; [rewrite fmap_cons; left|]. rewrite Hv.
        eexists. split; [done|]. intros name.
        destruct (decide (name = frame)) as [->|Hne].
        + rewrite decide_True by done. apply lookup_delete_eq.
        + rewrite decide_False by tauto. by apply lookup_delete_ne.
      - exists folder. split; [done|]. intros name.
        rewrite decide_False; [done|]. intros [_ ?]. done. }
    destruct (IH folder1 Hnd) as [Hflags Hlook].
    { intros name Hname. rewrite Hf1. rewrite decide_False.
      - apply Hin. rewrite fmap_cons. by right.
      - intros [-> _]. done. }
    destruct (pool_imap_remove folder1 tasks) as [folder2 flags].
    simpl in Hflags, Hlook. simpl. split; [by rewrite Hflags|].
    intros name. rewrite Hlook, Hf1.
    destruct (decide ((name, true) ∈ tasks)) as [Ht|Ht].
    + rewrite decide_True; [done|]. by right.
    + destruct (decide (name = frame ∧ flag = true)) as [[-> ->]|Hne].
      * rewrite decide_True; [done|]. left.
      * rewrite decide_False; [done|].
        intros [Heq|?]%elem_of_cons; [|done]. injection Heq as -> <-. tauto.
Qed.

Lemma sum_flags_count (l : list string) (P : string → bool) :
  sum_flags (P <$> l) = Z.of_nat (length (filter (λ x, P x = true) l)).
Proof.
  induction l as [|x l IH]; [done|].
  rewrite fmap_cons, filter_cons. cbn [sum_flags foldr]. fold (sum_flags (P <$> l)).
  rewrite IH. destruct (P x); [rewrite decide_True by done|rewrite decide_False by done];
    simpl length; lia.
Qed.

Lemma filter_in_out_length (population kept : list string) :
  (length (filter (λ x, bool_decide (x ∉ kept) = true) population)
   + length (filter (λ x, x ∈ kept) population))%nat
  = length population.
Proof.
  induction population as [|x l IH]; [done|].
  rewrite !filter_cons. destruct (decide (x ∈ kept)) as [Hin|Hout].
  - rewrite decide_False; [simpl; lia|].
    intros Hb. apply bool_decide_eq_true in Hb. done.
  - rewrite decide_True; [simpl; lia|]. by apply bool_decide_eq_true.
Qed.

(** Of a population without repetitions, all but the sample is removed. *)
Lemma removed_count_of_sample (population kept : list string) :
  NoDup population → NoDup kept → (∀ x, x ∈ kept → x ∈ population) →
  length (filter (λ x, bool_decide (x ∉ kept) = true) population)
  = (length population - length kept)%nat.
Proof.
  intros Hp Hk Hsub.
  assert (filter (λ x, x ∈ kept) population ≡ₚ kept) as Hperm.
  { apply NoDup_Permutation; [by apply NoDup_filter|done|].
    intros x. rewrite list_elem_of_filter. naive_solver. }
  pose proof (filter_in_out_length population kept) as Hlen.
  rewrite Hperm in Hlen. lia.
Qed.

(** What one run does to a folder, once the number of frames to keep is
    known to be at most the number of frames. *)
Lemma process_folder_spec choose folder (k : spec_float) (m : Z) :
  samples_without_replacement choose →
  1 ≤ jpg_count folder →
  frames_to_keep_of (jpg_count folder) k = Ok m →
  0 ≤ m ≤ jpg_count folder →
  let kept := choose (jpg_frames folder) (Z.to_nat m) in
  ∃ folder',
    process_folder choose folder k = (folder', Ok (jpg_count folder, m, jpg_count folder - m))
    ∧ (∀ name, folder' !! name
               = if decide (name ∈ jpg_frames folder ∧ name ∉ kept) then None
                 else folder !! name)
    ∧ jpg_frames folder' ≡ₚ kept
    ∧ jpg_count folder' = m.
Proof.
  intros Hchoose HF Hm Hrange kept.
  destruct (Hchoose (jpg_frames folder) (Z.to_nat m) (jpg_frames_nodup folder))
    as (Hklen & Hknd & Hksub); [unfold jpg_count in *; lia|].
  fold kept in Hklen, Hknd, Hksub.
  unfold process_folder. fold (jpg_count folder).
  destruct (Z.eqb_spec (jpg_count folder) 0) as [|_]; [lia|].
  rewrite Hm. unfold random_sample.
  destruct (Z.ltb_spec m 0) as [|_]; [lia|].
  destruct (Z.ltb_spec (Z.of_nat (length (jpg_frames folder))) m) as [|_];
    [unfold jpg_count in *; lia|].
  cbn [orb]. fold kept.
  set (tasks := (λ frame, (frame, bool_decide (frame ∉ kept))) <$> jpg_frames folder).
  assert (tasks.*1 = jpg_frames folder) as Htasks1.
  { unfold tasks. rewrite <- list_fmap_compose. apply list_fmap_id. }
  assert (tasks.*2 = (λ frame, bool_decide (frame ∉ kept)) <$> jpg_frames folder) as Htasks2.
  { unfold tasks. by rewrite <- list_fmap_compose. }
  destruct (pool_imap_remove_spec tasks folder) as [Hflags Hlook].
  { rewrite Htasks1. apply jpg_frames_nodup. }
  { intros name. rewrite Htasks1, elem_of_jpg_frames. tauto. }
  destruct (pool_imap_remove folder tasks) as [folder' results].
  simpl in Hflags, Hlook. exists folder'.
  assert (Hlook' : ∀ name, folder' !! name
            = if decide (name ∈ jpg_frames folder ∧ name ∉ kept) then None
              else folder !! name).
  { intros name. rewrite Hlook.
    destruct (decide (name ∈ jpg_frames folder ∧ name ∉ kept)) as [[Hin Hout]|Hno].
    - rewrite decide_True; [done|]. unfold tasks. apply list_elem_of_fmap.
      exists name. split; [|done]. f_equal. symmetry. by apply bool_decide_eq_true.
    - rewrite decide_False; [done|]. unfold tasks.
      intros (x & Heq & Hx)%list_elem_of_fmap. injection Heq as -> Hb.
      symmetry in Hb. apply bool_decide_eq_true in Hb. tauto. }
  assert (Hperm : jpg_frames folder' ≡ₚ kept).
  { apply NoDup_Permutation; [apply jpg_frames_nodup|done|].
    intros name. rewrite elem_of_jpg_frames, Hlook'. split.
    - intros [Hjpg Hsome]. case_decide as Hd; [by destruct Hsome|].
      destruct (decide (name ∈ kept)) as [|Hout]; [done|].
      exfalso. apply Hd. split; [|done]. by apply elem_of_jpg_frames.
    - intros Hin. pose proof (Hksub _ Hin) as Hjpg.
      apply elem_of_jpg_frames in Hjpg as [Hjpg Hsome].
      split; [done|]. rewrite decide_False; [done|]. tauto. }
  split; [|split; [done|split; [done|]]].
  - do 3 f_equal. rewrite Hflags, Htasks2, sum_flags_count.
    rewrite removed_count_of_sample; [|apply jpg_frames_nodup|done|done].
    unfold jpg_count in *. lia.
  - unfold jpg_count. rewrite Hperm. lia.
Qed.

End subsample.

Lemma choose_first_samples : samples_without_replacement choose_first.
Proof.
  intros population k Hnd Hk. unfold choose_first. split; [|split].
  - rewrite length_take. lia.
  - eapply sublist_NoDup; [exact Hnd|apply sublist_take].
  - intros x (i & Hi & _)%elem_of_take. by eapply list_elem_of_lookup_2.
Qed.

(** C2, as the code has it. For a folder with [F >= 1] image files
    ([.jpg], fewer than [2^53]) and a keep-fraction [k] in [[0, 1]], one
    run of [process_folder] keeps exactly [int(F * k)] files, the product
    being the binary64 one: the kept files are the sample drawn without
    replacement, every other image file is deleted ([F] minus the kept
    count, which is what the call returns), and the other files of the
    folder are left alone. The count is at most [F], so the sampling
    never fails. It is the floor of the exact product of [F] and [k], or
    one more than that floor, when the binary64 product rounds up to an
    integer. *)
Theorem process_folder_keeps_floor (choose : list string → nat → list string)
    (folder : gmap string Content) (k : spec_float) :
  samples_without_replacement choose →
  1 ≤ jpg_count folder < 2 ^ 53 →
  Float.in_unit_interval k = true →
  ∃ kept folder',
    frames_to_keep_of (jpg_count folder) k = Ok kept
    ∧ 0 ≤ kept ≤ jpg_count folder
    ∧ Float.exact_floor_mul (jpg_count folder) k ≤ kept
      ≤ Float.exact_floor_mul (jpg_count folder) k + 1
    ∧ process_folder choose folder k
      = (folder', Ok (jpg_count folder, kept, jpg_count folder - kept))
    ∧ jpg_count folder' = kept
    ∧ jpg_frames folder' ≡ₚ choose (jpg_frames folder) (Z.to_nat kept)
    ∧ ∀ name, folder' !! name
              = if decide (name ∈ jpg_frames folder
                           ∧ name ∉ choose (jpg_frames folder) (Z.to_nat kept))
                then None else folder !! name.
Proof.
  intros Hchoose HF Hk.
  destruct (int_mul_unit_interval (jpg_count folder) k HF Hk) as (m & Hm & Hfloor & Hrange).
  destruct (process_folder_spec choose folder k m Hchoose ltac:(lia) Hm Hrange)
    as (folder' & Hrun & Hlook & Hperm & Hcount).
  exists m, folder'. done.
Qed.

Lemma process_folder_keeps_floor_witness :
  samples_without_replacement choose_first
  ∧ 1 ≤ jpg_count (frames_folder 10) < 2 ^ 53
  ∧ Float.in_unit_interval (Float.of_ratio 8 10) = true
  ∧ ∃ folder', process_folder choose_first (frames_folder 10) (Float.of_ratio 8 10)
               = (folder', Ok (10, 8, 2))
               ∧ jpg_count folder' = 8.
Proof.
  assert (Hcount : jpg_count (frames_folder 10) = 10) by (by vm_compute).
  split; [exact choose_first_samples|].
  split; [rewrite Hcount; lia|].
  split; [by vm_compute|].
  destruct (process_folder_keeps_floor choose_first (frames_folder 10) (Float.of_ratio 8 10)
              choose_first_samples) as (kept & folder' & Hkept & _ & _ & Hrun & Hjpg & _).
  { rewrite Hcount. lia. }
  { by vm_compute. }
  rewrite Hcount in Hkept, Hrun.
  assert (kept = 8) as -> by (vm_compute in Hkept; congruence).
  exists folder'. split; [exact Hrun|exact Hjpg].
Defined.

(** C2 as stated fails: the kept count is not always the floor of the
    product. With ten images and the keep-fraction 0.7 (the binary64
    number nearest to 7/10, which is below it) the exact product is below
    7 and its floor is 6, but the binary64 product is 7.0: the run keeps
    7 files and removes 3. *)
Lemma keeps_floor_counterexample :
  Float.in_unit_interval (Float.of_ratio 7 10) = true
  ∧ jpg_count (frames_folder 10) = 10
  ∧ Float.exact_floor_mul 10 (Float.of_ratio 7 10) = 6
  ∧ frames_to_keep_of 10 (Float.of_ratio 7 10) = Ok 7
  ∧ (process_folder choose_first (frames_folder 10) (Float.of_ratio 7 10)).2
    = Ok (10, 7, 3)
  ∧ jpg_count (process_folder choose_first (frames_folder 10) (Float.of_ratio 7 10)).1
    = 7.
Proof. by vm_compute. Qed.

(** The scenario of the specification, run: ten images and a keep
    fraction of 0.8 leave eight images (and the text file). *)
Example process_folder_10_images :
  let '(folder', outcome) :=
    process_folder choose_first (frames_folder 10) (Float.of_ratio 8 10) in
  outcome = Ok (10, 8, 2) ∧ jpg_count folder' = 8 ∧ size folder' = 9%nat.
Proof. vm_compute. done. Qed.

Lemma frames_to_keep_of_empty (k : spec_float) :
  Float.in_unit_interval k = true → frames_to_keep_of 0 k = Ok 0.
Proof. destruct k as [s| | |[] m e]; done. Qed.

Lemma frames_to_keep_of_unit (F : Z) (k : spec_float) :
  0 ≤ F < 2 ^ 53 → Float.in_unit_interval k = true →
  ∃ m, frames_to_keep_of F k = Ok m
       ∧ Float.exact_floor_mul F k ≤ m ≤ Float.exact_floor_mul F k + 1
       ∧ 0 ≤ m ≤ F.
Proof.
  intros HF Hk. destruct (decide (F = 0)) as [->|HF0].
  - exists 0. split; [by apply frames_to_keep_of_empty|].
    split; [|lia]. unfold Float.exact_floor_mul.
    destruct k as [s| | |[] m e]; try lia.
    rewrite !Z.mul_0_l, Zdiv_0_l. destruct (0 <=? e); lia.
  - apply int_mul_unit_interval; [lia|done].
Qed.

Lemma process_folder_empty choose (folder : gmap string Content) (k : spec_float) :
  jpg_count folder = 0 → process_folder choose folder k = (folder, Ok (0, 0, 0)).
Proof.
  intros H0. unfold process_folder. fold (jpg_count folder). by rewrite H0.
Qed.

(** C4, as the code has it. Running [process_folder] a second time on
    the folder the first run left, with the same keep-fraction [k] in
    [[0, 1]], keeps exactly [int(kept * k)] files, where [kept] is the
    number the first run kept and the product is the binary64 one, as in
    the first run: the floor of the exact product, or one more than it.
    This holds for every folder with fewer than [2^53] image files, an
    empty one included, for which both runs return [(0, 0, 0)]. *)
Theorem process_folder_twice (choose1 choose2 : list string → nat → list string)
    (folder : gmap string Content) (k : spec_float) :
  samples_without_replacement choose1 →
  samples_without_replacement choose2 →
  jpg_count folder < 2 ^ 53 →
  Float.in_unit_interval k = true →
  ∃ kept folder1 kept2 folder2 outcome2,
    frames_to_keep_of (jpg_count folder) k = Ok kept
    ∧ process_folder choose1 folder k
      = (folder1, Ok (jpg_count folder, kept, jpg_count folder - kept))
    ∧ jpg_count folder1 = kept
    ∧ process_folder choose2 folder1 k = (folder2, outcome2)
    ∧ outcome2 = (if kept =? 0 then Ok (0, 0, 0) else Ok (kept, kept2, kept - kept2))
    ∧ frames_to_keep_of kept k = Ok kept2
    ∧ jpg_count folder2 = kept2
    ∧ 0 ≤ kept2 ≤ kept
    ∧ Float.exact_floor_mul kept k ≤ kept2 ≤ Float.exact_floor_mul kept k + 1.
Proof.
  intros Hc1 Hc2 HF Hk.
  assert (HF0 : 0 ≤ jpg_count folder) by (unfold jpg_count; lia).
  destruct (frames_to_keep_of_unit (jpg_count folder) k ltac:(lia) Hk)
    as (kept & Hkept & _ & Hrange).
  assert (∃ folder1,
            process_folder choose1 folder k
            = (folder1, Ok (jpg_count folder, kept, jpg_count folder - kept))
            ∧ jpg_count folder1 = kept) as (folder1 & Hrun1 & Hcount1).
  { destruct (decide (jpg_count folder = 0)) as [H0|Hne].
    - exists folder. rewrite process_folder_empty by done.
      assert (kept = 0) as -> by lia. by rewrite H0.
    - destruct (process_folder_spec choose1 folder k kept Hc1 ltac:(lia) Hkept Hrange)
        as (folder1 & Hrun1 & _ & _ & Hcount1).
      by exists folder1. }
  destruct (frames_to_keep_of_unit kept k ltac:(lia) Hk)
    as (kept2 & Hkept2 & Hfloor2 & Hrange2).
  exists kept, folder1, kept2.
  destruct (decide (kept = 0)) as [->|Hne].
  - assert (kept2 = 0) as -> by lia.
    exists folder1, (Ok (0, 0, 0)).
    rewrite (process_folder_empty choose2 folder1) by done. done.
  - rewrite <- Hcount1 in Hkept2, Hrange2.
    destruct (process_folder_spec choose2 folder1 k kept2 Hc2 ltac:(lia) Hkept2 Hrange2)
      as (folder2 & Hrun2 & _ & _ & Hcount2).
    rewrite Hcount1 in *.
    exists folder2, (Ok (kept, kept2, kept - kept2)).
    destruct (Z.eqb_spec kept 0); [done|]. done.
Qed.

Lemma process_folder_twice_witness :
  samples_without_replacement choose_first
  ∧ jpg_count (frames_folder 10) < 2 ^ 53
  ∧ Float.in_unit_interval (Float.of_ratio 8 10) = true
  ∧ ∃ folder1 folder2,
      process_folder choose_first (frames_folder 10) (Float.of_ratio 8 10)
      = (folder1, Ok (10, 8, 2))
      ∧ process_folder choose_first folder1 (Float.of_ratio 8 10)
        = (folder2, Ok (8, 6, 2))
      ∧ jpg_count folder2 = 6.
Proof.
  assert (Hcount : jpg_count (frames_folder 10) = 10) by (by vm_compute).
  split; [exact choose_first_samples|].
  split; [rewrite Hcount; lia|].
  split; [by vm_compute|].
  destruct (process_folder_twice choose_first choose_first (frames_folder 10)
              (Float.of_ratio 8 10) choose_first_samples choose_first_samples)
    as (kept & folder1 & kept2 & folder2 & outcome2
        & Hkept & Hrun1 & Hcount1 & Hrun2 & Hout2 & Hkept2 & Hcount2 & _).
  { rewrite Hcount. lia. }
  { by vm_compute. }
  rewrite Hcount in Hrun1, Hkept.
  assert (kept = 8) as -> by (vm_compute in Hkept; congruence).
  assert (kept2 = 6) as -> by (vm_compute in Hkept2; congruence).
  exists folder1, folder2. subst outcome2.
  split; [exact Hrun1|]. split; [exact Hrun2|exact Hcount2].
Defined.

(** C4 as stated fails: the second run does not always keep the floor of
    the product. Fifteen images at the keep-fraction 0.7 leave 10 after
    the first run; the exact product of 10 and the binary64 number 0.7
    is below 7, with floor 6, but the second run keeps 7 files, since the
    binary64 product is 7.0. *)
Lemma second_run_counterexample :
  Float.in_unit_interval (Float.of_ratio 7 10) = true
  ∧ jpg_count (frames_folder 15) = 15
  ∧ (process_folder choose_first (frames_folder 15) (Float.of_ratio 7 10)).2
    = Ok (15, 10, 5)
  ∧ Float.exact_floor_mul 10 (Float.of_ratio 7 10) = 6
  ∧ (process_folder choose_first
       (process_folder choose_first (frames_folder 15) (Float.of_ratio 7 10)).1
       (Float.of_ratio 7 10)).2
    = Ok (10, 7, 3).
Proof. by vm_compute. Qed.

(** ** Keep-fractions above 1 *)

(** C10, as the code has it. For a keep-fraction above 1 and a folder with
    at least one [.jpg] file, [process_folder] deletes nothing. It raises
    before any deletion task runs when [int(F * k)] exceeds [F] (the
    sample would be larger than the population: [ValueError]) or when the
    product is infinite ([OverflowError]); when [int(F * k)] is [F]
    itself it raises nothing and returns [(F, F, 0)]. *)
Theorem process_folder_above_one (choose : list string → nat → list string)
    (folder : gmap string Content) (k : spec_float) :
  samples_without_replacement choose →
  1 ≤ jpg_count folder < 2 ^ 53 →
  Float.above_one k = true →
  (process_folder choose folder k).1 = folder
  ∧ match frames_to_keep_of (jpg_count folder) k with
    | Raise e =>
        e = OverflowError ∧ (process_folder choose folder k).2 = Raise OverflowError
    | Ok m =>
        jpg_count folder ≤ m
        ∧ (process_folder choose folder k).2
          = if jpg_count folder <? m then Raise ValueError
            else Ok (jpg_count folder, jpg_count folder, 0)
    end.
Proof.
  intros Hchoose HF Hk.
  pose proof (int_mul_above_one (jpg_count folder) k HF Hk) as Hm.
  fold (frames_to_keep_of (jpg_count folder) k) in Hm.
  destruct (frames_to_keep_of (jpg_count folder) k) as [m|e] eqn:Hkeep.
  - destruct (Z.ltb_spec (jpg_count folder) m) as [Hlt|Hle].
    + assert (process_folder choose folder k = (folder, Raise ValueError)) as ->.
      { unfold process_folder. fold (jpg_count folder).
        destruct (Z.eqb_spec (jpg_count folder) 0) as [|_]; [lia|].
        rewrite Hkeep. unfold random_sample.
        destruct (Z.ltb_spec (Z.of_nat (length (jpg_frames folder))) m) as [_|];
          [|unfold jpg_count in *; lia].
        by rewrite orb_true_r. }
      done.
    + assert (m = jpg_count folder) as -> by lia.
      destruct (process_folder_spec choose folder k (jpg_count folder) Hchoose
                  ltac:(lia) Hkeep ltac:(lia))
        as (folder' & Hrun & Hlook & Hperm & _).
      rewrite Hrun, Z.sub_diag. cbn [fst snd]. split; [|done].
      apply map_eq. intros name. rewrite Hlook.
      rewrite decide_False; [done|]. intros [Hin Hout]. apply Hout.
      destruct (Hchoose (jpg_frames folder) (Z.to_nat (jpg_count folder))
                  (jpg_frames_nodup folder)) as (Hlen & Hnd & Hsub);
        [unfold jpg_count; lia|].
      assert (choose (jpg_frames folder) (Z.to_nat (jpg_count folder)) ≡ₚ jpg_frames folder)
        as Hall.
      { apply submseteq_length_Permutation.
        - apply NoDup_submseteq; [done|]. intros x. apply Hsub.
        - rewrite Hlen. unfold jpg_count. lia. }
      by rewrite Hall.
  - subst e.
    assert (process_folder choose folder k = (folder, Raise OverflowError)) as ->; [|done].
    unfold process_folder. fold (jpg_count folder).
    destruct (Z.eqb_spec (jpg_count folder) 0) as [|_]; [lia|].
    by rewrite Hkeep.
Qed.

Lemma process_folder_above_one_witness :
  samples_without_replacement choose_first
  ∧ 1 ≤ jpg_count (frames_folder 4) < 2 ^ 53
  ∧ Float.above_one (Float.of_ratio 3 2) = true
  ∧ process_folder choose_first (frames_folder 4) (Float.of_ratio 3 2)
    = (frames_folder 4, Raise ValueError).
Proof.
  assert (Hcount : jpg_count (frames_folder 4) = 4) by (by vm_compute).
  split; [exact choose_first_samples|].
  split; [rewrite Hcount; lia|].
  split; [by vm_compute|].
  destruct (process_folder_above_one choose_first (frames_folder 4) (Float.of_ratio 3 2)
              choose_first_samples) as [Hfolder Hout].
  { rewrite Hcount. lia. }
  { by vm_compute. }
  rewrite Hcount in Hout.
  change (frames_to_keep_of 4 (Float.of_ratio 3 2)) with (Ok 6 : result Z) in Hout.
  destruct Hout as [_ Hout]. change (4 <? 6) with true in Hout. cbv iota in Hout.
  destruct (process_folder choose_first (frames_folder 4) (Float.of_ratio 3 2)) as [f o].
  cbn [fst snd] in Hfolder, Hout. by rewrite Hfolder, Hout.
Defined.

(** C10 as stated fails: with one [.jpg] file and a keep-fraction of 1.5,
    [int(1 * 1.5)] is 1, the sample is the whole population, and
    [process_folder] returns normally; no exception is raised. *)
Lemma above_one_counterexample :
  Float.above_one (Float.of_ratio 3 2) = true
  ∧ jpg_count one_frame_folder = 1
  ∧ process_folder choose_first one_frame_folder (Float.of_ratio 3 2)
    = (one_frame_folder, Ok (1, 1, 0)).
Proof. by vm_compute. Qed.

(** ** Batching: the batches partition the pairs *)

Section batches.
Context {A : Type}.
Implicit Types (l : list A) (c : nat).

Lemma slice_batch l c (i : nat) :
  Z.of_nat c = BATCH_SIZE →
  slice l (Z.of_nat i * BATCH_SIZE)
        (Z.min (Z.of_nat i * BATCH_SIZE + BATCH_SIZE) (Z.of_nat (length l)))
  = take c (drop (c * i) l).
Proof.
  intros Hc. unfold slice. rewrite <- Hc.
  replace (Z.to_nat (Z.of_nat i * Z.of_nat c)) with (c * i)%nat by lia.
  set (d := drop (c * i) l).
  assert (length d = (length l - c * i)%nat) as Hd by apply length_drop.
  destruct (decide (c ≤ length d)%nat) as [Hle|Hgt].
  - f_equal. lia.
  - rewrite (take_ge d c) by lia. apply take_ge. lia.
Qed.

Lemma concat_batches l c (nb : nat) :
  concat ((λ i : nat, take c (drop (c * i) l)) <$> seq 0 nb) = take (c * nb) l.
Proof.
  induction nb as [|nb IH].
  - by rewrite Nat.mul_0_r.
  - rewrite seq_S, fmap_app, concat_app, IH. cbn [fmap list_fmap concat].
    rewrite app_nil_r, Nat.add_0_l, take_take_drop. f_equal. lia.
Qed.

End batches.

Lemma ceil_div_500_bounds (P : Z) :
  0 ≤ P →
  0 ≤ ceil_div P 500
  ∧ P ≤ 500 * ceil_div P 500
  ∧ 500 * ceil_div P 500 < P + 500.
Proof.
  intros HP. unfold ceil_div.
  pose proof (Z.div_mod (P + 500 - 1) 500 ltac:(lia)) as Hdm.
  pose proof (Z.mod_pos_bound (P + 500 - 1) 500 ltac:(lia)) as Hb.
  assert (0 ≤ (P + 500 - 1) / 500) by (apply Z.div_pos; lia).
  lia.
Qed.

(** C8. For a list of [P] pairs, [shuffle_and_split_pairs] gives exactly
    [ceil(P / 500)] batches; every batch but the last holds 500 pairs and
    the last holds the rest (between 1 and 500); the batches, one after
    the other, are the shuffled list, so every pair is in exactly one
    batch. *)
Theorem shuffle_and_split_partition (shuffle : list (string * string) → list (string * string))
    (pairs : list (string * string)) :
  shuffle pairs ≡ₚ pairs →
  Z.of_nat (length pairs) < 2 ^ 52 →
  ∃ batches,
    shuffle_and_split_pairs shuffle pairs = Ok batches
    ∧ Z.of_nat (length batches) = ceil_div (Z.of_nat (length pairs)) BATCH_SIZE
    ∧ (∀ (i : nat) batch, batches !! i = Some batch →
         if decide (S i = length batches)
         then Z.of_nat (length batch) = Z.of_nat (length pairs) - BATCH_SIZE * Z.of_nat i
              ∧ 1 ≤ Z.of_nat (length batch) ≤ BATCH_SIZE
         else Z.of_nat (length batch) = BATCH_SIZE)
    ∧ concat batches = shuffle pairs
    ∧ concat batches ≡ₚ pairs.
Proof.
  intros Hperm HP.
  pose proof (Permutation_length Hperm) as Hlen.
  unfold shuffle_and_split_pairs.
  set (l := shuffle pairs) in *.
  set (P := Z.of_nat (length l)).
  assert (P = Z.of_nat (length pairs)) as HPeq by (unfold P; lia).
  pose proof (ceil_true_div_500 P ltac:(lia)) as Hceil.
  unfold BATCH_SIZE in *.
  destruct (Float.int_true_div P 500) as [quotient|e]; [|done].
  cbn [mbind result_bind] in Hceil |- *. rewrite Hceil. cbn [mbind result_bind].
  destruct (ceil_div_500_bounds P ltac:(lia)) as (Hnb0 & Hnb1 & Hnb2).
  rewrite <- HPeq.
  set (nb := ceil_div P 500) in *.
  eexists. split; [reflexivity|].
  pose (c := 500%nat). assert (Z.of_nat c = 500) as Hc by done. clearbody c.
  assert (Hbatches :
    (λ i : Z, slice l (i * 500) (Z.min (i * 500 + 500) P)) <$> seqZ 0 nb
    = (λ i : nat, take c (drop (c * i) l)) <$> seq 0 (Z.to_nat nb)).
  { unfold seqZ. rewrite <- list_fmap_compose. apply list_fmap_ext.
    intros _ i _. simpl. rewrite Z.add_0_r. by apply (slice_batch l c i). }
  rewrite Hbatches. clear Hbatches.
  split; [rewrite length_fmap, length_seq; lia|].
  split.
  - intros i batch Hi. rewrite length_fmap, length_seq.
    rewrite list_lookup_fmap in Hi.
    destruct (seq 0 (Z.to_nat nb) !! i) as [j|] eqn:Hj; [|done].
    apply lookup_seq in Hj as [-> Hlt]. rewrite Nat.add_0_l in Hi.
    cbn [fmap option_fmap option_map] in Hi. injection Hi as <-.
    rewrite length_take, length_drop.
    assert (Z.of_nat (c * i) = 500 * Z.of_nat i) as Hci
      by (rewrite Nat2Z.inj_mul, Hc; lia).
    unfold P in *. case_decide; lia.
  - rewrite concat_batches.
    assert (Z.of_nat (c * Z.to_nat nb) = 500 * nb) as Hcn
      by (rewrite Nat2Z.inj_mul, Hc; lia).
    rewrite take_ge by (unfold P in *; lia).
    split; [done|]. exact Hperm.
Qed.

Lemma shuffle_and_split_partition_witness :
  reverse (numbered_pairs 1203) ≡ₚ numbered_pairs 1203
  ∧ Z.of_nat (length (numbered_pairs 1203)) < 2 ^ 52
  ∧ ∃ batches, shuffle_and_split_pairs reverse (numbered_pairs 1203) = Ok batches
               ∧ Z.of_nat (length batches) = 3.
Proof.
  assert (Hlen : Z.of_nat (length (numbered_pairs 1203)) = 1203).
  { unfold numbered_pairs. rewrite length_fmap, length_seq. reflexivity. }
  split; [apply reverse_Permutation|].
  split; [rewrite Hlen; lia|].
  destruct (shuffle_and_split_partition reverse (numbered_pairs 1203))
    as (batches & Hrun & Hcount & _).
  { apply reverse_Permutation. }
  { rewrite Hlen. lia. }
  exists batches. split; [exact Hrun|]. rewrite Hcount, Hlen. reflexivity.
Defined.

(** Batches of 1203 pairs: 500, 500 and 203. *)
Example shuffle_and_split_1203 :
  (λ batches : list (list (string * string)), length <$> batches)
    <$> shuffle_and_split_pairs reverse (numbered_pairs 1203)
  = Ok [500; 500; 203]%nat.
Proof. vm_compute. reflexivity. Qed.

(** ** A whole run of [extract_frames] *)

Section run.







(** Python's [%] takes the sign of the divisor, as [Z.modulo] does, so a
    remainder is zero for [-n] exactly when it is zero for [n]. *)
Lemma mod_opp_eqb a n : (a mod - n =? 0) = (a mod n =? 0).
Proof.
  destruct (decide (n = 0)) as [->|Hn]; [done|].
  destruct (Z.eqb_spec (a mod n) 0) as [H0|Hne].
  - rewrite Z.mod_opp_r_z by done. done.
  - rewrite Z.mod_opp_r_nz by done.
    apply Z.eqb_neq.
    destruct (decide (0 < n)).
    + pose proof (Z.mod_pos_bound a n ltac:(lia)). lia.
    + pose proof (Z.mod_neg_bound a n ltac:(lia)). lia.
Qed.

Lemma decode_loop_opp n folder name rest : ∀ st,
  decode_loop (- n) folder name rest st = decode_loop n folder name rest st.
Proof.
  induction rest as [|frame rest IH]; intros st; [done|].
  cbn [decode_loop]. rewrite mod_opp_eqb.
  replace (- n =? 0) with (n =? 0); [|destruct (Z.eqb_spec n 0), (Z.eqb_spec (- n) 0); lia].
  destruct (n =? 0); [done|]. apply IH.
Qed.

Lemma extract_video_opp out n acc e :
  extract_video out (- n) acc e = extract_video out n acc e.
Proof.
  destruct acc as [w stats]. unfold extract_video, extract_from_capture.
  destruct (isOpened (entry_capture e)); [|done].
  by rewrite decode_loop_opp.
Qed.

Lemma extract_videos_opp out n videos : ∀ acc,
  extract_videos out (- n) acc videos = extract_videos out n acc videos.
Proof.
  induction videos as [|e videos IH]; intros acc; [done|].
  cbn [extract_videos]. rewrite extract_video_opp.
  destruct (extract_video out n acc e); [apply IH|done].
Qed.







End run.



(** X2. A negative interval behaves as its absolute value: the remainder
    [frame_count % n] is zero for the same frames, so [extract_frames]
    with [-n] writes the same files and records the same statistics as
    with [n]. *)
Theorem negative_interval_as_positive (input_folder : list DirEntry)
    (output_folder : string) (n : Z) (w : World) (stats : ProcessingStats) :
  extract_frames input_folder output_folder (- n) w stats
  = extract_frames input_folder output_folder n w stats.
Proof. unfold extract_frames. by rewrite extract_videos_opp. Qed.




(** X5. [update_video_stats] for a video name that already has an entry
    replaces the entry but still adds to the aggregates and to the
    processed count: afterwards [total_frames] and [extracted_frames]
    exceed the sums over the per-video table by the replaced entry's
    values, and [processed_videos] exceeds the number of entries by one. *)
Theorem update_existing_video_counts_twice (s : ProcessingStats) (video_name : string)
    (t x : Z) (old : video_stat) :
  video_stats s !! video_name = Some old →
  stats_consistent s →
  let s' := update_video_stats s video_name t x in
  video_stats s' = <[video_name := {| frames := t; extracted := x |}]> (video_stats s)
  ∧ total_frames s' = sum_frames (video_stats s') + frames old
  ∧ extracted_frames s' = sum_extracted (video_stats s') + extracted old
  ∧ processed_videos s' = Z.of_nat (size (video_stats s')) + 1.
Proof.
  intros Hold (Hf & Hx & Hp) s'.
  assert (Hstats : video_stats s'
                   = <[video_name := {| frames := t; extracted := x |}]> (video_stats s)).
  { unfold s'. cbn [video_stats update_video_stats]. apply set_fields. }
  split; [done|]. rewrite Hstats.
  pose proof (insert_delete_id (video_stats s) video_name old Hold) as Hm.
  assert (Hsf : sum_frames (video_stats s)
                = frames old + sum_frames (delete video_name (video_stats s))).
  { rewrite <- Hm at 1. apply sum_frames_insert, lookup_delete_eq. }
  assert (Hsx : sum_extracted (video_stats s)
                = extracted old + sum_extracted (delete video_name (video_stats s))).
  { rewrite <- Hm at 1. apply sum_extracted_insert, lookup_delete_eq. }
  rewrite map_size_insert_Some by done.
  rewrite <- (insert_delete_eq (video_stats s)).
  rewrite sum_frames_insert, sum_extracted_insert by apply lookup_delete_eq.
  unfold s'. cbn [total_frames extracted_frames processed_videos update_video_stats].
  cbn [frames extracted]. lia.
Qed.

Lemma update_existing_video_counts_twice_witness :
  let s := update_all ProcessingStats_init [("a.mp4", 10, 5)] in
  let s' := update_video_stats s "a.mp4" 10 5 in
  video_stats s !! "a.mp4" = Some {| frames := 10; extracted := 5 |}
  ∧ stats_consistent s
  ∧ total_frames s' = sum_frames (video_stats s') + 10.
Proof.
  assert (Hold : video_stats (update_all ProcessingStats_init [("a.mp4", 10, 5)]) !! "a.mp4"
                 = Some {| frames := 10; extracted := 5 |}) by (by vm_compute).
  assert (Hcons : stats_consistent (update_all ProcessingStats_init [("a.mp4", 10, 5)])).
  { unfold stats_consistent. by vm_compute. }
  split; [exact Hold|]. split; [exact Hcons|].
  exact (proj1 (proj2 (update_existing_video_counts_twice _ "a.mp4" 10 5 _ Hold Hcons))).
Defined.

(** ** Subsampling: failures, edge fractions and whole trees *)

Section select.
Implicit Types (folder content : gmap string Content) (name : string).

Lemma remove_frame_any folder (task : string * bool) :
  Z.of_nat (size folder)
  = Z.of_nat (size (remove_frame folder task).1)
    + (if (remove_frame folder task).2 then 1 else 0)
  ∧ ∀ name, (remove_frame folder task).1 !! name
            = if decide (name = task.1 ∧ task.2 = true) then None else folder !! name.
Proof.
  destruct task as [frame_path [|]]; unfold remove_frame, os_remove; cbn [fst snd].
  - destruct (folder !! frame_path) as [v|] eqn:Hv; cbn [fst snd].
    + split.
      * pose proof (map_size_delete frame_path folder) as Hs. rewrite Hv in Hs.
        assert (size folder ≠ 0%nat); [|lia].
        intros H0%map_size_empty_inv. by rewrite H0 in Hv.
      * intros name. destruct (decide (name = frame_path)) as [->|Hne].
        -- rewrite decide_True by done. apply lookup_delete_eq.
        -- rewrite decide_False by tauto. by apply lookup_delete_ne.
    + split; [lia|]. intros name. case_decide as Hd; [|done].
      destruct Hd as [-> _]. done.
  - split; [lia|]. intros name. rewrite decide_False; [done|]. intros [_ ?]. done.
Qed.

Lemma pool_imap_remove_any (tasks : list (string * bool)) : ∀ folder,
  length (pool_imap_remove folder tasks).2 = length tasks
  ∧ (∀ name, (pool_imap_remove folder tasks).1 !! name
             = if decide ((name, true) ∈ tasks) then None else folder !! name)
  ∧ sum_flags (pool_imap_remove folder tasks).2
    = Z.of_nat (size folder) - Z.of_nat (size (pool_imap_remove folder tasks).1).
Proof.
  induction tasks as [|task tasks IH]; intros folder.
  - cbn [pool_imap_remove fst snd]. split; [done|]. split; [|simpl; lia].
    intros name. rewrite decide_False; [done|]. apply not_elem_of_nil.
  - cbn [pool_imap_remove].
    destruct (remove_frame_any folder task) as [Hsize Hlook1].
    destruct (remove_frame folder task) as [folder1 flag]. cbn [fst snd] in Hsize, Hlook1.
    destruct (IH folder1) as (Hlen & Hlook & Hsum).
    destruct (pool_imap_remove folder1 tasks) as [folder2 flags].
    cbn [fst snd] in *. split; [cbn [length]; by rewrite Hlen|]. split.
    + intros name. rewrite Hlook, Hlook1.
      destruct (decide ((name, true) ∈ tasks)) as [Ht|Ht].
      * rewrite decide_True; [done|]. by right.
      * destruct (decide (name = task.1 ∧ task.2 = true)) as [[Hn Hf]|Hne].
        -- rewrite decide_True; [done|]. destruct task as [p b]. simpl in *. subst. left.
        -- rewrite decide_False; [done|].
           intros [Heq|?]%elem_of_cons; [|done]. subst task. simpl in Hne. tauto.
    + cbn [sum_flags foldr]. fold (sum_flags flags). rewrite Hsum. destruct flag; lia.
Qed.

(** A run that is to keep as many frames as there are removes nothing. *)
Lemma process_folder_keep_all choose folder (k : spec_float) :
  samples_without_replacement choose →
  1 ≤ jpg_count folder →
  frames_to_keep_of (jpg_count folder) k = Ok (jpg_count folder) →
  process_folder choose folder k
  = (folder, Ok (jpg_count folder, jpg_count folder, 0)).
Proof.
  intros Hchoose HF Hkeep.
  destruct (process_folder_spec choose folder k (jpg_count folder) Hchoose
              ltac:(lia) Hkeep ltac:(lia))
    as (folder' & Hrun & Hlook & Hperm & _).
  rewrite Hrun, Z.sub_diag. f_equal.
  apply map_eq. intros name. rewrite Hlook.
  rewrite decide_False; [done|]. intros [Hin Hout]. apply Hout.
  destruct (Hchoose (jpg_frames folder) (Z.to_nat (jpg_count folder))
              (jpg_frames_nodup folder)) as (Hlen & Hnd & Hsub);
    [unfold jpg_count; lia|].
  assert (choose (jpg_frames folder) (Z.to_nat (jpg_count folder)) ≡ₚ jpg_frames folder)
    as Hall.
  { apply submseteq_length_Permutation.
    - apply NoDup_submseteq; [done|]. intros x. apply Hsub.
    - rewrite Hlen. unfold jpg_count. lia. }
  by rewrite Hall.
Qed.

(** Whatever a keep-fraction above 1 makes [process_folder] do, the
    folder is left as it was. *)
Lemma process_folder_above_one_outcome choose folder (k : spec_float) :
  samples_without_replacement choose →
  jpg_count folder < 2 ^ 53 →
  Float.above_one k = true →
  process_folder choose folder k = (folder, Raise ValueError)
  ∨ process_folder choose folder k = (folder, Raise OverflowError)
  ∨ process_folder choose folder k
    = (folder, Ok (jpg_count folder, jpg_count folder, 0)).
Proof.
  intros Hchoose HF Hk.
  destruct (decide (jpg_count folder = 0)) as [H0|Hne].
  { right. right. rewrite H0. by apply process_folder_empty. }
  assert (1 ≤ jpg_count folder < 2 ^ 53) as HF' by (unfold jpg_count in *; lia).
  pose proof (int_mul_above_one (jpg_count folder) k HF' Hk) as Hm.
  fold (frames_to_keep_of (jpg_count folder) k) in Hm.
  destruct (frames_to_keep_of (jpg_count folder) k) as [m|e] eqn:Hkeep.
  - destruct (Z.ltb_spec (jpg_count folder) m) as [Hlt|Hle].
    + left. unfold process_folder. fold (jpg_count folder).
      destruct (Z.eqb_spec (jpg_count folder) 0) as [|_]; [lia|].
      rewrite Hkeep. unfold random_sample.
      destruct (Z.ltb_spec (Z.of_nat (length (jpg_frames folder))) m) as [_|];
        [|unfold jpg_count in *; lia].
      by rewrite orb_true_r.
    + right. right. assert (m = jpg_count folder) as -> by lia.
      apply process_folder_keep_all; [done|lia|done].
  - subst e. right. left. unfold process_folder. fold (jpg_count folder).
    destruct (Z.eqb_spec (jpg_count folder) 0) as [|_]; [lia|].
    by rewrite Hkeep.
Qed.


End select.

Section tree.




Lemma select_folders_above_one choose (k : spec_float) (folders : list string) :
  ∀ (tree tree' : Tree) (totals : TotalStats.t) outcome,
  (∀ folder, samples_without_replacement (choose folder)) →
  Float.above_one k = true →
  (∀ folder, folder ∈ folders → jpg_count_at tree folder < 2 ^ 53) →
  select_folders choose k tree totals folders = Some (tree', outcome) →
  tree' = tree
  ∧ match outcome with
    | Ok totals' =>
        TotalStats.frames_removed totals' = TotalStats.frames_removed totals
        ∧ TotalStats.total_frames totals' - TotalStats.total_frames totals
          = TotalStats.frames_kept totals' - TotalStats.frames_kept totals
    | Raise e => e = ValueError ∨ e = OverflowError
    end.
Proof.
  induction folders as [|folder rest IH]; intros tree tree' totals outcome Hchoose Hk Hin Hrun.
  - cbn [select_folders] in Hrun. injection Hrun as <- <-. split; [done|]. lia.
  - cbn [select_folders] in Hrun.
    destruct (tree !! folder) as [content|] eqn:Hcontent; [|done].
    assert (Hsize : jpg_count content < 2 ^ 53).
    { pose proof (Hin folder ltac:(left)) as Hs. unfold jpg_count_at in Hs.
      by rewrite lookup_total_alt, Hcontent in Hs. }
    destruct (process_folder_above_one_outcome (choose folder) content k
                (Hchoose folder) Hsize Hk) as [Hpf|[Hpf|Hpf]];
      rewrite Hpf in Hrun; rewrite (insert_id tree folder content Hcontent) in Hrun.
    + injection Hrun as <- <-. split; [done|]. by left.
    + injection Hrun as <- <-. split; [done|]. by right.
    + apply IH in Hrun as [Htree Hout]; [|done|done|].
      * split; [done|]. destruct outcome as [totals'|e]; [|done].
        destruct (0 <? jpg_count content);
          cbn [TotalStats.total_frames TotalStats.frames_kept TotalStats.frames_removed]
            in Hout; lia.
      * intros f Hf. apply Hin. by right.
Qed.

End tree.

(** X6. The removal tasks of a folder never raise, whatever the tasks
    are: a removal that fails (here: of a file that is not there) only
    makes its flag [False]. A file is gone afterwards exactly when some
    task asked for its removal, every other file is untouched, and the
    number of [True] flags, which [process_folder] reports as removed, is
    the number of files the folder has lost. *)
Theorem removal_failures_are_counted (folder_path : gmap string Content)
    (remove_tasks : list (string * bool)) :
  length (pool_imap_remove folder_path remove_tasks).2 = length remove_tasks
  ∧ (∀ name, (pool_imap_remove folder_path remove_tasks).1 !! name
             = if decide ((name, true) ∈ remove_tasks) then None
               else folder_path !! name)
  ∧ sum_flags (pool_imap_remove folder_path remove_tasks).2
    = Z.of_nat (size folder_path)
      - Z.of_nat (size (pool_imap_remove folder_path remove_tasks).1).
Proof. apply pool_imap_remove_any. Qed.

(** X7. [process_folder] never adds or changes a file and never removes
    a file that is not a [.jpg], for any keep-fraction (negative, above 1
    or not a number) and any random choice; when it raises, the folder is
    as it was; when it returns, the first number is the count of [.jpg]
    files and the third the number of files the folder has lost. *)
Theorem process_folder_only_removes_jpg (choose : list string → nat → list string)
    (folder_path : gmap string Content) (keep_percentage : spec_float) :
  (process_folder choose folder_path keep_percentage).1 ⊆ folder_path
  ∧ (∀ name, is_jpg name = false →
       (process_folder choose folder_path keep_percentage).1 !! name
       = folder_path !! name)
  ∧ match (process_folder choose folder_path keep_percentage).2 with
    | Raise _ => (process_folder choose folder_path keep_percentage).1 = folder_path
    | Ok (total, kept, removed) =>
        total = jpg_count folder_path
        ∧ removed = Z.of_nat (size folder_path)
                    - Z.of_nat (size (process_folder choose folder_path keep_percentage).1)
    end.
Proof.
  unfold process_folder. fold (jpg_count folder_path).
  destruct (Z.eqb_spec (jpg_count folder_path) 0) as [H0|Hne]; cbn [fst snd].
  { split; [done|]. split; [done|]. split; [done|lia]. }
  destruct (frames_to_keep_of (jpg_count folder_path) keep_percentage) as [m|err]; [|done].
  destruct (random_sample choose (jpg_frames folder_path) m) as [kept|err]; [|done].
  set (tasks := (λ frame, (frame, bool_decide (frame ∉ kept))) <$> jpg_frames folder_path).
  destruct (pool_imap_remove_any tasks folder_path) as (_ & Hlook & Hsum).
  destruct (pool_imap_remove folder_path tasks) as [folder' results]. cbn [fst snd] in *.
  split; [|split; [|done]].
  - apply map_subseteq_spec. intros name v. rewrite Hlook. by case_decide.
  - intros name Hjpg. rewrite Hlook. rewrite decide_False; [done|].
    unfold tasks. intros (x & Heq & Hx)%list_elem_of_fmap. injection Heq as ->.
    apply elem_of_jpg_frames in Hx as [Hx _]. congruence.
Qed.

(** X8. The two ends of the range: with a keep-fraction of zero (of
    either sign) every [.jpg] file of the folder is removed and every
    other file stays; with a keep-fraction of 1.0 nothing is removed. *)
Theorem keep_fraction_zero_and_one (choose : list string → nat → list string)
    (folder_path : gmap string Content) :
  samples_without_replacement choose →
  1 ≤ jpg_count folder_path < 2 ^ 53 →
  (∀ sign, ∃ folder',
     process_folder choose folder_path (S754_zero sign)
     = (folder', Ok (jpg_count folder_path, 0, jpg_count folder_path))
     ∧ ∀ name, folder' !! name = if is_jpg name then None else folder_path !! name)
  ∧ process_folder choose folder_path (Float.of_ratio 1 1)
    = (folder_path, Ok (jpg_count folder_path, jpg_count folder_path, 0)).
Proof.
  intros Hchoose HF. split.
  - intros sign.
    assert (Hkeep : frames_to_keep_of (jpg_count folder_path) (S754_zero sign) = Ok 0).
    { destruct (of_int_exact _ HF) as (mz & ez & Hof & _).
      unfold frames_to_keep_of, Float.int_mul. rewrite Hof. done. }
    destruct (process_folder_spec choose folder_path (S754_zero sign) 0 Hchoose
                ltac:(lia) Hkeep ltac:(lia)) as (folder' & Hrun & Hlook & _).
    exists folder'. rewrite Hrun, Z.sub_0_r. split; [done|].
    intros name. rewrite Hlook.
    destruct (Hchoose (jpg_frames folder_path) (Z.to_nat 0) (jpg_frames_nodup _))
      as (Hlen & _); [simpl; lia|].
    apply nil_length_inv in Hlen. rewrite Hlen.
    destruct (is_jpg name) eqn:Hjpg.
    + case_decide as Hd; [done|].
      destruct (folder_path !! name) as [v|] eqn:Hv; [|done].
      exfalso. apply Hd. split; [|apply not_elem_of_nil].
      apply elem_of_jpg_frames. by rewrite Hv.
    + rewrite decide_False; [done|]. intros [Hin _].
      apply elem_of_jpg_frames in Hin as [? _]. congruence.
  - apply process_folder_keep_all; [done|lia|].
    assert (Hunit : Float.in_unit_interval (Float.of_ratio 1 1) = true) by (by vm_compute).
    destruct (int_mul_unit_interval (jpg_count folder_path) _ HF Hunit)
      as (m & Hm & [Hlo _] & [_ Hhi]).
    unfold frames_to_keep_of. rewrite Hm. f_equal.
    change (Float.of_ratio 1 1) with (S754_finite false 4503599627370496 (-52)) in Hlo.
    cbn [Float.exact_floor_mul Z.leb Z.compare Z.opp] in Hlo.
    change (2 ^ 52) with 4503599627370496 in Hlo.
    rewrite Z.div_mul in Hlo by lia. lia.
Qed.

Lemma keep_fraction_zero_and_one_witness :
  samples_without_replacement choose_first
  ∧ 1 ≤ jpg_count (frames_folder 3) < 2 ^ 53
  ∧ process_folder choose_first (frames_folder 3) (Float.of_ratio 1 1)
    = (frames_folder 3, Ok (jpg_count (frames_folder 3), jpg_count (frames_folder 3), 0)).
Proof.
  assert (Hcount : 1 ≤ jpg_count (frames_folder 3) < 2 ^ 53).
  { assert (jpg_count (frames_folder 3) = 3) as -> by (by vm_compute). lia. }
  split; [exact choose_first_samples|]. split; [exact Hcount|].
  exact (proj2 (keep_fraction_zero_and_one choose_first (frames_folder 3)
                  choose_first_samples Hcount)).
Defined.



(** X10. [random_select_frames] with a keep-fraction above 1 deletes no
    file anywhere in the tree, whether it ends normally or not: it either
    raises ([ValueError] from the sample, or [OverflowError]) at the first
    folder whose [int(F * k)] exceeds its [F], or returns totals with
    nothing removed and every frame kept. *)
Theorem random_select_frames_above_one (choose : string → list string → nat → list string)
    (output_folder : string) (walk : list (string * list string * list string))
    (k : spec_float) (tree tree' : Tree) (outcome : result TotalStats.t) :
  (∀ folder, samples_without_replacement (choose folder)) →
  Float.above_one k = true →
  (∀ folder, folder ∈ all_folders_of output_folder walk →
     jpg_count_at tree folder < 2 ^ 53) →
  random_select_frames choose output_folder walk k tree = Some (tree', outcome) →
  tree' = tree
  ∧ match outcome with
    | Ok totals =>
        TotalStats.frames_removed totals = 0
        ∧ TotalStats.frames_kept totals = TotalStats.total_frames totals
    | Raise e => e = ValueError ∨ e = OverflowError
    end.
Proof.
  intros Hchoose Hk Hin Hrun.
  apply select_folders_above_one in Hrun as [Htree Hout]; [|done..].
  split; [done|]. destruct outcome as [totals|e]; [|done].
  cbn [TotalStats.total_frames TotalStats.frames_kept TotalStats.frames_removed] in Hout.
  lia.
Qed.

Lemma random_select_frames_above_one_witness :
  let choose := λ _ : string, choose_first in
  let k := Float.of_ratio 3 2 in
  (∀ folder, samples_without_replacement (choose folder))
  ∧ Float.above_one k = true
  ∧ ∃ tree' outcome,
      random_select_frames choose "out" small_walk k small_tree = Some (tree', outcome)
      ∧ tree' = small_tree.
Proof.
  assert (Hin : ∀ folder, folder ∈ all_folders_of "out" small_walk →
            jpg_count_at small_tree folder < 2 ^ 53).
  { intros folder Hf.
    change (all_folders_of "out" small_walk) with ["out"; "out/a"; "out/b"] in Hf.
    repeat (apply elem_of_cons in Hf as [->|Hf]); [| | |by apply elem_of_nil in Hf].
    - assert (jpg_count_at small_tree "out" = 0) as -> by (by vm_compute). lia.
    - assert (jpg_count_at small_tree "out/a" = 10) as -> by (by vm_compute). lia.
    - assert (jpg_count_at small_tree "out/b" = 5) as -> by (by vm_compute). lia. }
  assert (Hrun : random_select_frames (λ _, choose_first) "out" small_walk
                   (Float.of_ratio 3 2) small_tree
                 = Some (small_tree, Raise ValueError)) by (by vm_compute).
  split; [intros _; exact choose_first_samples|]. split; [by vm_compute|].
  exists small_tree, (Raise ValueError). split; [exact Hrun|].
  exact (proj1 (random_select_frames_above_one (λ _, choose_first) "out" small_walk
                  (Float.of_ratio 3 2) small_tree small_tree (Raise ValueError)
                  (λ _, choose_first_samples) eq_refl Hin Hrun)).
Defined.

(** ** Combining folders twice *)

Section merge_more.
Implicit Types (output cur : gmap string Content) (log : list copy_call).

Lemma combine_folders_inv root_folder root output :
  ∃ output' log,
    combine_folders root_folder root output = Some (output', log)
    ∧ (λ c, (image c, payload c)) <$> log = all_images root
    ∧ merge_inv output output' log.
Proof.
  destruct (copy_subfolders_inv output root_folder (filter (λ e, isdir e = true) root)
              output [] (merge_inv_init output)) as (output' & log & Hrun & Hlog & Hinv).
  exists output', log. done.
Qed.

Lemma merge_inv_size output cur log :
  merge_inv output cur log → size cur = (size output + length log)%nat.
Proof.
  intros Hinv. rewrite <- !size_dom, (inv_dom _ _ _ Hinv).
  rewrite size_union.
  - rewrite size_list_to_set by apply Hinv. by rewrite length_fmap.
  - intros k Hk (c & -> & Hc)%elem_of_list_to_set%list_elem_of_fmap.
    apply elem_of_dom in Hk as [b Hb].
    by rewrite (inv_fresh _ _ _ Hinv c Hc) in Hb.
Qed.

Lemma merge_inv_own_name output cur log c :
  merge_inv output cur log → c ∈ log → is_Some (cur !! image c).
Proof.
  intros Hinv Hc.
  destruct (inv_naming _ _ _ Hinv c Hc) as [Heq|(n & _ & _ & Hsome & _)]; [|done].
  rewrite <- Heq, (inv_content _ _ _ Hinv c Hc). done.
Qed.

End merge_more.

(** X11. [combine_folders] does not recognise images it has merged
    before: run a second time on the same sub-folders and the output
    folder it has produced, it copies every image again, each under a
    numbered name [name_<n><ext>], so that the output folder grows by the
    number of images at each run and keeps all earlier files. *)
Theorem combine_folders_twice (root_folder : string) (root : list RootEntry)
    (output : gmap string Content) :
  ∃ output1 log1 output2 log2,
    combine_folders root_folder root output = Some (output1, log1)
    ∧ combine_folders root_folder root output1 = Some (output2, log2)
    ∧ size output1 = (size output + length (all_images root))%nat
    ∧ size output2 = (size output + 2 * length (all_images root))%nat
    ∧ output1 ⊆ output2
    ∧ (λ c, (image c, payload c)) <$> log2 = all_images root
    ∧ ∀ c, c ∈ log2 →
        output1 !! dest c = None
        ∧ output2 !! dest c = Some (payload c)
        ∧ ∃ n, 1 ≤ n ∧ dest c = candidate (image c) n.
Proof.
  destruct (combine_folders_inv root_folder root output)
    as (output1 & log1 & Hrun1 & Hlog1 & Hinv1).
  destruct (combine_folders_inv root_folder root output1)
    as (output2 & log2 & Hrun2 & Hlog2 & Hinv2).
  exists output1, log1, output2, log2.
  pose proof (merge_inv_size _ _ _ Hinv1) as Hs1.
  pose proof (merge_inv_size _ _ _ Hinv2) as Hs2.
  assert (Hl1 : length log1 = length (all_images root)).
  { by rewrite <- Hlog1, length_fmap. }
  assert (Hl2 : length log2 = length (all_images root)).
  { by rewrite <- Hlog2, length_fmap. }
  split; [done|]. split; [done|]. split; [lia|]. split; [lia|].
  split; [|split; [done|]].
  - apply map_subseteq_spec. intros k b. apply Hinv2.
  - intros c Hc.
    pose proof (inv_fresh _ _ _ Hinv2 c Hc) as Hfree.
    split; [done|]. split; [by apply Hinv2|].
    destruct (inv_naming _ _ _ Hinv2 c Hc) as [Heq|(n & Hn & Hd & _)]; [|by exists n].
    exfalso.
    assert ((image c, payload c) ∈ (λ c, (image c, payload c)) <$> log1) as Hin.
    { rewrite Hlog1, <- Hlog2. apply list_elem_of_fmap. by exists c. }
    apply list_elem_of_fmap in Hin as (c1 & Heq1 & Hc1).
    injection Heq1 as Himg _.
    destruct (merge_inv_own_name _ _ _ c1 Hinv1 Hc1) as [b Hb].
    rewrite <- Himg, <- Heq, Hfree in Hb. done.
Qed.

(** ** Counting class identifiers: sums and row order *)

Section count_more.
Implicit Types (l counts : list (string * Z)) (c d : string).

Lemma sum_Z_app (xs ys : list Z) : sum_Z (xs ++ ys) = sum_Z xs + sum_Z ys.
Proof. induction xs as [|x xs IH]; simpl; [done|]. unfold sum_Z in *. simpl. lia. Qed.

Lemma sum_increment d l : sum_Z (increment d l).*2 = sum_Z l.*2 + 1.
Proof.
  induction l as [|[k v] l IH]; [done|].
  cbn [increment]. destruct (String.eqb k d).
  - rewrite !fmap_cons. cbn [snd sum_Z foldr]. lia.
  - rewrite !fmap_cons. cbn [snd sum_Z foldr].
    fold (sum_Z (increment d l).*2). fold (sum_Z l.*2). lia.
Qed.

Lemma sum_count_lines lines : ∀ l,
  sum_Z (foldl count_line l lines).*2
  = sum_Z l.*2 + Z.of_nat (length (omap first_token lines)).
Proof.
  induction lines as [|line lines IH]; intros l; [simpl; lia|].
  cbn [foldl omap list_omap]. rewrite IH. unfold count_line, first_token.
  destruct (Py.split line) as [|d toks]; cbn [head].
  - lia.
  - rewrite sum_increment. cbn [length]. lia.
Qed.

Lemma sum_count_files files : ∀ l,
  sum_Z (foldl count_file l files).*2
  = sum_Z l.*2 + Z.of_nat (length (first_tokens files)).
Proof.
  unfold first_tokens.
  induction files as [|file files IH]; intros l; [simpl; lia|].
  cbn [foldl]. rewrite IH. unfold count_file. rewrite sum_count_lines.
  change ((file :: files) ≫= snd) with (file.2 ++ (files ≫= snd)).
  rewrite omap_app, length_app. lia.
Qed.

Lemma first_occurrences_ext seen1 seen2 tokens :
  (∀ t, t ∈ seen1 ↔ t ∈ seen2) →
  first_occurrences seen1 tokens = first_occurrences seen2 tokens.
Proof.
  revert seen1 seen2. induction tokens as [|t tokens IH]; intros seen1 seen2 Hext; [done|].
  cbn [first_occurrences].
  destruct (decide (t ∈ seen1)) as [H1|H1], (decide (t ∈ seen2)) as [H2|H2];
    try (exfalso; apply Hext in H1 || apply Hext in H2; done).
  - by apply IH.
  - f_equal. apply IH. intros t'. rewrite !elem_of_cons, Hext. done.
Qed.

Lemma keys_count_lines lines : ∀ l,
  (foldl count_line l lines).*1
  = l.*1 ++ first_occurrences l.*1 (omap first_token lines).
Proof.
  induction lines as [|line lines IH]; intros l; [by rewrite app_nil_r|].
  cbn [foldl omap list_omap]. rewrite IH. unfold count_line, first_token.
  destruct (Py.split line) as [|d toks]; cbn [head]; [done|].
  cbn [first_occurrences]. rewrite increment_keys.
  destruct (decide (d ∈ l.*1)) as [Hin|Hout]; [done|].
  rewrite <- app_assoc. cbn [app]. do 2 f_equal.
  apply first_occurrences_ext. intros t.
  rewrite elem_of_app, !elem_of_cons, elem_of_nil. tauto.
Qed.

Lemma first_occurrences_app seen tokens1 tokens2 :
  first_occurrences seen (tokens1 ++ tokens2)
  = first_occurrences seen tokens1
    ++ first_occurrences (seen ++ first_occurrences seen tokens1) tokens2.
Proof.
  revert seen. induction tokens1 as [|t tokens1 IH]; intros seen.
  - cbn [app first_occurrences]. by rewrite app_nil_r.
  - cbn [app first_occurrences]. destruct (decide (t ∈ seen)) as [Hin|Hout]; [apply IH|].
    cbn [app]. f_equal. rewrite IH. f_equal.
    apply first_occurrences_ext. intros t'.
    rewrite !elem_of_app, !elem_of_cons. tauto.
Qed.

Lemma keys_count_files files : ∀ l,
  (foldl count_file l files).*1
  = l.*1 ++ first_occurrences l.*1 (first_tokens files).
Proof.
  unfold first_tokens.
  induction files as [|file files IH]; intros l; [by rewrite app_nil_r|].
  cbn [foldl]. rewrite IH. unfold count_file. rewrite keys_count_lines.
  change ((file :: files) ≫= snd) with (file.2 ++ (files ≫= snd)).
  rewrite omap_app, first_occurrences_app, <- app_assoc. done.
Qed.

(** Insertion keeps the order of the items already there, and puts the
    new item before every item whose key is not smaller. *)
Lemma insert_by_key_sublist x (s : list (Z * (string * Z))) :
  s `sublist_of` insert_by_key x s.
Proof.
  induction s as [|y s IH]; cbn [insert_by_key]; [apply sublist_nil_l|].
  destruct (x.1 <=? y.1); [by apply sublist_cons|by apply sublist_skip].
Qed.

Lemma insert_by_key_before x b (s : list (Z * (string * Z))) :
  b ∈ s → x.1 ≤ b.1 → [x; b] `sublist_of` insert_by_key x s.
Proof.
  induction s as [|y s IH]; intros Hb Hle; [by apply elem_of_nil in Hb|].
  cbn [insert_by_key]. destruct (Z.leb_spec x.1 y.1) as [Hxy|Hxy].
  - apply sublist_skip. by apply singleton_sublist_l.
  - apply elem_of_cons in Hb as [->|Hb]; [lia|].
    apply sublist_cons. by apply IH.
Qed.

Lemma stable_sort_stable a b (l : list (Z * (string * Z))) :
  [a; b] `sublist_of` l → a.1 ≤ b.1 → [a; b] `sublist_of` stable_sort l.
Proof.
  induction l as [|x l IH]; intros Hsub Hle.
  - by apply sublist_nil_r in Hsub.
  - cbn [stable_sort foldr]. fold (stable_sort l).
    apply sublist_cons_r in Hsub as [Hsub|(l' & Heq & Hsub)].
    + etrans; [by apply IH|]. apply insert_by_key_sublist.
    + injection Heq as -> <-. apply insert_by_key_before; [|done].
      rewrite stable_sort_perm. by apply singleton_sublist_l.
Qed.

Lemma with_int_keys_fmap items keyed :
  with_int_keys items = Ok keyed →
  keyed = (λ item, (default 0 (Py.int_of_str item.1), item)) <$> items.
Proof.
  revert keyed. induction items as [|item items IH]; intros keyed; cbn [with_int_keys].
  - by intros [= <-].
  - destruct (Py.int_of_str item.1) as [k|] eqn:Hk; [|done].
    destruct (with_int_keys items) as [keyed'|]; [|done].
    cbn [mbind result_bind]. intros [= <-].
    rewrite fmap_cons, Hk, <- (IH keyed' eq_refl). done.
Qed.

(** A list sorted by a key that tells its items apart is determined by
    its items. *)
Lemma sorted_by_key_unique (l1 l2 : list (Z * (string * Z))) :
  StronglySorted (λ a b, a.1 ≤ b.1) l1 →
  StronglySorted (λ a b, a.1 ≤ b.1) l2 →
  l1 ≡ₚ l2 →
  (∀ a b, a ∈ l1 → b ∈ l1 → a.1 = b.1 → a = b) →
  l1 = l2.
Proof.
  revert l2. induction l1 as [|a l1 IH]; intros l2 Hs1 Hs2 Hperm Hinj.
  - by apply Permutation_nil_l in Hperm.
  - destruct l2 as [|b l2]; [by apply Permutation_nil_r in Hperm|].
    apply StronglySorted_inv in Hs1 as [Hs1 Ha].
    apply StronglySorted_inv in Hs2 as [Hs2 Hb].
    rewrite Forall_forall in Ha, Hb.
    assert (Hain : a ∈ b :: l2) by (rewrite <- Hperm; left).
    assert (Hbin : b ∈ a :: l1) by (rewrite Hperm; left).
    assert (a = b) as <-.
    { apply Hinj; [left|done|].
      apply elem_of_cons in Hain as [->|Hain]; [done|].
      apply elem_of_cons in Hbin as [->|Hbin]; [done|].
      pose proof (Ha _ Hbin). pose proof (Hb _ Hain). lia. }
    f_equal. apply IH; [done|done|by apply Permutation_cons_inv in Hperm|].
    intros x y Hx Hy. apply Hinj; by right.
Qed.

Lemma split_from_cur s : ∀ cur, cur ≠ "" → Py.split_from s cur ≠ [].
Proof.
  induction s as [|ch s IH]; intros cur Hcur; cbn [Py.split_from].
  - destruct (String.eqb_spec cur ""); done.
  - destruct (Py.is_space ch).
    + destruct (String.eqb_spec cur ""); done.
    + apply IH. by destruct cur.
Qed.

Lemma split_from_nil s :
  Py.split_from s "" = [] ↔ Forall (λ a, Py.is_space a = true) (list_ascii_of_string s).
Proof.
  induction s as [|ch s IH]; cbn [Py.split_from list_ascii_of_string].
  - split; [constructor|done].
  - rewrite Forall_cons. destruct (Py.is_space ch) eqn:Hc.
    + cbn [String.eqb]. rewrite IH. tauto.
    + rewrite str_app_nil_l. split; [|by intros [? _]].
      intros Hnil. by apply split_from_cur in Hnil.
Qed.

End count_more.

(** X12. The counts of [count_class_ids] add up to the number of label
    lines that have a first token, every such line being counted once,
    under exactly one class identifier; the lines without a first token,
    which are ignored, are the empty lines and those made of white space
    only. *)
Theorem counts_add_up_to_labelled_lines (folder_path : list (string * list string)) :
  sum_Z (class_counts_of (txt_files folder_path)).*2
  = Z.of_nat (length (first_tokens (txt_files folder_path)))
  ∧ ∀ line, first_token line = None
            ↔ Forall (λ a, Py.is_space a = true) (list_ascii_of_string line).
Proof.
  split.
  - unfold class_counts_of. rewrite sum_count_files. simpl. lia.
  - intros line. unfold first_token, Py.split. rewrite head_None. apply split_from_nil.
Qed.

(** X13. Class identifiers are compared as text when they are counted and
    as numbers only when they are sorted: the counter lists them in order
    of first appearance, and the sort is stable, so of two identifiers
    with the same numeric value (such as [3] and [03]) each has its own
    row and the one met first is printed first. In general a row that
    precedes another in the counter and has no greater numeric value
    precedes it in the table. *)
Theorem rows_keep_first_seen_order (folder_path : list (string * list string))
    (rows : list (string * Z)) :
  let counts := class_counts_of (txt_files folder_path) in
  sorted_items counts = Ok rows →
  counts.*1 = first_occurrences [] (first_tokens (txt_files folder_path))
  ∧ ∀ r1 r2, [r1; r2] `sublist_of` counts → numeric_id r1 ≤ numeric_id r2 →
      [r1; r2] `sublist_of` rows.
Proof.
  intros counts Hsorted. split.
  - unfold counts, class_counts_of. by rewrite keys_count_files.
  - intros r1 r2 Hsub Hle. unfold sorted_items in Hsorted.
    destruct (with_int_keys counts) as [keyed|] eqn:Hk; [|done].
    cbn [mbind result_bind] in Hsorted. injection Hsorted as <-.
    apply with_int_keys_fmap in Hk. subst keyed.
    set (key := λ item : string * Z, (default 0 (Py.int_of_str item.1), item)).
    change [r1; r2] with (snd <$> [key r1; key r2]).
    apply fmap_sublist, stable_sort_stable; [|done].
    change [key r1; key r2] with (key <$> [r1; r2]). by apply fmap_sublist.
Qed.

Lemma rows_keep_first_seen_order_witness :
  ∃ rows,
    sorted_items (class_counts_of (txt_files padded_ids_folder)) = Ok rows
    ∧ (class_counts_of (txt_files padded_ids_folder)).*1 = ["03"; "1"; "3"]
    ∧ rows = [("1", 1); ("03", 2); ("3", 1)].
Proof.
  exists [("1", 1); ("03", 2); ("3", 1)].
  assert (Hrows : sorted_items (class_counts_of (txt_files padded_ids_folder))
                  = Ok [("1", 1); ("03", 2); ("3", 1)]) by (by vm_compute).
  split; [exact Hrows|]. split; [|reflexivity].
  rewrite (proj1 (rows_keep_first_seen_order padded_ids_folder _ Hrows)).
  by vm_compute.
Defined.

(** X14. The printed table does not depend on the order in which
    [os.listdir] returns the files, as long as no two class identifiers
    that occur have the same numeric value: two listings of the same
    files print the same lines, or both make [sorted] raise. *)
Theorem table_independent_of_listing_order (folder1 folder2 : list (string * list string)) :
  folder1 ≡ₚ folder2 →
  (∀ c1 c2 k, 1 ≤ lines_of_class c1 (txt_files folder1) →
              1 ≤ lines_of_class c2 (txt_files folder1) →
              Py.int_of_str c1 = Some k → Py.int_of_str c2 = Some k → c1 = c2) →
  count_class_ids folder1 = count_class_ids folder2.
Proof.
  intros Hperm Hinj.
  assert (Hfiles : txt_files folder1 ≡ₚ txt_files folder2).
  { unfold txt_files. by rewrite Hperm. }
  assert (Hlines : ∀ c, lines_of_class c (txt_files folder1)
                        = lines_of_class c (txt_files folder2)).
  { intros c. unfold lines_of_class. by rewrite Hfiles. }
  set (counts1 := class_counts_of (txt_files folder1)).
  set (counts2 := class_counts_of (txt_files folder2)).
  assert (Hcounts : counts1 ≡ₚ counts2).
  { apply NoDup_Permutation.
    - eapply NoDup_fmap_1, class_counts_nodup.
    - eapply NoDup_fmap_1, class_counts_nodup.
    - intros [c n]. unfold counts1, counts2. rewrite !class_counts_rows, Hlines. done. }
  assert (Hsorted : sorted_items counts1 = sorted_items counts2).
  { unfold sorted_items.
    destruct (with_int_keys counts1) as [keyed1|e1] eqn:Hk1,
             (with_int_keys counts2) as [keyed2|e2] eqn:Hk2.
    - cbn [mbind result_bind]. do 2 f_equal.
      pose proof (with_int_keys_ok _ _ Hk1) as [_ Hall1].
      apply with_int_keys_fmap in Hk1, Hk2. 
      set (key := λ item : string * Z, (default 0 (Py.int_of_str item.1), item)) in *.
      apply sorted_by_key_unique; [apply stable_sort_sorted..| |].
      + rewrite !stable_sort_perm. subst keyed1 keyed2. by rewrite Hcounts.
      + intros a b Ha Hb Hab. rewrite stable_sort_perm in Ha, Hb.
        rewrite Forall_forall in Hall1.
        pose proof (Hall1 _ Ha) as Hka. pose proof (Hall1 _ Hb) as Hkb.
        subst keyed1. apply list_elem_of_fmap in Ha as ([ca na] & -> & Ha).
        apply list_elem_of_fmap in Hb as ([cb nb] & -> & Hb).
        unfold key in *. cbn [fst snd] in *.
        unfold counts1 in Ha, Hb. apply class_counts_rows in Ha as [-> Hna].
        apply class_counts_rows in Hb as [-> Hnb].
        rewrite Hab in Hka.
        assert (ca = cb) as -> by (eapply Hinj; eauto). done.
    - exfalso. apply with_int_keys_raise in Hk2 as [_ (item & Hin & Hnone)].
      apply with_int_keys_ok in Hk1 as [Hl Hall].
      rewrite <- Hcounts, <- Hl in Hin.
      apply list_elem_of_fmap in Hin as (kr & -> & Hkr).
      rewrite Forall_forall in Hall. rewrite (Hall _ Hkr) in Hnone. done.
    - exfalso. apply with_int_keys_raise in Hk1 as [_ (item & Hin & Hnone)].
      apply with_int_keys_ok in Hk2 as [Hl Hall].
      rewrite Hcounts, <- Hl in Hin.
      apply list_elem_of_fmap in Hin as (kr & -> & Hkr).
      rewrite Forall_forall in Hall. rewrite (Hall _ Hkr) in Hnone. done.
    - apply with_int_keys_raise in Hk1 as [-> _].
      apply with_int_keys_raise in Hk2 as [-> _]. done. }
  subst counts1 counts2. unfold count_class_ids.
  destruct (txt_files folder1) as [|f1 files1] eqn:H1,
           (txt_files folder2) as [|f2 files2] eqn:H2.
  - done.
  - by apply Permutation_nil_l in Hfiles.
  - by apply Permutation_nil_r in Hfiles.
  - by rewrite Hsorted.
Qed.

Lemma table_independent_of_listing_order_witness :
  let folder1 := [("a.txt", ["2 x"; "10 y"]); ("b.txt", ["10 z"])] in
  let folder2 := [("b.txt", ["10 z"]); ("a.txt", ["2 x"; "10 y"])] in
  folder1 ≡ₚ folder2
  ∧ count_class_ids folder1 = count_class_ids folder2.
Proof.
  assert (Hperm : [("a.txt", ["2 x"; "10 y"]); ("b.txt", ["10 z"])]
                  ≡ₚ [("b.txt", ["10 z"]); ("a.txt", ["2 x"; "10 y"])])
    by apply Permutation_swap.
  split; [exact Hperm|].
  apply (table_independent_of_listing_order _ _ Hperm).
  intros c1 c2 k H1 H2 Hk1 Hk2.
  assert (Hc : ∀ c, 1 ≤ lines_of_class c
                        (txt_files [("a.txt", ["2 x"; "10 y"]); ("b.txt", ["10 z"])]) →
               c = "2" ∨ c = "10").
  { intros c Hc.
    assert ((c, lines_of_class c
                  (txt_files [("a.txt", ["2 x"; "10 y"]); ("b.txt", ["10 z"])]))
            ∈ class_counts_of
                (txt_files [("a.txt", ["2 x"; "10 y"]); ("b.txt", ["10 z"])])) as Hin
      by (by apply class_counts_rows).
    change (class_counts_of
              (txt_files [("a.txt", ["2 x"; "10 y"]); ("b.txt", ["10 z"])]))
      with [("2", 1); ("10", 2)] in Hin.
    apply elem_of_cons in Hin as [[= -> _]|Hin]; [by left|].
    apply elem_of_cons in Hin as [[= -> _]|Hin]; [by right|].
    by apply elem_of_nil in Hin. }
  destruct (Hc c1 H1) as [->| ->], (Hc c2 H2) as [->| ->]; try done;
    vm_compute in Hk1, Hk2; congruence.
Defined.

(** ** Collecting the image-label pairs *)

Section collect.
Implicit Types (extensions : gset string) (files : list string) (base dir : string).

Lemma last_filter_cons {A} (P : A → Prop) `{∀ x, Decision (P x)} (x : A) (l : list A) :
  last (filter P (x :: l))
  = match last (filter P l) with
    | Some y => Some y
    | None => if decide (P x) then Some x else None
    end.
Proof.
  rewrite filter_cons. destruct (decide (P x)); [|by destruct (last (filter P l))].
  by rewrite last_cons.
Qed.

Lemma build_mapping_fold dir extensions files : ∀ (m : gmap string string) base,
  foldl (λ mapping file,
           let '(base, ext) := Py.splitext file in
           if decide (Py.lower ext ∈ extensions)
           then <[base := Py.path_join dir file]> mapping
           else mapping) m files !! base
  = match last_with_base extensions base files with
    | Some file => Some (Py.path_join dir file)
    | None => m !! base
    end.
Proof.
  induction files as [|file files IH]; intros m base; [done|].
  cbn [foldl]. rewrite IH. unfold last_with_base. rewrite last_filter_cons.
  destruct (last (filter _ files)) as [y|]; [done|].
  unfold eligible. destruct (Py.splitext file) as [b e]. cbn [fst snd].
  destruct (decide (Py.lower e ∈ extensions)) as [Hin|Hout].
  - rewrite bool_decide_eq_true_2 by done.
    destruct (decide (b = base)) as [->|Hne].
    + rewrite decide_True by done. apply lookup_insert_eq.
    + rewrite decide_False by tauto. by apply lookup_insert_ne.
  - rewrite bool_decide_eq_false_2 by done. rewrite decide_False; [done|].
    intros [? _]. done.
Qed.

Lemma build_mapping_lookup dir extensions files base :
  build_mapping dir extensions files !! base
  = Py.path_join dir <$> last_with_base extensions base files.
Proof.
  unfold build_mapping. rewrite build_mapping_fold.
  by destruct (last_with_base extensions base files).
Qed.

Lemma last_with_base_Some extensions base files file :
  last_with_base extensions base files = Some file →
  file ∈ files ∧ eligible extensions file = true ∧ (Py.splitext file).1 = base.
Proof.
  unfold last_with_base. intros Hlast.
  apply last_Some in Hlast as [l' Hl'].
  assert (file ∈ filter (λ f, eligible extensions f = true ∧ (Py.splitext f).1 = base)
                        files) as Hin.
  { rewrite Hl'. apply elem_of_app. right. left. }
  apply list_elem_of_filter in Hin. tauto.
Qed.

Lemma last_with_base_is_Some extensions base files :
  is_Some (last_with_base extensions base files) ↔ base ∈ bases_of extensions files.
Proof.
  unfold bases_of. rewrite elem_of_list_to_set, list_elem_of_fmap. split.
  - intros [file Hfile]. apply last_with_base_Some in Hfile as (Hin & He & Hb).
    exists file. split; [done|]. by apply list_elem_of_filter.
  - intros (file & -> & Hin). apply list_elem_of_filter in Hin as [He Hin].
    unfold last_with_base. apply last_is_Some.
    intros Hnil.
    assert (file ∈ filter (λ f, eligible extensions f = true
                                ∧ (Py.splitext f).1 = (Py.splitext file).1) files) as Hf.
    { by apply list_elem_of_filter. }
    rewrite Hnil in Hf. by apply elem_of_nil in Hf.
Qed.

Lemma dom_build_mapping dir extensions files :
  dom (build_mapping dir extensions files) = bases_of extensions files.
Proof.
  apply set_eq. intros base.
  rewrite elem_of_dom, build_mapping_lookup, fmap_is_Some.
  apply last_with_base_is_Some.
Qed.

(** The file of the last position that counts and has the base name: no
    later file of the listing does. *)
Lemma last_with_base_last extensions base files file :
  last_with_base extensions base files = Some file →
  ∃ before after,
    files = before ++ file :: after
    ∧ ∀ later, later ∈ after →
        ¬ (eligible extensions later = true ∧ (Py.splitext later).1 = base).
Proof.
  induction files as [|x files IH]; [done|].
  unfold last_with_base in *. rewrite last_filter_cons.
  destruct (last (filter _ files)) as [y|] eqn:Hlast.
  - intros [= ->]. destruct (IH eq_refl) as (before & after & -> & Hafter).
    exists (x :: before), after. done.
  - destruct (decide _) as [Hx|Hx]; [|done]. intros [= ->].
    exists [], files. split; [done|]. intros later Hin Hlater.
    apply last_None in Hlast.
    assert (later ∈ filter (λ f, eligible extensions f = true
                                 ∧ (Py.splitext f).1 = base) files) as Hf.
    { by apply list_elem_of_filter. }
    rewrite Hlast in Hf. by apply elem_of_nil in Hf.
Qed.

End collect.

(** X15. [collect_image_label_pairs] returns one pair for every base name
    that some image file and some label file of an accepted extension
    share, and no other pair: when several files of a directory have the
    same base name (such as [a.jpg] and [a.png]) the one listed last is
    the one paired, and the paths are those of the files in the [images]
    and [labels] directories. A directory that cannot be listed gives no
    pair at all. *)
Theorem collected_pairs (root_input_dir : string) (image_files label_files : list string) :
  let images_dir := Py.path_join root_input_dir IMAGES_FOLDER_NAME in
  let labels_dir := Py.path_join root_input_dir LABELS_FOLDER_NAME in
  let pairs :=
    collect_image_label_pairs root_input_dir (Some image_files) (Some label_files) in
  (∀ image_path label_path, (image_path, label_path) ∈ pairs ↔
     ∃ base image_file label_file,
       last_with_base IMAGE_EXTENSIONS base image_files = Some image_file
       ∧ last_with_base LABEL_EXTENSIONS base label_files = Some label_file
       ∧ image_path = Py.path_join images_dir image_file
       ∧ label_path = Py.path_join labels_dir label_file)
  ∧ length pairs
    = size (bases_of IMAGE_EXTENSIONS image_files ∩ bases_of LABEL_EXTENSIONS label_files)
  ∧ (∀ listing, collect_image_label_pairs root_input_dir None listing = []
                ∧ collect_image_label_pairs root_input_dir listing None = []).
Proof.
  intros images_dir labels_dir pairs. split; [|split].
  - intros image_path label_path. unfold pairs, collect_image_label_pairs.
    fold images_dir labels_dir. rewrite list_elem_of_fmap. split.
    + intros (base & Heq & Hbase). apply elem_of_elements, elem_of_intersection in Hbase.
      destruct Hbase as [Hi Hl]. apply elem_of_dom in Hi as [ip Hip], Hl as [lp Hlp].
      rewrite !lookup_total_alt, Hip, Hlp in Heq. cbn in Heq. injection Heq as -> ->.
      rewrite build_mapping_lookup in Hip, Hlp.
      destruct (last_with_base IMAGE_EXTENSIONS base image_files) as [fi|] eqn:Hfi; [|done].
      destruct (last_with_base LABEL_EXTENSIONS base label_files) as [fl|] eqn:Hfl; [|done].
      cbn in Hip, Hlp. injection Hip as <-. injection Hlp as <-.
      by exists base, fi, fl.
    + intros (base & fi & fl & Hfi & Hfl & -> & ->). exists base.
      rewrite !lookup_total_alt, !build_mapping_lookup, Hfi, Hfl. split; [done|].
      apply elem_of_elements, elem_of_intersection.
      rewrite !elem_of_dom, !build_mapping_lookup, Hfi, Hfl. done.
  - unfold pairs, collect_image_label_pairs. rewrite length_fmap.
    by rewrite !dom_build_mapping.
  - intros listing. by destruct listing.
Qed.

(** X16. Of two image files with the same base name, the later one in
    the listing wins: the image of a collected pair is followed in the
    listing by no other image file of the same base name and an accepted
    extension. *)
Theorem later_file_of_same_base_wins (root_input_dir : string)
    (image_files label_files : list string) (image_path label_path : string) :
  (image_path, label_path)
    ∈ collect_image_label_pairs root_input_dir (Some image_files) (Some label_files) →
  ∃ before image_file after,
    image_files = before ++ image_file :: after
    ∧ image_path
      = Py.path_join (Py.path_join root_input_dir IMAGES_FOLDER_NAME) image_file
    ∧ eligible IMAGE_EXTENSIONS image_file = true
    ∧ (Py.splitext image_file).1 ∈ bases_of LABEL_EXTENSIONS label_files
    ∧ ∀ later, later ∈ after → eligible IMAGE_EXTENSIONS later = true →
        (Py.splitext later).1 ≠ (Py.splitext image_file).1.
Proof.
  unfold collect_image_label_pairs. rewrite list_elem_of_fmap.
  intros (base & Heq & Hbase). apply elem_of_elements, elem_of_intersection in Hbase.
  destruct Hbase as [Hi Hl]. rewrite dom_build_mapping in Hl.
  apply elem_of_dom in Hi as [ip Hip].
  rewrite lookup_total_alt, Hip in Heq. cbn in Heq. injection Heq as -> _.
  rewrite build_mapping_lookup in Hip.
  destruct (last_with_base IMAGE_EXTENSIONS base image_files) as [fi|] eqn:Hfi; [|done].
  cbn in Hip. injection Hip as <-.
  destruct (last_with_base_Some _ _ _ _ Hfi) as (_ & He & Hb).
  destruct (last_with_base_last _ _ _ _ Hfi) as (before & after & Hsplit & Hafter).
  exists before, fi, after. split; [done|]. split; [done|]. split; [done|].
  split; [by rewrite Hb|]. intros later Hin Hel Hbl. apply (Hafter later Hin).
  split; [done|]. by rewrite Hbl.
Qed.

Lemma later_file_of_same_base_wins_witness :
  let image_files := ["a.jpg"; "b.jpg"; "a.png"] in
  let label_files := ["a.txt"] in
  collect_image_label_pairs "in" (Some image_files) (Some label_files)
  = [("in/images/a.png", "in/labels/a.txt")]
  ∧ ∃ before image_file after,
      image_files = before ++ image_file :: after
      ∧ "in/images/a.png" = Py.path_join (Py.path_join "in" IMAGES_FOLDER_NAME) image_file.
Proof.
  assert (Hrun : collect_image_label_pairs "in" (Some ["a.jpg"; "b.jpg"; "a.png"])
                   (Some ["a.txt"])
                 = [("in/images/a.png", "in/labels/a.txt")]) by (by vm_compute).
  split; [exact Hrun|].
  destruct (later_file_of_same_base_wins "in" ["a.jpg"; "b.jpg"; "a.png"] ["a.txt"]
              "in/images/a.png" "in/labels/a.txt")
    as (before & image_file & after & Hsplit & Hpath & _).
  { rewrite Hrun. left. }
  by exists before, image_file, after.
Defined.

(** ** Paths: base names and joined paths *)

Section paths.
Implicit Types (s t u v a b p : string) (c : ascii).































End paths.

(** ** Copying the batches *)

Section copy.
Implicit Types (files fs : gmap string Content) (batch : list (string * string))
  (batches : list (list (string * string))) (D : list string).























End copy.




(** ** The whole batching run *)

Section main.
Implicit Types (files : gmap string Content) (batches : list (list (string * string))).















End main.



(** ** The parallel [combine_folders]: a lost file *)

(** X20. The parallel [combine_folders] of [vid_folder_cut_frame.py] can
    lose a file. With at least two worker processes, two copy tasks for
    the same destination (images of the same name in two sub-folders) can
    both find the destination free before either has copied: both then
    copy to it and return normally, and the destination holds the second
    source only, so that one file has been added for two images. *)
Theorem parallel_copy_can_lose_a_file (num_processes : nat) (files : gmap string Content)
    (src1 src2 dest_path : string) (c1 c2 : Content) :
  (2 ≤ num_processes)%nat →
  files !! src1 = Some c1 → files !! src2 = Some c2 → files !! dest_path = None →
  rtc (pool_step num_processes)
    (files, [NotStarted (src1, dest_path); NotStarted (src2, dest_path)])
    (<[dest_path := c2]> files, [Finished; Finished]).
Proof.
  intros Hn H1 H2 Hfree.
  assert (src1 ≠ dest_path) as Hne1 by congruence.
  assert (src2 ≠ dest_path) as Hne2 by congruence.
  eapply rtc_l.
  { apply (pool_start _ files _ 0 src1 dest_path); [done|constructor|].
    match goal with |- (?n < _)%nat => let v := eval vm_compute in n in change n with v end. lia. }
  eapply rtc_l.
  { apply (pool_start _ files _ 1 src2 dest_path); [done|by repeat constructor|].
    match goal with |- (?n < _)%nat => let v := eval vm_compute in n in change n with v end. lia. }
  eapply rtc_l.
  { apply (pool_run _ files _ 0 (Checking src1 dest_path 1)); [done..|].
    cbn [copy_file_step]. by rewrite Hfree. }
  eapply rtc_l.
  { apply (pool_run _ files _ 1 (Checking src2 dest_path 1)); [done..|].
    cbn [copy_file_step]. by rewrite Hfree. }
  eapply rtc_l.
  { apply (pool_run _ files _ 0 (Copying src1 dest_path)); [done..|].
    cbn [copy_file_step]. unfold copy2. rewrite H1, decide_False by done. done. }
  eapply rtc_l.
  { apply (pool_run _ _ _ 1 (Copying src2 dest_path)); [done..|].
    cbn [copy_file_step]. unfold copy2.
    rewrite lookup_insert_ne, H2, decide_False by done. done. }
  cbn [list_insert insert]. rewrite insert_insert_eq. apply rtc_refl.
Qed.

Lemma parallel_copy_can_lose_a_file_witness :
  copy_tasks "root" "out" (two_folders [1%N] [2%N])
  = [("root/x/a.jpg", "out/a.jpg"); ("root/y/a.jpg", "out/a.jpg")]
  ∧ rtc (pool_step 2)
      (two_folders_files [1%N] [2%N],
       NotStarted <$> copy_tasks "root" "out" (two_folders [1%N] [2%N]))
      (<["out/a.jpg" := [2%N]]> (two_folders_files [1%N] [2%N]), [Finished; Finished]).
Proof.
  split; [by vm_compute|].
  apply (parallel_copy_can_lose_a_file 2 (two_folders_files [1%N] [2%N])
           "root/x/a.jpg" "root/y/a.jpg" "out/a.jpg" [1%N] [2%N]);
    [lia|by vm_compute..].
Defined.

(** ** [excel_write_fname.py]: the label of a file name *)

Section label.
Implicit Types (s t pre cur : string) (sep : ascii).

Lemma without_cons sep c s :
  without sep (String c s) = negb (Ascii.eqb c sep) && without sep s.
Proof. done. Qed.

Lemma split_on_nonempty sep s : ∀ cur, split_on sep s cur ≠ [].
Proof.
  induction s as [|c s IH]; intros cur; cbn [split_on]; [done|].
  destruct (Ascii.eqb c sep); [done|apply IH].
Qed.

Lemma split_on_without sep s : ∀ cur,
  without sep s = true → split_on sep s cur = [cur +:+ s].
Proof.
  induction s as [|c s IH]; intros cur Hs; cbn [split_on].
  - f_equal. induction cur as [|c cur IHc]; [done|]. by rewrite str_app_cons, <- IHc.
  - rewrite without_cons in Hs. apply andb_true_iff in Hs as [Hc Hs].
    apply negb_true_iff in Hc. rewrite Hc, IH by done.
    by rewrite str_app_assoc, str_app_cons, str_app_nil_l.
Qed.

Lemma split_on_app sep pre t : ∀ cur,
  last (split_on sep (pre +:+ String sep t) cur) = last (split_on sep t "")
  ∧ (1 < length (split_on sep (pre +:+ String sep t) cur))%nat.
Proof.
  assert (Hlen : ∀ s cur, (1 ≤ length (split_on sep s cur))%nat).
  { intros s cur. pose proof (split_on_nonempty sep s cur).
    destruct (split_on sep s cur); [done|simpl; lia]. }
  induction pre as [|c pre IH]; intros cur.
  - rewrite str_app_nil_l. cbn [split_on]. rewrite Ascii.eqb_refl. split.
    + rewrite last_cons. pose proof (split_on_nonempty sep t "") as Hne.
      apply last_is_Some in Hne as [y Hy]. by rewrite Hy.
    + cbn [length]. specialize (Hlen t ""). lia.
  - rewrite str_app_cons. cbn [split_on]. destruct (Ascii.eqb c sep); [|apply IH].
    destruct (IH "") as [Hlast Hl]. split; [|cbn [length]; lia].
    rewrite last_cons, Hlast. pose proof (split_on_nonempty sep t "") as Hne.
    apply last_is_Some in Hne as [y Hy]. by rewrite Hy.
Qed.

Lemma last_sep_split sep s :
  without sep s = true
  ∨ ∃ pre t, s = pre +:+ String sep t ∧ without sep t = true.
Proof.
  induction s as [|c s IH]; [by left|].
  destruct IH as [Hs|(pre & t & -> & Ht)].
  - destruct (Ascii.eqb_spec c sep) as [->|Hne].
    + right. by exists "", s.
    + left. rewrite without_cons, Hs. by apply Ascii.eqb_neq in Hne as ->.
  - right. by exists (String c pre), t.
Qed.

Lemma extract_label_cases filename :
  (without "_" (Py.splitext filename).1 = true ∧ extract_label filename = "")
  ∨ ∃ pre t, (Py.splitext filename).1 = pre +:+ String "_" t
             ∧ without "_" t = true ∧ extract_label filename = t.
Proof.
  unfold extract_label.
  destruct (last_sep_split "_" (Py.splitext filename).1) as [Hs|(pre & t & Heq & Ht)].
  - left. split; [done|]. by rewrite split_on_without.
  - right. exists pre, t. split; [done|]. split; [done|]. rewrite Heq.
    destruct (split_on_app "_" pre t "") as [Hlast Hlen].
    apply Nat.ltb_lt in Hlen. rewrite Hlen, Hlast.
    by rewrite split_on_without, str_app_nil_l.
Qed.

End label.

(** X21. [extract_label] gives what follows the last underscore of the
    file name without its extension, and the empty string when there is
    no underscore; the label never holds an underscore. *)
Theorem extract_label_is_last_part (filename : string) :
  let base_name := (Py.splitext filename).1 in
  without "_" (extract_label filename) = true
  ∧ (without "_" base_name = true ↔
     ¬ ∃ pre t, base_name = pre +:+ "_" +:+ t)
  ∧ (without "_" base_name = true → extract_label filename = "")
  ∧ (∀ pre t, base_name = pre +:+ "_" +:+ t → without "_" t = true →
       extract_label filename = t).
Proof.
  intros base_name.
  assert (Happ : ∀ pre t, without "_" (pre +:+ "_" +:+ t) = without "_" pre && false).
  { intros pre t. induction pre as [|c pre IH].
    - by rewrite str_app_nil_l, str_app_cons.
    - by rewrite str_app_cons, !without_cons, IH, andb_assoc. }
  assert (Huniq : ∀ pre1 t1 pre2 t2,
            pre1 +:+ "_" +:+ t1 = pre2 +:+ "_" +:+ t2 →
            without "_" t1 = true → without "_" t2 = true → t1 = t2).
  { assert (Hu : ∀ t, "_" +:+ t = String "_" t).
    { intros t. by rewrite str_app_cons, str_app_nil_l. }
    assert (Happ' : ∀ pre t, without "_" (pre +:+ String "_" t) = false).
    { intros pre t. by rewrite <- Hu, Happ, andb_false_r. }
    intros pre1. induction pre1 as [|c pre1 IH]; intros t1 pre2 t2 Heq H1 H2;
      rewrite !Hu in Heq.
    - rewrite str_app_nil_l in Heq. destruct pre2 as [|c2 pre2].
      + rewrite str_app_nil_l in Heq. by injection Heq.
      + rewrite str_app_cons in Heq. injection Heq as _ Heq.
        by rewrite Heq, Happ' in H1.
    - rewrite (str_app_cons c pre1) in Heq. destruct pre2 as [|c2 pre2].
      + rewrite str_app_nil_l in Heq. injection Heq as _ Heq.
        by rewrite <- Heq, Happ' in H2.
      + rewrite (str_app_cons c2 pre2) in Heq. injection Heq as _ Heq.
        eapply (IH t1 pre2 t2); [by rewrite !Hu|done|done]. }
  destruct (extract_label_cases filename) as [[Hb Hl]|(pre & t & Hb & Ht & Hl)];
    fold base_name in Hb.
  - split; [by rewrite Hl|]. split; [|split; [done|]].
    + split; [|done]. intros _ (pre & t & Heq).
      rewrite Heq, Happ, andb_false_r in Hb. done.
    + intros pre t Heq _. rewrite Heq, Happ, andb_false_r in Hb. done.
  - assert (Hb' : base_name = pre +:+ "_" +:+ t).
    { by rewrite Hb, str_app_cons, str_app_nil_l. }
    split; [by rewrite Hl|]. split; [|split].
    + split; [|intros Hno; exfalso; apply Hno; by exists pre, t].
      intros Hw. rewrite Hb', Happ, andb_false_r in Hw. done.
    + intros Hw. rewrite Hb', Happ, andb_false_r in Hw. done.
    + intros pre2 t2 Heq Ht2. rewrite Hl. rewrite Hb' in Heq. by eapply Huniq.
Qed.

(** ** [cutframe_from_vid_folder.py]: frames in folders of 500 *)

Section batches_of_500.

Lemma placed_app output_folder sel1 : ∀ j sel2,
  placed output_folder j (sel1 ++ sel2)
  = placed output_folder j sel1
    ++ placed output_folder (j + Z.of_nat (length sel1)) sel2.
Proof.
  induction sel1 as [|[[v i] f] sel1 IH]; intros j sel2.
  - cbn. by rewrite Z.add_0_r.
  - cbn [app placed length]. rewrite IH. do 3 f_equal. lia.
Qed.

Lemma batch_inv_init output_folder :
  batch_inv output_folder 0
    {| total_frames_saved := 0; folder_count := 1;
       current_output_folder := batch_folder output_folder 1; batch_imwrites := [] |}.
Proof. done. Qed.

Lemma save_frame_inv output_folder video_name n c frame st (S : Z) :
  n ≠ 0 → 0 ≤ S → batch_inv output_folder S st →
  ∃ st',
    save_frame output_folder video_name n c frame st = Ok st'
    ∧ if decide (c mod n = 0) then
        batch_imwrites st'
        = batch_imwrites st ++ placed output_folder S [(video_name, c, frame)]
        ∧ batch_inv output_folder (S + 1) st'
      else st' = st.
Proof.
  intros Hn HS (Hfc & Htfs & Hcur). unfold save_frame.
  destruct (Z.eqb_spec n 0) as [|_]; [done|].
  destruct (Z.eqb_spec (c mod n) 0) as [Hm|Hm].
  - eexists. split; [reflexivity|]. rewrite decide_True by done.
    assert (HS1 : (S + 1 =? 0) = false) by (apply Z.eqb_neq; lia).
    unfold batch_inv. rewrite HS1. replace (S + 1 - 1) with S by lia.
    destruct (Z.leb_spec 500 (total_frames_saved st)) as [Hroll|Hstay];
      cbn [total_frames_saved folder_count current_output_folder batch_imwrites placed].
    + destruct (Z.eqb_spec S 0) as [->|HS0]; [lia|].
      assert (folder_count st + 1 = S / 500 + 1) as Hnew.
      { rewrite Hfc. pose proof (Z.div_mod S 500 ltac:(lia)).
        pose proof (Z.mod_pos_bound S 500 ltac:(lia)).
        pose proof (Z.div_mod (S - 1) 500 ltac:(lia)).
        pose proof (Z.mod_pos_bound (S - 1) 500 ltac:(lia)). lia. }
      rewrite Hnew. split; [done|]. split; [done|]. split; [|done].
      pose proof (Z.div_mod S 500 ltac:(lia)).
      pose proof (Z.mod_pos_bound S 500 ltac:(lia)).
      pose proof (Z.div_mod (S - 1) 500 ltac:(lia)).
      pose proof (Z.mod_pos_bound (S - 1) 500 ltac:(lia)). lia.
    + assert (folder_count st = S / 500 + 1) as Hsame.
      { rewrite Hfc. destruct (Z.eqb_spec S 0) as [->|HS0]; [done|].
        rewrite Hfc in Htfs. destruct (Z.eqb_spec S 0) as [|_]; [lia|].
        pose proof (Z.div_mod S 500 ltac:(lia)).
        pose proof (Z.mod_pos_bound S 500 ltac:(lia)).
        pose proof (Z.div_mod (S - 1) 500 ltac:(lia)).
        pose proof (Z.mod_pos_bound (S - 1) 500 ltac:(lia)). lia. }
      rewrite Hcur, Hsame. split; [done|]. split; [done|]. split; [|done].
      rewrite Htfs, Hsame. lia.
  - exists st. split; [done|]. by rewrite decide_False.
Qed.

Lemma selected_from_cons n video_name c frame rest :
  selected_from n video_name c (frame :: rest)
  = (if decide (c mod n = 0) then [(video_name, c, frame)] else [])
    ++ selected_from n video_name (c + 1) rest.
Proof.
  unfold selected_from. cbn [length].
  rewrite seqZ_cons by lia.
  replace (Z.pred (Z.of_nat (S (length rest)))) with (Z.of_nat (length rest)) by lia.
  replace (Z.succ c) with (c + 1) by lia.
  cbn [zip zip_with]. rewrite filter_cons. cbn [fst].
  destruct (decide (c mod n = 0)); [by rewrite fmap_cons|done].
Qed.

Lemma batch_loop_inv output_folder video_name n rest : ∀ c st (S : Z),
  n ≠ 0 → 0 ≤ S → batch_inv output_folder S st →
  ∃ st',
    batch_loop output_folder video_name n rest c st = Ok st'
    ∧ batch_imwrites st'
      = batch_imwrites st ++ placed output_folder S (selected_from n video_name c rest)
    ∧ batch_inv output_folder
        (S + Z.of_nat (length (selected_from n video_name c rest))) st'.
Proof.
  induction rest as [|frame rest IH]; intros c st S Hn HS Hinv.
  - exists st. cbn. rewrite app_nil_r, Z.add_0_r. done.
  - cbn [batch_loop]. rewrite selected_from_cons.
    destruct (save_frame_inv output_folder video_name n c frame st S Hn HS Hinv)
      as (st1 & Hstep & Hcase).
    rewrite Hstep. cbn [mbind result_bind].
    destruct (decide (c mod n = 0)) as [Hm|Hm].
    + destruct Hcase as [Hw Hinv1].
      destruct (IH (c + 1) st1 (S + 1) Hn ltac:(lia) Hinv1) as (st' & Hrun & Hw' & Hinv').
      exists st'. split; [done|]. rewrite placed_app, Hw', Hw. cbn [length app].
      rewrite <- app_assoc. split; [done|].
      replace (S + Z.of_nat (Datatypes.S (length (selected_from n video_name (c + 1) rest))))
        with (S + 1 + Z.of_nat (length (selected_from n video_name (c + 1) rest))) by lia.
      done.
    + subst st1. cbn [app]. by apply IH.
Qed.

Lemma selected_of_folder_cons n filename cap rest :
  selected_of_folder n ((filename, cap) :: rest)
  = (if Py.endswith_any filename [".avi"; ".mp4"]
     then selected_from n (Py.splitext filename).1 0 (decoded cap) else [])
    ++ selected_of_folder n rest.
Proof.
  unfold selected_of_folder. rewrite filter_cons. cbn [fst snd].
  destruct (Py.endswith_any filename [".avi"; ".mp4"]) eqn:He.
  - rewrite decide_True by done. done.
  - rewrite decide_False by done. done.
Qed.

Lemma batch_videos_inv output_folder n input_folder : ∀ st (S : Z),
  n ≠ 0 → 0 ≤ S → batch_inv output_folder S st →
  ∃ st',
    batch_videos output_folder n st input_folder = Ok st'
    ∧ batch_imwrites st'
      = batch_imwrites st ++ placed output_folder S (selected_of_folder n input_folder).
Proof.
  induction input_folder as [|[filename cap] rest IH]; intros st S Hn HS Hinv.
  - exists st. cbn. by rewrite app_nil_r.
  - cbn [batch_videos batch_video]. rewrite selected_of_folder_cons.
    destruct (Py.endswith_any filename [".avi"; ".mp4"]).
    + unfold decoded. destruct (isOpened cap).
      * destruct (batch_loop_inv output_folder (Py.splitext filename).1 n (stream cap)
                    0 st S Hn HS Hinv) as (st1 & Hrun & Hw & Hinv1).
        rewrite Hrun. cbn [mbind result_bind].
        assert (HS1 : 0 ≤ S + Z.of_nat (length (selected_from n
                  (Py.splitext filename).1 0 (stream cap)))) by lia.
        destruct (IH st1 _ Hn HS1 Hinv1) as (st' & Hrun' & Hw').
        exists st'. split; [done|]. by rewrite placed_app, Hw', Hw, <- app_assoc.
      * cbn [mbind result_bind]. unfold selected_from. cbn. by apply IH.
    + cbn [mbind result_bind app]. by apply IH.
Qed.

End batches_of_500.

(** X22. [extract_frames] of [cutframe_from_vid_folder.py], for an
    interval [n] other than 0, saves of every [.avi] or [.mp4] file of the folder
    the frames whose index is a multiple of [n], in order, under the name
    [<video>_frame_<index>.jpg] (the index of the frame, not padded), and
    fills the folders [batch_1], [batch_2], ... with 500 frames each: the
    [j]-th frame saved by the run, counted from 0 across all the videos,
    goes to [batch_<j // 500 + 1>]. *)
Theorem frames_go_to_folders_of_500 (input_folder : list (string * VideoCapture))
    (output_folder : string) (n : Z) :
  n ≠ 0 →
  extract_frames_in_batches input_folder output_folder n
  = Ok (placed output_folder 0 (selected_of_folder n input_folder)).
Proof.
  intros Hn. unfold extract_frames_in_batches.
  destruct (batch_videos_inv output_folder n input_folder _ 0 Hn ltac:(lia)
              (batch_inv_init output_folder)) as (st' & Hrun & Hw).
  rewrite Hrun. cbn [mbind result_bind]. by rewrite Hw.
Qed.

Lemma frames_go_to_folders_of_500_witness :
  2 ≠ 0
  ∧ (λ writes, writes.*1 !! 600%nat)
      <$> extract_frames_in_batches [("v.mp4", long_video); ("notes.txt", long_video)] "out" 2
    = Ok (Some "out/batch_2/v_frame_1200.jpg").
Proof.
  split; [done|].
  rewrite (frames_go_to_folders_of_500 _ "out" 2 ltac:(done)).
  by vm_compute.
Defined.

(** ** [random_select_imgandlbl.py]: picking a share of the pairs *)

Section pick.
Context (images_folder labels_folder output_images0 output_labels0 : gmap string Content).
Implicit Types (file name : string) (selected_files : list string).

Lemma has_label_true file :
  has_label labels_folder file = true ↔ is_Some (labels_folder !! label_of file).
Proof. unfold has_label. apply bool_decide_eq_true. Qed.

Lemma pick_files_picked selected_files :
  (∀ file, file ∈ selected_files → is_Some (images_folder !! file)) →
  picked images_folder labels_folder output_images0 output_labels0 selected_files
    (foldl (pick_file images_folder labels_folder)
       {| output_images := output_images0; output_labels := output_labels0;
          copied_count := 0 |} selected_files).
Proof.
  induction selected_files as [|f sel IH] using rev_ind; intros Hin.
  - split; [done|]. split; [by intros ? ?%elem_of_nil|]. done.
  - rewrite foldl_app. cbn [foldl].
    destruct IH as (Hc & Hcopied & Him & Hlb).
    { intros file Hf. apply Hin, elem_of_app. by left. }
    set (st := foldl _ _ sel) in *.
    destruct (Hin f) as [image Himage].
    { apply elem_of_app. right. by apply list_elem_of_singleton. }
    unfold pick_file. rewrite Himage.
    destruct (labels_folder !! label_of f) as [label|] eqn:Hlabel.
    + assert (Hlf : has_label labels_folder f = true).
      { apply has_label_true. by rewrite Hlabel. }
      split; [|split; [|split]]; cbn [copied_count output_images output_labels].
      * rewrite filter_app, length_app, Hc. rewrite filter_cons_True by done.
        rewrite filter_nil. cbn [length]. lia.
      * intros file Hf Hl. destruct (decide (file = f)) as [->|Hne].
        { by rewrite !lookup_insert_eq, Himage, Hlabel. }
        apply elem_of_app in Hf as [Hf|Hf%list_elem_of_singleton]; [|done].
        destruct (Hcopied file Hf Hl) as [Hi Hlb'].
        rewrite lookup_insert_ne by done. split; [done|].
        destruct (decide (label_of f = label_of file)) as [Heq|Hne'].
        -- by rewrite <- Heq, lookup_insert_eq, Hlabel.
        -- by rewrite lookup_insert_ne.
      * intros name Hname. rewrite lookup_insert_ne.
        -- apply Him. intros [Hn Hl]. apply Hname. split; [|done].
           apply elem_of_app. by left.
        -- intros <-. apply Hname. split; [|done].
           apply elem_of_app. right. by apply list_elem_of_singleton.
      * intros name Hname. rewrite lookup_insert_ne.
        -- apply Hlb. intros file Hf. apply Hname, elem_of_app. by left.
        -- apply Hname; [|done]. apply elem_of_app. right. by apply list_elem_of_singleton.
    + assert (Hlf : has_label labels_folder f ≠ true).
      { rewrite has_label_true, Hlabel. by intros [? ?]. }
      split; [|split; [|split]].
      * rewrite filter_app, length_app, Hc. rewrite filter_cons_False by done.
        rewrite filter_nil. cbn [length]. lia.
      * intros file Hf Hl.
        apply elem_of_app in Hf as [Hf|Hf%list_elem_of_singleton]; [by apply Hcopied|].
        by subst file.
      * intros name Hname. apply Him. intros [Hn Hl]. apply Hname. split; [|done].
        apply elem_of_app. by left.
      * intros name Hname. apply Hlb. intros file Hf. apply Hname, elem_of_app. by left.
Qed.

Lemma prefix_slice_subseteq {A} (l : list A) (stop : Z) x :
  x ∈ prefix_slice l stop → x ∈ l.
Proof.
  unfold prefix_slice. destruct (stop <? 0); intros Hx; by eapply subseteq_take.
Qed.

Lemma random_pick_of_num shuffle ratio (num_to_pick : Z) :
  shuffle (jpg_frames images_folder) ≡ₚ jpg_frames images_folder →
  frames_to_keep_of (Z.of_nat (length (jpg_frames images_folder))) ratio = Ok num_to_pick →
  ∃ st,
    random_pick_images_and_labels shuffle images_folder labels_folder
      output_images0 output_labels0 ratio = Ok st
    ∧ picked images_folder labels_folder output_images0 output_labels0
        (prefix_slice (shuffle (jpg_frames images_folder)) num_to_pick) st.
Proof.
  intros Hperm Hnum. unfold random_pick_images_and_labels.
  unfold frames_to_keep_of in Hnum. rewrite Hnum. cbn [mbind result_bind].
  eexists. split; [reflexivity|]. apply pick_files_picked.
  intros file Hf%prefix_slice_subseteq. rewrite Hperm in Hf.
  by apply elem_of_jpg_frames in Hf as [_ Hf].
Qed.

Lemma picked_count_le selected_files st :
  picked images_folder labels_folder output_images0 output_labels0 selected_files st →
  0 ≤ copied_count st ≤ Z.of_nat (length selected_files)
  ∧ (Forall (λ f, has_label labels_folder f = true) selected_files →
     copied_count st = Z.of_nat (length selected_files)).
Proof.
  intros (-> & _). split.
  - pose proof (length_filter (λ f, has_label labels_folder f = true) selected_files). lia.
  - intros Hall. f_equal. f_equal. clear -Hall.
    induction Hall as [|f l Hf Hall IH]; [done|].
    by rewrite filter_cons_True, IH.
Qed.

End pick.

Section float_sign.

Lemma binary_round_aux_opp (m e : Z) (l : location) :
  binary_round_aux Float.prec Float.emax true m e l
  = SFopp (binary_round_aux Float.prec Float.emax false m e l).
Proof.
  unfold binary_round_aux.
  destruct (shr_fexp Float.prec Float.emax m e l) as [mrs' e'].
  destruct (shr_fexp Float.prec Float.emax _ e' loc_Exact) as [mrs'' e''].
  destruct (shr_m mrs''); [done| |done].
  by destruct (e'' <=? Float.emax - Float.prec).
Qed.

Lemma mul_opp_r (y x : spec_float) :
  Float.mul y (SFopp x) = SFopp (Float.mul y x).
Proof.
  unfold Float.mul, SFmul.
  destruct y as [[]|[]| |[] my ey], x as [[]|[]| |[] mx ex]; cbn [SFopp xorb negb];
    try done; rewrite !binary_round_aux_opp;
    by destruct (binary_round_aux _ _ false _ _ _) as [[]|[]| |[] ? ?].
Qed.

Lemma to_int_opp (x : spec_float) :
  Float.to_int (SFopp x) = (m ← Float.to_int x; Ok (- m)).
Proof.
  destruct x as [[]|[]| |[] m e]; cbn [SFopp Float.to_int mbind result_bind negb cond_Zopp];
    try done; f_equal; lia.
Qed.

Lemma frames_to_keep_of_opp (F : Z) (k : spec_float) :
  frames_to_keep_of F (SFopp k) = (m ← frames_to_keep_of F k; Ok (- m)).
Proof.
  unfold frames_to_keep_of, Float.int_mul.
  destruct (Float.of_int F) as [y|e]; [|done]. cbn [mbind result_bind].
  by rewrite mul_opp_r, to_int_opp.
Qed.

End float_sign.

(** X23. [random_pick_images_and_labels] with a ratio from 0 to 1, on at
    most [2^53 - 1] images, selects the first [int(total * ratio)] files
    of the shuffled list of [.jpg] files, a number within one of the
    exact floor of the product and never above the total. It copies each
    selected image that has a label file, with that label, and returns
    their count: an image without a label is skipped but still uses its
    place, so the count can be below [int(total * ratio)], and is equal
    to it when every image has a label. Nothing else of the two output
    folders changes. *)
Theorem random_pick_copies_labelled_share (shuffle : list string → list string)
    (images_folder labels_folder output_images0 output_labels0 : gmap string Content)
    (ratio : spec_float) :
  let image_files := jpg_frames images_folder in
  let total_files := Z.of_nat (length image_files) in
  shuffle image_files ≡ₚ image_files →
  total_files < 2 ^ 53 →
  Float.in_unit_interval ratio = true →
  ∃ num_to_pick st,
    frames_to_keep_of total_files ratio = Ok num_to_pick
    ∧ Float.exact_floor_mul total_files ratio ≤ num_to_pick
      ≤ Float.exact_floor_mul total_files ratio + 1
    ∧ 0 ≤ num_to_pick ≤ total_files
    ∧ random_pick_images_and_labels shuffle images_folder labels_folder
        output_images0 output_labels0 ratio = Ok st
    ∧ let selected_files := take (Z.to_nat num_to_pick) (shuffle image_files) in
      Z.of_nat (length selected_files) = num_to_pick
      ∧ picked images_folder labels_folder output_images0 output_labels0
          selected_files st
      ∧ 0 ≤ copied_count st ≤ num_to_pick
      ∧ (Forall (λ f, has_label labels_folder f = true) image_files →
         copied_count st = num_to_pick).
Proof.
  intros image_files total_files Hperm Htotal Hk.
  destruct (frames_to_keep_of_unit total_files ratio ltac:(lia) Hk)
    as (m & Hm & Hfloor & Hrange).
  destruct (random_pick_of_num images_folder labels_folder output_images0 output_labels0
              shuffle ratio m Hperm Hm) as (st & Hrun & Hpicked).
  exists m, st. split; [done|]. split; [done|]. split; [done|]. split; [done|].
  unfold prefix_slice in Hpicked.
  destruct (Z.ltb_spec m 0) as [|_]; [lia|]. fold image_files in Hpicked.
  assert (Hlen : Z.of_nat (length (take (Z.to_nat m) (shuffle image_files))) = m).
  { rewrite length_take, Hperm. fold total_files. lia. }
  cbv zeta. split; [done|]. split; [done|].
  destruct (picked_count_le _ _ _ _ _ _ Hpicked) as [Hle Hall].
  rewrite Hlen in Hle, Hall. split; [done|].
  intros Hlabels. apply Hall. apply Forall_forall. intros f Hf%subseteq_take.
  rewrite Hperm in Hf. by eapply Forall_forall in Hlabels.
Qed.

Lemma random_pick_copies_labelled_share_witness :
  let ratio := Float.of_ratio 1 2 in
  reverse (jpg_frames pick_images) ≡ₚ jpg_frames pick_images
  ∧ Z.of_nat (length (jpg_frames pick_images)) < 2 ^ 53
  ∧ Float.in_unit_interval ratio = true
  ∧ ∃ st,
      random_pick_images_and_labels reverse pick_images pick_labels ∅ ∅ ratio = Ok st
      ∧ 0 ≤ copied_count st ≤ 2.
Proof.
  assert (Hperm : reverse (jpg_frames pick_images) ≡ₚ jpg_frames pick_images)
    by apply reverse_Permutation.
  assert (Htotal : Z.of_nat (length (jpg_frames pick_images)) < 2 ^ 53) by (by vm_compute).
  assert (Hk : Float.in_unit_interval (Float.of_ratio 1 2) = true) by (by vm_compute).
  split; [done|]. split; [done|]. split; [done|].
  destruct (random_pick_copies_labelled_share reverse pick_images pick_labels ∅ ∅
              (Float.of_ratio 1 2) Hperm Htotal Hk)
    as (m & st & Hm & _ & _ & Hrun & _ & _ & Hcount & _).
  exists st. split; [done|].
  assert (m = 2) as -> by (vm_compute in Hm; by injection Hm).
  done.
Defined.

(** X24. [random_pick_images_and_labels] takes a ratio above 1 without
    complaint: unless the product is too large for [int] (an infinite
    ratio raises OverflowError), every [.jpg] file is selected, and all
    the images that have a label are copied. *)
Theorem random_pick_ratio_above_one (shuffle : list string → list string)
    (images_folder labels_folder output_images0 output_labels0 : gmap string Content)
    (ratio : spec_float) :
  let image_files := jpg_frames images_folder in
  let total_files := Z.of_nat (length image_files) in
  shuffle image_files ≡ₚ image_files →
  1 ≤ total_files < 2 ^ 53 →
  Float.above_one ratio = true →
  match random_pick_images_and_labels shuffle images_folder labels_folder
          output_images0 output_labels0 ratio with
  | Ok st =>
      picked images_folder labels_folder output_images0 output_labels0
        (shuffle image_files) st
      ∧ copied_count st
        = Z.of_nat (length (filter (λ f, has_label labels_folder f = true) image_files))
      ∧ ∀ file, file ∈ image_files → has_label labels_folder file = true →
          output_images st !! file = images_folder !! file
          ∧ output_labels st !! label_of file = labels_folder !! label_of file
  | Raise e => e = OverflowError
  end.
Proof.
  intros image_files total_files Hperm Htotal Hk.
  pose proof (int_mul_above_one total_files ratio Htotal Hk) as Hmul.
  fold (frames_to_keep_of total_files ratio) in Hmul.
  destruct (frames_to_keep_of total_files ratio) as [m|e] eqn:Hm.
  - destruct (random_pick_of_num images_folder labels_folder output_images0 output_labels0
                shuffle ratio m Hperm Hm) as (st & Hrun & Hpicked).
    rewrite Hrun. unfold prefix_slice in Hpicked.
    destruct (Z.ltb_spec m 0) as [|_]; [lia|]. fold image_files in Hpicked.
    rewrite take_ge in Hpicked by (rewrite Hperm; fold total_files; lia).
    split; [done|]. destruct Hpicked as (Hc & Hcopied & _). split.
    + rewrite Hc. by rewrite Hperm.
    + intros file Hf. apply Hcopied. by rewrite Hperm.
  - unfold random_pick_images_and_labels. fold image_files total_files.
    unfold frames_to_keep_of in Hm. by rewrite Hm.
Qed.

Lemma random_pick_ratio_above_one_witness :
  let ratio := Float.of_ratio 3 2 in
  reverse (jpg_frames pick_images) ≡ₚ jpg_frames pick_images
  ∧ 1 ≤ Z.of_nat (length (jpg_frames pick_images)) < 2 ^ 53
  ∧ Float.above_one ratio = true
  ∧ copied_count <$> random_pick_images_and_labels reverse pick_images pick_labels ∅ ∅ ratio
    = Ok 3.
Proof.
  assert (Hperm : reverse (jpg_frames pick_images) ≡ₚ jpg_frames pick_images)
    by apply reverse_Permutation.
  assert (Htotal : 1 ≤ Z.of_nat (length (jpg_frames pick_images)) < 2 ^ 53)
    by (by vm_compute).
  assert (Hk : Float.above_one (Float.of_ratio 3 2) = true) by (by vm_compute).
  split; [done|]. split; [done|]. split; [done|].
  pose proof (random_pick_ratio_above_one reverse pick_images pick_labels ∅ ∅
                (Float.of_ratio 3 2) Hperm Htotal Hk) as Hrun.
  destruct (random_pick_images_and_labels reverse pick_images pick_labels ∅ ∅
              (Float.of_ratio 3 2)) as [st|e] eqn:Hrun0.
  - destruct Hrun as (_ & Hc & _). change (Ok (copied_count st) = Ok 3).
    rewrite Hc. by vm_compute.
  - by vm_compute in Hrun0.
Defined.

(** X25. A negative ratio does not select nothing: for [ratio = -k] with
    [k] from 0 to 1, [int(total * ratio)] is [-m] with
    [m = int(total * k)], and the slice [image_files[:-m]] drops the
    last [m] files of the shuffled list, so [total - m] files are
    selected (all but none when [m = 0], where the slice is empty). *)
Theorem negative_ratio_selects_the_rest (shuffle : list string → list string)
    (images_folder labels_folder output_images0 output_labels0 : gmap string Content)
    (k : spec_float) :
  let image_files := jpg_frames images_folder in
  let total_files := Z.of_nat (length image_files) in
  shuffle image_files ≡ₚ image_files →
  total_files < 2 ^ 53 →
  Float.in_unit_interval k = true →
  ∃ m st,
    frames_to_keep_of total_files k = Ok m
    ∧ 0 ≤ m ≤ total_files
    ∧ frames_to_keep_of total_files (SFopp k) = Ok (- m)
    ∧ random_pick_images_and_labels shuffle images_folder labels_folder
        output_images0 output_labels0 (SFopp k) = Ok st
    ∧ let selected_files :=
        if m =? 0 then [] else take (Z.to_nat (total_files - m)) (shuffle image_files) in
      Z.of_nat (length selected_files) = (if m =? 0 then 0 else total_files - m)
      ∧ picked images_folder labels_folder output_images0 output_labels0
          selected_files st.
Proof.
  intros image_files total_files Hperm Htotal Hk.
  destruct (frames_to_keep_of_unit total_files k ltac:(lia) Hk)
    as (m & Hm & _ & Hrange).
  assert (Hopp : frames_to_keep_of total_files (SFopp k) = Ok (- m)).
  { by rewrite frames_to_keep_of_opp, Hm. }
  destruct (random_pick_of_num images_folder labels_folder output_images0 output_labels0
              shuffle (SFopp k) (- m) Hperm Hopp) as (st & Hrun & Hpicked).
  exists m, st. split; [done|]. split; [done|]. split; [done|]. split; [done|].
  unfold prefix_slice in Hpicked. fold image_files in Hpicked. cbv zeta.
  destruct (Z.eqb_spec m 0) as [->|Hm0].
  - split; [done|]. by rewrite Z.ltb_irrefl in Hpicked.
  - destruct (Z.ltb_spec (- m) 0) as [_|]; [|lia].
    rewrite Hperm in Hpicked at 1. fold total_files in Hpicked.
    replace (total_files + - m) with (total_files - m) in Hpicked by lia.
    split; [|done]. rewrite length_take, Hperm. fold total_files. lia.
Qed.

Lemma negative_ratio_selects_the_rest_witness :
  let k := Float.of_ratio 1 4 in
  reverse (jpg_frames pick_images) ≡ₚ jpg_frames pick_images
  ∧ Z.of_nat (length (jpg_frames pick_images)) < 2 ^ 53
  ∧ Float.in_unit_interval k = true
  ∧ ∃ st,
      random_pick_images_and_labels reverse pick_images pick_labels ∅ ∅ (SFopp k) = Ok st
      ∧ picked pick_images pick_labels ∅ ∅
          (take 3 (reverse (jpg_frames pick_images))) st.
Proof.
  assert (Hperm : reverse (jpg_frames pick_images) ≡ₚ jpg_frames pick_images)
    by apply reverse_Permutation.
  assert (Htotal : Z.of_nat (length (jpg_frames pick_images)) < 2 ^ 53) by (by vm_compute).
  assert (Hk : Float.in_unit_interval (Float.of_ratio 1 4) = true) by (by vm_compute).
  split; [done|]. split; [done|]. split; [done|].
  destruct (negative_ratio_selects_the_rest reverse pick_images pick_labels ∅ ∅
              (Float.of_ratio 1 4) Hperm Htotal Hk)
    as (m & st & Hm & _ & _ & Hrun & _ & Hpicked).
  exists st. split; [done|].
  assert (m = 1) as -> by (vm_compute in Hm; by injection Hm).
  exact Hpicked.
Defined.
